(** * agent-skills-cli: the marketplace, loader and validator cores

    A shallow embedding of [src/core/validator.ts], [src/core/loader.ts],
    [src/core/marketplace.ts] and [src/core/skillsmp.ts], with the
    properties of the install pipeline stated over it.

    Conventions of the embedding.
    - A JavaScript string is a [string], a sequence of code units, each
      below 256 (the Latin-1 range); [String.length] is [.length].
    - An optional field [f?: T] is an [option T]; [None] is [undefined].
    - A [Promise] is a computation in the monad [M]: it reads and writes
      an explicit [world] and either returns or throws.
    - A path is the list of its segments from the root; the file system
      is POSIX and tells letter case apart.  [path.join] and the
      operating system resolve [.] and [..]: [normalize] does it for a
      path, [mkdir] on the way down.
    - The manifest, marketplace.json, is kept in the field [manifest] of
      the world, apart from the tree [fs] of all other files.  [rm] of a
      directory that holds the manifest removes it; writing it does not
      show in [fs]. *)

From Stdlib Require Import String Ascii ZArith List Bool Lia.
From stdpp Require Import base option list gmap strings pretty sorting.

Import ListNotations.
Local Open Scope string_scope.
Local Open Scope list_scope.
Local Open Scope Z_scope.

Notation "a ^^ b" := (String.append a b) (at level 60, right associativity).

(** ** Strings, as the validator uses them *)

Module Str.

(** [s.includes(w)]: does [w] occur in [s] as a contiguous block. *)
Fixpoint includes (w s : string) : bool :=
  String.prefix w s ||
  match s with
  | EmptyString => false
  | String _ s' => includes w s'
  end.

(** The code units below 256 that [toLowerCase] folds: A to Z, and the
    Latin-1 capitals from U+00C0 to U+00DE, the multiplication sign
    U+00D7 apart. *)
Definition is_upper (c : ascii) : bool :=
  let n := nat_of_ascii c in
  (((65 <=? n) && (n <=? 90))
   || ((192 <=? n) && (n <=? 222) && negb (n =? 215)))%nat.

Definition lower_char (c : ascii) : ascii :=
  if is_upper c then ascii_of_nat (nat_of_ascii c + 32) else c.

(** [s.toLowerCase()] for a string of code units below 256: a capital
    becomes the code unit 32 above it, every other code unit is kept. *)
Fixpoint toLowerCase (s : string) : string :=
  match s with
  | EmptyString => EmptyString
  | String c s' => String (lower_char c) (toLowerCase s')
  end.

Fixpoint all_chars (p : ascii -> bool) (s : string) : bool :=
  match s with
  | EmptyString => true
  | String c s' => p c && all_chars p s'
  end.

Fixpoint has_char (p : ascii -> bool) (s : string) : bool :=
  match s with
  | EmptyString => false
  | String c s' => p c || has_char p s'
  end.

(** [parts.join(sep)]. *)
Fixpoint join (sep : string) (parts : list string) : string :=
  match parts with
  | [] => ""
  | [p] => p
  | p :: rest => p ^^ sep ^^ join sep rest
  end.

End Str.

(** ** Regular expressions

    The two patterns of [validator.ts] are written in the syntax below
    and run by Brzozowski derivatives. *)

Module Regex.

Inductive cclass : Type :=
| Lit (c : ascii)                 (* a literal character *)
| Range (lo hi : ascii)           (* [lo-hi] *)
| Union (a b : cclass)            (* [ab] *)
| Neg (a : cclass).               (* [^a] *)

Fixpoint in_class (k : cclass) (c : ascii) : bool :=
  match k with
  | Lit d => Ascii.eqb c d
  | Range lo hi =>
      ((nat_of_ascii lo <=? nat_of_ascii c) && (nat_of_ascii c <=? nat_of_ascii hi))%nat
  | Union a b => in_class a c || in_class b c
  | Neg a => negb (in_class a c)
  end.

Inductive regex : Type :=
| Void
| Eps
| Cls (k : cclass)
| Cat (r1 r2 : regex)
| Alt (r1 r2 : regex)
| Star (r : regex).

(** [r+] *)
Definition Plus (r : regex) : regex := Cat r (Star r).

Fixpoint nullable (r : regex) : bool :=
  match r with
  | Void => false
  | Eps => true
  | Cls _ => false
  | Cat r1 r2 => nullable r1 && nullable r2
  | Alt r1 r2 => nullable r1 || nullable r2
  | Star _ => true
  end.

Fixpoint deriv (c : ascii) (r : regex) : regex :=
  match r with
  | Void => Void
  | Eps => Void
  | Cls k => if in_class k c then Eps else Void
  | Cat r1 r2 =>
      if nullable r1
      then Alt (Cat (deriv c r1) r2) (deriv c r2)
      else Cat (deriv c r1) r2
  | Alt r1 r2 => Alt (deriv c r1) (deriv c r2)
  | Star r1 => Cat (deriv c r1) (Star r1)
  end.

(** Does [r] match the whole of [s] (a pattern between [^] and [$]). *)
Fixpoint matches (r : regex) (s : string) : bool :=
  match s with
  | EmptyString => nullable r
  | String c s' => matches (deriv c r) s'
  end.

(** Any code unit: [[\s\S]]. *)
Definition AnyChar : cclass := Union (Lit "<") (Neg (Lit "<")).

(** [r.test(s)] for a pattern without anchors: [r] matches somewhere
    in [s]. *)
Definition test (r : regex) (s : string) : bool :=
  matches (Cat (Star (Cls AnyChar)) (Cat r (Star (Cls AnyChar)))) s.

(** The language of a regular expression. *)
Inductive lang : regex -> string -> Prop :=
| lang_eps : lang Eps ""
| lang_cls k c : in_class k c = true -> lang (Cls k) (String c "")
| lang_cat r1 r2 s1 s2 : lang r1 s1 -> lang r2 s2 -> lang (Cat r1 r2) (s1 ^^ s2)
| lang_alt_l r1 r2 s : lang r1 s -> lang (Alt r1 r2) s
| lang_alt_r r1 r2 s : lang r2 s -> lang (Alt r1 r2) s
| lang_star_nil r : lang (Star r) ""
| lang_star_cons r s1 s2 : lang r s1 -> lang (Star r) s2 -> lang (Star r) (s1 ^^ s2).

(** The characters some class of [r] accepts. *)
Fixpoint alphabet (r : regex) (c : ascii) : bool :=
  match r with
  | Void | Eps => false
  | Cls k => in_class k c
  | Cat r1 r2 | Alt r1 r2 => alphabet r1 c || alphabet r2 c
  | Star r1 => alphabet r1 c
  end.

End Regex.

(** ** validator.ts *)

Record SkillMetadata : Type := {
  name : option string;
  description : option string;
  license : option string;
  compatibility : option string;
  metadata : option (list (string * string));
  allowedTools : option string
}.

(** The [value?: unknown] of an error: a length or the offending text. *)
Inductive value : Type :=
| VNum (n : Z)
| VStr (s : string).

Record ValidationError : Type := {
  field : string;
  message : string;
  value_ : option value
}.

Definition ValidationWarning : Type := ValidationError.

Record ValidationResult : Type := {
  valid : bool;
  errors : list ValidationError;
  warnings : list ValidationWarning
}.

Definition RESERVED_WORDS : list string :=
  ["anthropic"; "claude"; "google"; "openai"].

Module Pat.
Import Regex.

Definition lower : cclass := Range "a" "z".
Definition lower_digit : cclass := Union (Range "a" "z") (Range "0" "9").

(** [/^[a-z][a-z0-9]*(-[a-z0-9]+)*$/] *)
Definition NAME_PATTERN : regex :=
  Cat (Cls lower)
      (Cat (Star (Cls lower_digit))
           (Star (Cat (Cls (Lit "-")) (Plus (Cls lower_digit))))).

(** [/<[^>]+>/] *)
Definition XML_TAG : regex :=
  Cat (Cls (Lit "<")) (Cat (Plus (Cls (Neg (Lit ">")))) (Cls (Lit ">"))).

End Pat.

Definition len (s : string) : Z := Z.of_nat (String.length s).

(** [!s] for an optional string: [undefined] and [""] are falsy. *)
Definition falsy (s : option string) : bool :=
  match s with
  | None => true
  | Some s => String.eqb s ""
  end.

Definition err (f m : string) (v : option value) : ValidationError :=
  {| field := f; message := m; value_ := v |}.

Definition when {A} (b : bool) (x : A) : list A := if b then [x] else [].

Definition reserved_errors (n : string) : list ValidationError :=
  flat_map
    (fun word =>
       when (Str.includes word (Str.toLowerCase n))
            (err "name" ("Name cannot contain reserved word: " ^^ word) (Some (VStr n))))
    RESERVED_WORDS.

Definition name_checks (md : SkillMetadata) : list ValidationError :=
  if falsy (name md) then [err "name" "Name is required" None]
  else
    let n := default "" (name md) in
    when (64 <? len n)
         (err "name" "Name must be 64 characters or less" (Some (VNum (len n))))
    ++ when (negb (Regex.matches Pat.NAME_PATTERN n))
         (err "name" "Name must contain only lowercase letters, numbers, and hyphens. Cannot start/end with hyphen or have consecutive hyphens." (Some (VStr n)))
    ++ reserved_errors n
    ++ when (Regex.test Pat.XML_TAG n)
         (err "name" "Name cannot contain XML tags" (Some (VStr n))).

Definition description_checks (md : SkillMetadata) : list ValidationError :=
  if falsy (description md) then [err "description" "Description is required" None]
  else
    let d := default "" (description md) in
    when (1024 <? len d)
         (err "description" "Description must be 1024 characters or less" (Some (VNum (len d))))
    ++ when (Regex.test Pat.XML_TAG d)
         (err "description" "Description cannot contain XML tags" None).

Definition description_warnings (md : SkillMetadata) : list ValidationWarning :=
  if falsy (description md) then []
  else
    let d := default "" (description md) in
    when (len d <? 50)
         (err "description" "Description is short. Consider adding more detail about when to use this skill." (Some (VNum (len d)))).

Definition compatibility_checks (md : SkillMetadata) : list ValidationError :=
  match compatibility md with
  | Some c =>
      when (negb (String.eqb c "") && (500 <? len c))
           (err "compatibility" "Compatibility must be 500 characters or less" (Some (VNum (len c))))
  | None => []
  end.

Definition validateMetadata (md : SkillMetadata) : ValidationResult :=
  let errors := name_checks md ++ description_checks md ++ compatibility_checks md in
  {| valid := match errors with [] => true | _ => false end;
     errors := errors;
     warnings := description_warnings md |}.

(** The errors reported on the [name] field. *)
Definition name_errors (r : ValidationResult) : list ValidationError :=
  List.filter (fun e => String.eqb (field e) "name") (errors r).

(** An error mentions [word] when its message contains it. *)
Definition mentions (word : string) (e : ValidationError) : bool :=
  Str.includes word (message e).
(** ** String operations of the remaining functions *)

Module Js.

(** White space as [trim] and [\s] see it, among the code units below
    256: tab to carriage return, space and the no-break space. *)
Definition is_space (c : ascii) : bool :=
  let n := nat_of_ascii c in
  (((9 <=? n) && (n <=? 13)) || (n =? 32) || (n =? 160))%nat.

Fixpoint trimStart (s : string) : string :=
  match s with
  | EmptyString => EmptyString
  | String c s' => if is_space c then trimStart s' else s
  end.

Fixpoint trimEnd (s : string) : string :=
  match s with
  | EmptyString => EmptyString
  | String c s' =>
      match trimEnd s' with
      | EmptyString => if is_space c then EmptyString else String c EmptyString
      | t => String c t
      end
  end.

Definition trim (s : string) : string := trimEnd (trimStart s).

(** [s.split(sep)] for a separator of one code unit. *)
Fixpoint split (sep : ascii) (s : string) : list string :=
  match s with
  | EmptyString => [""]
  | String c s' =>
      let r := split sep s' in
      if Ascii.eqb c sep then "" :: r
      else match r with
           | [] => [String c ""]
           | h :: t => String c h :: t
           end
  end.

(** How often [c] occurs in [s]. *)
Fixpoint count (c : ascii) (s : string) : nat :=
  match s with
  | EmptyString => O
  | String d s' => (if Ascii.eqb d c then 1 else 0) + count c s'
  end.

Definition newline : ascii := "010".

End Js.


(** ** types/marketplace.ts *)

(** A path is the list of its segments below the root; [join(p, name)]
    is [p ++ [name]]. *)
Abbreviation path := (list string).

Module Source.
Record t : Type := {
  id : string;
  name : string;
  owner : string;
  repo : string;
  branch : option string;
  skillsPath : option string;
  description : option string;
  verified : option bool
}.
End Source.
Abbreviation MarketplaceSource := Source.t.

(** The fields [fetchSkillsMP] adds to the skills it returns. *)
Record SkillsMPExtra : Type := {
  skillId : string;
  stars : Z;
  githubUrl : string
}.

Module Remote.
Record t : Type := {
  name : string;
  description : string;
  path : string;
  source : MarketplaceSource;
  license : option string;
  author : option string;
  version : option string;
  tags : option (list string);
  extra : option SkillsMPExtra
}.
End Remote.
Abbreviation MarketplaceSkill := Remote.t.

Module Installed.
Record t : Type := {
  name : string;
  localPath : path;
  source : option MarketplaceSource;
  remotePath : option string;
  version : option string;
  installedAt : Z;                 (* the clock value [new Date()] read *)
  lastChecked : option string
}.
End Installed.
Abbreviation InstalledSkill := Installed.t.

Module Config.
Record t : Type := {
  sources : list MarketplaceSource;
  installed : list InstalledSkill;
  installDir : path
}.
End Config.
Abbreviation MarketplaceConfig := Config.t.

Definition DEFAULT_MARKETPLACES : list MarketplaceSource :=
  [ {| Source.id := "anthropic-skills";
       Source.name := "Anthropic Official Skills";
       Source.owner := "anthropics";
       Source.repo := "skills";
       Source.branch := Some "main";
       Source.skillsPath := Some "skills";
       Source.description := Some "Official Agent Skills from Anthropic";
       Source.verified := Some true |} ].

(** ** The world a command runs in *)

(** What [parseSkillMdFrontmatter] keeps of a document. *)
Record Frontmatter : Type := {
  fm_name : option string;
  fm_description : option string;
  fm_license : option string;
  fm_author : option string;       (* metadata.author *)
  fm_version : option string       (* metadata.version *)
}.

(** A text is known by what its two readers make of it: gray-matter
    ([matter(content).data], [None] when it throws) and
    [parseSkillMdFrontmatter] ([None] is [null]). *)
Record text : Type := {
  matter : option SkillMetadata;
  frontmatter : option Frontmatter
}.

Inductive node : Type :=
| Dir
| File (content : text).

(** One skill of [skills-index.json]. *)
Record IndexEntry : Type := {
  ix_name : string;
  ix_description : option string;
  ix_path : string;
  ix_license : option string;
  ix_author : option string;
  ix_version : option string
}.

(** One item of a GitHub contents listing. *)
Record DirEntry : Type := {
  de_name : string;
  de_path : string;
  de_type : string
}.

(** skillsmp.ts: [SkillsMPSkill] and [SkillsMPResponse]. *)
Record SkillsMPSkill : Type := {
  mp_id : string;
  mp_name : string;
  mp_author : string;
  mp_description : string;
  mp_githubUrl : string;
  mp_stars : Z;
  mp_path : string;
  mp_branch : string
}.

Record Pagination : Type := {
  pg_page : Z;
  pg_limit : Z;
  pg_total : Z;
  pg_totalPages : Z;
  pg_hasNext : bool;
  pg_hasPrev : bool
}.

(** A reply that parses may still lack its [pagination] object. *)
Record SkillsMPResponse : Type := {
  mp_skills : list SkillsMPSkill;
  mp_pagination : option Pagination
}.

(** The body of a response, by the shape it parses to. *)
Inductive body : Type :=
| Text (t : text)
| IndexJson (skills : list IndexEntry)
| ListingJson (items : list DirEntry)
| SkillsMPJson (r : SkillsMPResponse)
| Junk.

Record response : Type := {
  ok : bool;
  status : Z;
  payload : body
}.

(** What is asked of the network: a URL, or the SkillsMP endpoint with
    its query parameters kept apart. *)
Inductive request : Type :=
| Get (url : string)
| GetSkillsMP (page limit : Z) (sortBy : string) (search : option string).

(** What a sparse checkout of one skill's subtree leaves in the staging
    directory. *)
Inductive checkout : Type :=
| GitFails                              (* a git command exits non-zero *)
| SourceMissing                         (* the skill's path is not in the checkout *)
| Tree (files : list (path * text)).    (* the files below the skill's path *)

(** The persisted manifest: the file at [CONFIG_FILE]. *)
Inductive manifest_file : Type :=
| Absent
| Unparseable                           (* [JSON.parse] throws on it *)
| Parsed (c : MarketplaceConfig).

Inductive error : Type :=
| Error (message : string)              (* [new Error(message)] *)
| SystemError (code : string).          (* thrown by fs, fetch or a parser *)

Definition error_string (e : error) : string :=
  match e with
  | Error m => "Error: " ^^ m
  | SystemError c => c
  end.

Record world : Type := {
  fs : gmap path node;                  (* the file tree, the manifest file and staging apart *)
  manifest : manifest_file;
  skillsCache : gmap string (list MarketplaceSkill * Z);   (* marketplace.ts *)
  cache : gmap string (list MarketplaceSkill * Z);         (* skillsmp.ts *)
  now : Z;                              (* [Date.now()] *)
  net : request -> option response;     (* [None]: the fetch rejects *)
  git : string -> string -> string -> checkout;  (* repo URL, branch, path *)
  home : path;                          (* [process.env.HOME] *)
  cwd : path;                           (* the working directory *)
  fetches : nat;                        (* calls to [fetch] so far *)
  console : list string;                (* lines of [console.warn] *)
  globOrder : path -> nat               (* the order glob walks the tree in: lower first *)
}.

Definition set_fs (f : gmap path node) (w : world) : world :=
  {| fs := f; manifest := manifest w; skillsCache := skillsCache w; cache := cache w;
     now := now w; net := net w; git := git w; home := home w; cwd := cwd w;
     fetches := fetches w; console := console w; globOrder := globOrder w |}.

Definition set_manifest (m : manifest_file) (w : world) : world :=
  {| fs := fs w; manifest := m; skillsCache := skillsCache w; cache := cache w;
     now := now w; net := net w; git := git w; home := home w; cwd := cwd w;
     fetches := fetches w; console := console w; globOrder := globOrder w |}.

Definition set_skillsCache (c : gmap string (list MarketplaceSkill * Z)) (w : world) : world :=
  {| fs := fs w; manifest := manifest w; skillsCache := c; cache := cache w;
     now := now w; net := net w; git := git w; home := home w; cwd := cwd w;
     fetches := fetches w; console := console w; globOrder := globOrder w |}.

Definition set_cache (c : gmap string (list MarketplaceSkill * Z)) (w : world) : world :=
  {| fs := fs w; manifest := manifest w; skillsCache := skillsCache w; cache := c;
     now := now w; net := net w; git := git w; home := home w; cwd := cwd w;
     fetches := fetches w; console := console w; globOrder := globOrder w |}.

Definition set_fetches (n : nat) (w : world) : world :=
  {| fs := fs w; manifest := manifest w; skillsCache := skillsCache w; cache := cache w;
     now := now w; net := net w; git := git w; home := home w; cwd := cwd w;
     fetches := n; console := console w; globOrder := globOrder w |}.

Definition set_console (l : list string) (w : world) : world :=
  {| fs := fs w; manifest := manifest w; skillsCache := skillsCache w; cache := cache w;
     now := now w; net := net w; git := git w; home := home w; cwd := cwd w;
     fetches := fetches w; console := l; globOrder := globOrder w |}.

(** The environment between two calls: the clock moves and the remote
    side may answer differently. *)
Definition later (t : Z) (n : request -> option response) (w : world) : world :=
  {| fs := fs w; manifest := manifest w; skillsCache := skillsCache w; cache := cache w;
     now := t; net := n; git := git w; home := home w; cwd := cwd w;
     fetches := fetches w; console := console w; globOrder := globOrder w |}.

(** ** Promises: state and exceptions *)

Inductive outcome (A : Type) : Type :=
| Ok (a : A)
| Throw (e : error).
Arguments Ok {A} a.
Arguments Throw {A} e.

Definition M (A : Type) : Type := world -> outcome A * world.

Definition ret {A} (a : A) : M A := fun w => (Ok a, w).

Definition throw {A} (e : error) : M A := fun w => (Throw e, w).

Definition bind {A B} (m : M A) (k : A -> M B) : M B :=
  fun w =>
    match m w with
    | (Ok a, w') => k a w'
    | (Throw e, w') => (Throw e, w')
    end.

(** [try { m } catch (e) { h e }] *)
Definition try_catch {A} (m : M A) (h : error -> M A) : M A :=
  fun w =>
    match m w with
    | (Ok a, w') => (Ok a, w')
    | (Throw e, w') => h e w'
    end.

Definition gets {A} (f : world -> A) : M A := fun w => (Ok (f w), w).

Definition modify (f : world -> world) : M unit := fun w => (Ok tt, f w).

Notation "'let!' x ':=' m 'in' k" := (bind m (fun x => k))
  (at level 10, x pattern, m at level 100, k at level 200).
Notation "m ';;' k" := (bind m (fun _ => k))
  (at level 100, k at level 200, right associativity).

(** [for (const x of xs) { body x }] *)
Fixpoint for_each {A} (xs : list A) (body : A -> M unit) : M unit :=
  match xs with
  | [] => ret tt
  | x :: rest => body x ;; for_each rest body
  end.

(** [Promise.all(xs.map(f))] for an [f] that never rejects: the results
    in the order of [xs]. *)
Fixpoint all_of {A B} (f : A -> M B) (xs : list A) : M (list B) :=
  match xs with
  | [] => ret []
  | x :: rest =>
      let! y := f x in
      let! ys := all_of f rest in
      ret (y :: ys)
  end.

Definition date_now : M Z := gets now.

Definition console_warn (line : string) : M unit :=
  modify (fun w => set_console (console w ++ [line]) w).

(** [fetch(request)]; every call is counted. *)
Definition fetch (rq : request) : M response :=
  fun w =>
    let w' := set_fetches (S (fetches w)) w in
    match net w rq with
    | Some r => (Ok r, w')
    | None => (Throw (SystemError "fetch failed"), w')
    end.

(** [s || d] for an optional string. *)
Definition or_else (s : option string) (d : string) : string :=
  match s with
  | Some v => if String.eqb v "" then d else v
  | None => d
  end.

(** [!!s] *)
Definition truthy (s : option string) : bool := negb (falsy s).

(** ** Paths: path.join *)

(** A segment that names a file or a directory: not empty, not [.],
    not [..]. *)
Definition ordinary (seg : string) : bool :=
  negb (String.eqb seg "" || String.eqb seg "." || String.eqb seg "..").

(** A path with none but such segments. *)
Definition canonical (p : path) : bool := forallb ordinary p.

(** A name of one segment, as [path.join] takes it one level down. *)
Definition single_segment (name : string) : bool :=
  ordinary name && negb (Str.has_char (Ascii.eqb "/") name).

(** [path.normalize] of an absolute path: empty segments and [.] drop
    out, [..] takes the segment before it along (at the root, nothing). *)
Fixpoint normalize_onto (done rest : path) : path :=
  match rest with
  | [] => done
  | seg :: rest' =>
      if String.eqb seg "" || String.eqb seg "." then normalize_onto done rest'
      else if String.eqb seg ".." then normalize_onto (removelast done) rest'
      else normalize_onto (done ++ [seg]) rest'
  end.

Definition normalize (p : path) : path := normalize_onto [] p.

(** [path.join(p, name)]: [name] is split at its slashes and the whole
    is normalized, so a [name] may lead out of [p]. *)
Definition join (p : path) (name : string) : path :=
  normalize (p ++ Js.split "/" name).

Definition CONFIG_DIR (w : world) : path := home w ++ [".antigravity"].
Definition CONFIG_FILE (w : world) : path := CONFIG_DIR w ++ ["marketplace.json"].

(** [p] neither holds the manifest nor lies below it. *)
Definition clear_of_manifest (w : world) (p : path) : Prop :=
  ~ p `prefix_of` CONFIG_FILE w /\ ~ CONFIG_FILE w `prefix_of` p.

(** ** The file tree: fs/promises as the code calls it

    The tree holds every file but the manifest, which [manifest] keeps.
    Of the operations below, [rm] is the one that reaches it: removing
    the manifest's directory, or one above it, removes the manifest. *)

(** The root is a directory that is always there. *)
Definition node_at (f : gmap path node) (p : path) : option node :=
  match p with
  | [] => Some Dir
  | _ => f !! p
  end.

Definition existsSync (p : path) : M bool :=
  gets (fun w => match node_at (fs w) p with Some _ => true | None => false end).

(** [mkdir(p, { recursive: true })]: the directories named on the way
    are made one after the other, from the root down; [.] stays where it
    is and [..] steps back up.  It stops at the first one that is a
    file. *)
Fixpoint mkdirs (done rest : path) (f : gmap path node) : bool * gmap path node :=
  match rest with
  | [] => (true, f)
  | seg :: rest' =>
      if String.eqb seg "" || String.eqb seg "." then mkdirs done rest' f
      else if String.eqb seg ".." then mkdirs (removelast done) rest' f
      else
        let q := done ++ [seg] in
        match f !! q with
        | Some (File _) => (false, f)
        | _ => mkdirs q rest' (<[q := Dir]> f)
        end
  end.

Definition mkdir (p : path) : M unit :=
  fun w =>
    match mkdirs [] p (fs w) with
    | (true, f) => (Ok tt, set_fs f w)
    | (false, f) => (Throw (SystemError "EEXIST"), set_fs f w)
    end.

(** [rm(p, { recursive: true, force: true })]: [p] and all below it go;
    a missing [p] is no error. *)
Definition rm_rf (p : path) (f : gmap path node) : gmap path node :=
  filter (fun kv => ¬ p `prefix_of` kv.1) f.

Definition rm (p : path) : M unit :=
  modify (fun w =>
    let w' := set_fs (rm_rf p (fs w)) w in
    if bool_decide (p `prefix_of` CONFIG_FILE w) then set_manifest Absent w' else w').

Definition writeFile (p : path) (t : text) : M unit :=
  fun w =>
    match node_at (fs w) p with
    | Some Dir => (Throw (SystemError "EISDIR"), w)
    | _ =>
        match node_at (fs w) (removelast p) with
        | Some Dir => (Ok tt, set_fs (<[p := File t]> (fs w)) w)
        | _ => (Throw (SystemError "ENOENT"), w)
        end
    end.

Definition readFile (p : path) : M text :=
  fun w =>
    match node_at (fs w) p with
    | Some (File t) => (Ok t, w)
    | Some Dir => (Throw (SystemError "EISDIR"), w)
    | None => (Throw (SystemError "ENOENT"), w)
    end.

(** [cp(staged, dest, { recursive: true })]: the staged files are
    written below [dest], each after its directory.  (A staged file
    that lands on the manifest is beyond this model: the statements on
    installing keep [dest] clear of the manifest where it matters.) *)
Definition cp (files : list (path * text)) (dest : path) : M unit :=
  for_each files
    (fun '(rel, t) => mkdir (dest ++ removelast rel) ;; writeFile (dest ++ rel) t).

Definition path_string (p : path) : string := "/" ^^ Str.join "/" p.

(** What of [p] lies below [base], when it does. *)
Fixpoint below (base p : path) : option path :=
  match base, p with
  | [], _ => Some p
  | b :: base', seg :: p' => if String.eqb b seg then below base' p' else None
  | _ :: _, [] => None
  end.

(** A name [**] passes over: it starts with a dot. *)
Definition hidden (seg : string) : bool := String.prefix "." seg.

(** Does [base/**/SKILL.md] match the path of [kv], a file or a
    directory: it is called SKILL.md, no directory between [base] and it
    is hidden, and it lies at most [maxDepth] levels below the working
    directory (that is where glob counts from, not [base]). *)
Definition is_skill_md (base cwd : path) (maxDepth : Z) (kv : path * node) : bool :=
  match below base kv.1 with
  | Some rest =>
      bool_decide (last rest = Some "SKILL.md")
      && forallb (fun seg => negb (hidden seg)) (removelast rest)
      && (Z.of_nat (length kv.1) <=? maxDepth + Z.of_nat (length cwd))
  | None => false
  end.

(** The walk comes to [p] no later than to [q]. *)
Definition walks_before (order : path -> nat) (p q : path) : Prop :=
  (order p <= order q)%nat.

#[global] Instance walks_before_dec (order : path -> nat) : RelDecision (walks_before order) :=
  fun p q => decide (order p <= order q)%nat.

(** [glob(join(base, '**/SKILL.md'), { absolute: true, maxDepth })]
    below an existing directory [base], on a file system that tells
    letter case apart.  The matches come in the order of the walk, which
    the world fixes. *)
Definition glob_skill_md (w : world) (base : path) (maxDepth : Z) : list path :=
  match node_at (fs w) base with
  | Some Dir =>
      merge_sort (walks_before (globOrder w))
        (List.filter (is_skill_md base (cwd w) maxDepth) (map_to_list (fs w))).*1
  | _ => []
  end.

(** [l.findIndex(p)]; [None] is [-1]. *)
Fixpoint findIndex {A} (p : A -> bool) (l : list A) : option nat :=
  match l with
  | [] => None
  | x :: rest => if p x then Some O else S <$> findIndex p rest
  end.

(** ** loader.ts *)

Record SkillRef : Type := {
  ref_name : string;
  ref_description : string;
  ref_path : path
}.

Record SkillDiscoveryConfig : Type := {
  searchPaths : option (list path);
  recursive : option bool;
  maxDepth : option Z
}.

Definition DEFAULT_SKILL_PATHS (w : world) : list path :=
  [ home w ++ [".antigravity"; "skills"];
    cwd w ++ [".antigravity"; "skills"];
    cwd w ++ ["skills"] ].

(** Level 1 loading: the metadata of one SKILL.md, [None] ([null]) when
    the file is not there. *)
Definition loadSkillMetadata (skillMdPath : path) : M (option SkillMetadata) :=
  let! there := existsSync skillMdPath in
  if negb there then ret None
  else
    let! content := readFile skillMdPath in
    match matter content with
    | None => throw (SystemError "YAMLException")
    | Some data =>
        if falsy (name data) || falsy (description data)
        then throw (Error "Invalid skill: missing required fields (name, description)")
        else ret (Some data)
    end.

(** What [loadSkillMetadata] makes of a path in a given tree. *)
Definition load_outcome (f : gmap path node) (skillMdPath : path)
  : outcome (option SkillMetadata) :=
  match node_at f skillMdPath with
  | None => Ok None
  | Some Dir => Throw (SystemError "EISDIR")
  | Some (File content) =>
      match matter content with
      | None => Throw (SystemError "YAMLException")
      | Some data =>
          if falsy (name data) || falsy (description data)
          then Throw (Error "Invalid skill: missing required fields (name, description)")
          else Ok (Some data)
      end
  end.



Definition skill_ref (md : SkillMetadata) (skillMdPath : path) : SkillRef :=
  {| ref_name := default "" (name md);
     ref_description := default "" (description md);
     ref_path := removelast skillMdPath |}.

(** The inner loop of [discoverSkills]: one glob result after another. *)
Fixpoint discover_files (skillFiles : list path) (skills : list SkillRef)
  : M (list SkillRef) :=
  match skillFiles with
  | [] => ret skills
  | skillMdPath :: rest =>
      let! skills' :=
        try_catch
          (let! metadata := loadSkillMetadata skillMdPath in
           match metadata with
           | Some md => ret (skills ++ [skill_ref md skillMdPath])
           | None => ret skills
           end)
          (fun _ =>
             console_warn ("Warning: Could not load skill at " ^^ path_string skillMdPath) ;;
             ret skills) in
      discover_files rest skills'
  end.

(** The outer loop: one search path after another.  [join] normalizes
    the search path on the way into the pattern. *)
Fixpoint discover_roots (depth : Z) (roots : list path) (skills : list SkillRef)
  : M (list SkillRef) :=
  match roots with
  | [] => ret skills
  | basePath :: rest =>
      let! skills' :=
        try_catch
          (let! skillFiles := gets (fun w => glob_skill_md w (normalize basePath) depth) in
           discover_files skillFiles skills)
          (fun _ => ret skills) in
      discover_roots depth rest skills'
  end.

Definition discoverSkills (config : SkillDiscoveryConfig) : M (list SkillRef) :=
  let! defaults := gets DEFAULT_SKILL_PATHS in
  let roots := default defaults (searchPaths config) in
  let depth := match maxDepth config with
               | Some d => if d =? 0 then 3 else d
               | None => 3
               end in
  discover_roots depth roots [].

(** ** marketplace.ts: the manifest store *)

Definition DEFAULT_INSTALL_DIR (w : world) : path := CONFIG_DIR w ++ ["skills"].

Definition default_config (w : world) : MarketplaceConfig :=
  {| Config.sources := DEFAULT_MARKETPLACES;
     Config.installed := [];
     Config.installDir := DEFAULT_INSTALL_DIR w |}.

Definition deprecatedIds : list string := ["agentskills-examples"].

Definition has_id (i : string) (s : MarketplaceSource) : bool :=
  String.eqb (Source.id s) i.

(** [if (!sources.find(s => s.id === d.id)) sources.push(d)] *)
Definition ensure_default (sources : list MarketplaceSource) (d : MarketplaceSource)
  : list MarketplaceSource :=
  match List.find (has_id (Source.id d)) sources with
  | Some _ => sources
  | None => sources ++ [d]
  end.

Definition includes_id (ids : list string) (i : string) : bool :=
  existsb (String.eqb i) ids.

Definition heal (c : MarketplaceConfig) : MarketplaceConfig :=
  {| Config.sources :=
       List.filter (fun s => negb (includes_id deprecatedIds (Source.id s)))
         (fold_left ensure_default DEFAULT_MARKETPLACES (Config.sources c));
     Config.installed := Config.installed c;
     Config.installDir := Config.installDir c |}.

(** What [loadConfig] makes of the file as it stands. *)
Definition current_config (w : world) : MarketplaceConfig :=
  match manifest w with
  | Absent => default_config w
  | Unparseable => default_config w
  | Parsed c => heal c
  end.

Definition loadConfig : M MarketplaceConfig := gets current_config.

(** [saveConfig]: the whole document replaces the file.  The directory
    of the manifest is taken to be there and writable, as it is after
    any earlier save: the [mkdir] of [CONFIG_DIR] that goes before the
    write then changes nothing, and the write goes through. *)
Definition saveConfig (config : MarketplaceConfig) : M unit :=
  modify (set_manifest (Parsed config)).

Definition with_sources (l : list MarketplaceSource) (c : MarketplaceConfig) : MarketplaceConfig :=
  {| Config.sources := l; Config.installed := Config.installed c;
     Config.installDir := Config.installDir c |}.

Definition with_installed (l : list InstalledSkill) (c : MarketplaceConfig) : MarketplaceConfig :=
  {| Config.sources := Config.sources c; Config.installed := l;
     Config.installDir := Config.installDir c |}.


Definition removeMarketplace (id : string) : M unit :=
  let! config := loadConfig in
  match findIndex (has_id id) (Config.sources config) with
  | None => throw (Error ("Marketplace " ^^ id ^^ " not found"))
  | Some index =>
      match Config.sources config !! index with
      | Some s =>
          if default false (Source.verified s)
          then throw (Error ("Cannot remove verified marketplace: " ^^ id))
          else saveConfig (with_sources (delete index (Config.sources config)) config)
      | None => throw (SystemError "TypeError")
      end
  end.

(** ** marketplace.ts: the resolver and its cache *)

(** 5 minutes, in milliseconds. *)
Definition CACHE_TTL : Z := 5 * 60 * 1000.

Definition cache_key (source : MarketplaceSource) : string :=
  Source.owner source ^^ "/" ^^ Source.repo source.

Definition skillsCache_set (key : string) (skills : list MarketplaceSkill) : M unit :=
  let! t := date_now in
  modify (fun w => set_skillsCache (<[key := (skills, t)]> (skillsCache w)) w).

Definition index_skill (source : MarketplaceSource) (s : IndexEntry) : MarketplaceSkill :=
  {| Remote.name := ix_name s;
     Remote.description := or_else (ix_description s) "";
     Remote.path := ix_path s;
     Remote.source := source;
     Remote.license := ix_license s;
     Remote.author := ix_author s;
     Remote.version := ix_version s;
     Remote.tags := None;
     Remote.extra := None |}.

(** [await response.json()] read as the index. *)
Definition json_index (r : response) : M (list IndexEntry) :=
  match payload r with
  | IndexJson skills => ret skills
  | _ => throw (SystemError "SyntaxError")
  end.

(** [await response.json()] read as a directory listing. *)
Definition json_listing (r : response) : M (list DirEntry) :=
  match payload r with
  | ListingJson items => ret items
  | _ => throw (SystemError "SyntaxError")
  end.

(** [await response.text()] *)
Definition body_text (b : body) : text :=
  match b with
  | Text t => t
  | _ => {| matter := Some {| name := None; description := None; license := None;
                              compatibility := None; metadata := None;
                              allowedTools := None |};
            frontmatter := None |}
  end.

Definition raw_url (source : MarketplaceSource) (branch rest : string) : string :=
  "https://raw.githubusercontent.com/" ^^ Source.owner source ^^ "/" ^^
  Source.repo source ^^ "/" ^^ branch ^^ "/" ^^ rest.

(** One directory of the fallback listing: its SKILL.md, fetched and
    parsed; [None] ([null]) when anything goes wrong. *)
Definition fetch_dir (source : MarketplaceSource) (branch : string) (dir : DirEntry)
  : M (option MarketplaceSkill) :=
  try_catch
    (let! skillResponse := fetch (Get (raw_url source branch (de_path dir ^^ "/SKILL.md"))) in
     if ok skillResponse then
       match frontmatter (body_text (payload skillResponse)) with
       | Some metadata =>
           ret (Some {| Remote.name := or_else (fm_name metadata) (de_name dir);
                        Remote.description := or_else (fm_description metadata) "";
                        Remote.path := de_path dir;
                        Remote.source := source;
                        Remote.license := fm_license metadata;
                        Remote.author := fm_author metadata;
                        Remote.version := fm_version metadata;
                        Remote.tags := None;
                        Remote.extra := None |})
       | None => ret None
       end
     else ret None)
    (fun _ => ret None).

Definition BATCH_SIZE : nat := 10.

(** [for (let i = 0; i < skillDirs.length; i += BATCH_SIZE)]: the
    directories are taken ten at a time; [fuel] bounds the number of
    batches and [length skillDirs] is enough. *)
Fixpoint fetch_batches (fuel : nat) (source : MarketplaceSource) (branch : string)
    (skillDirs : list DirEntry) (skills : list MarketplaceSkill)
  : M (list MarketplaceSkill) :=
  match fuel, skillDirs with
  | _, [] => ret skills
  | O, _ => ret skills
  | S fuel', _ =>
      let batch := take BATCH_SIZE skillDirs in
      let! results := all_of (fetch_dir source branch) batch in
      fetch_batches fuel' source branch (drop BATCH_SIZE skillDirs)
        (skills ++ omap id results)
  end.

(** The first strategy: the index file, one request for all skills.
    [None] when there is no usable index. *)
Definition fetch_index (source : MarketplaceSource) : M (option (list MarketplaceSkill)) :=
  let cacheKey := cache_key source in
  let branch := or_else (Source.branch source) "main" in
  let skillsPath := or_else (Source.skillsPath source) "skills" in
  let indexUrl := raw_url source branch (skillsPath ^^ "/skills-index.json") in
  try_catch
    (let! indexResponse := fetch (Get indexUrl) in
     if ok indexResponse then
       let! index := json_index indexResponse in
       let skills := map (index_skill source) index in
       skillsCache_set cacheKey skills ;;
       ret (Some skills)
     else ret None)
    (fun _ => ret None).

(** The fallback: list the skills directory, fetch each SKILL.md. *)
Definition fetch_listing (source : MarketplaceSource) : M (list MarketplaceSkill) :=
  let cacheKey := cache_key source in
  let branch := or_else (Source.branch source) "main" in
  let skillsPath := or_else (Source.skillsPath source) "skills" in
  let apiUrl :=
    "https://api.github.com/repos/" ^^ Source.owner source ^^ "/" ^^
    Source.repo source ^^ "/contents/" ^^ skillsPath ^^ "?ref=" ^^ branch in
  try_catch
    (let! response := fetch (Get apiUrl) in
     if negb (ok response)
     then throw (Error ("GitHub API error: " ^^ pretty (status response)))
     else
       let! contents := json_listing response in
       let skillDirs := List.filter (fun item => String.eqb (de_type item) "dir") contents in
       let! skills := fetch_batches (length skillDirs) source branch skillDirs [] in
       skillsCache_set cacheKey skills ;;
       ret skills)
    (fun e =>
       throw (Error ("Failed to fetch from " ^^ Source.owner source ^^ "/" ^^
                     Source.repo source ^^ ": " ^^ error_string e))).

(** The fetch behind the cache: the index first, the listing second. *)
Definition fetch_fresh (source : MarketplaceSource) : M (list MarketplaceSkill) :=
  let! indexed := fetch_index source in
  match indexed with
  | Some skills => ret skills
  | None => fetch_listing source
  end.

Definition fetchSkillsFromSource (source : MarketplaceSource) : M (list MarketplaceSkill) :=
  let! cached := gets (fun w => skillsCache w !! cache_key source) in
  let! t := date_now in
  match cached with
  | Some (skills, timestamp) =>
      if t - timestamp <? CACHE_TTL then ret skills else fetch_fresh source
  | None => fetch_fresh source
  end.

(** The loop of [listMarketplaceSkills]: a source that cannot be
    fetched is warned about and passed over. *)
Fixpoint list_sources (sources : list MarketplaceSource) (skills : list MarketplaceSkill)
  : M (list MarketplaceSkill) :=
  match sources with
  | [] => ret skills
  | source :: rest =>
      let! skills' :=
        try_catch
          (let! sourceSkills := fetchSkillsFromSource source in
           ret (skills ++ sourceSkills))
          (fun e =>
             console_warn ("Warning: Could not fetch from " ^^ Source.id source ^^ ": " ^^
                           error_string e) ;;
             ret skills) in
      list_sources rest skills'
  end.

Definition listMarketplaceSkills (sourceId : option string) : M (list MarketplaceSkill) :=
  let! config := loadConfig in
  let sources :=
    if truthy sourceId
    then List.filter (has_id (default "" sourceId)) (Config.sources config)
    else Config.sources config in
  list_sources sources [].

(** ** marketplace.ts: install, uninstall, update check *)

Definition downloadSkill (skill : MarketplaceSkill) (destPath : path) : M unit :=
  let source := Remote.source skill in
  let branch := or_else (Source.branch source) "main" in
  let repoUrl :=
    "https://github.com/" ^^ Source.owner source ^^ "/" ^^ Source.repo source ^^ ".git" in
  let! staged := gets (fun w => git w repoUrl branch (Remote.path skill)) in
  match staged with
  | GitFails => throw (SystemError "git")
  | SourceMissing => mkdir destPath ;; throw (SystemError "ENOENT")
  | Tree files => mkdir destPath ;; cp files destPath
  end.

Definition installed_named (n : string) (i : InstalledSkill) : bool :=
  String.eqb (Installed.name i) n.

Definition remote_named (n : string) (s : MarketplaceSkill) : bool :=
  String.eqb (Remote.name s) n.

Definition installSkill (skillName : string) (sourceId : option string) : M InstalledSkill :=
  let! config := loadConfig in
  let! allSkills := listMarketplaceSkills sourceId in
  match List.find (remote_named skillName) allSkills with
  | None => throw (Error ("Skill not found: " ^^ skillName))
  | Some skill =>
      match List.find (installed_named skillName) (Config.installed config) with
      | Some existing =>
          throw (Error ("Skill " ^^ skillName ^^ " is already installed at " ^^
                        path_string (Installed.localPath existing)))
      | None =>
          mkdir (Config.installDir config) ;;
          let installPath := join (Config.installDir config) skillName in
          downloadSkill skill installPath ;;
          let! metadata := loadSkillMetadata (join installPath "SKILL.md") in
          match metadata with
          | Some md =>
              let validation := validateMetadata md in
              if negb (valid validation)
              then
                rm installPath ;;
                throw (Error ("Installed skill is invalid: " ^^
                              Str.join ", " (map message (errors validation))))
              else ret tt
          | None => ret tt
          end ;;
          let! t := date_now in
          let installed :=
            {| Installed.name := skillName;
               Installed.localPath := installPath;
               Installed.source := Some (Remote.source skill);
               Installed.remotePath := Some (Remote.path skill);
               Installed.version := Remote.version skill;
               Installed.installedAt := t;
               Installed.lastChecked := None |} in
          saveConfig (with_installed (Config.installed config ++ [installed]) config) ;;
          ret installed
      end
  end.

Definition uninstallSkill (skillName : string) : M unit :=
  let! config := loadConfig in
  match findIndex (installed_named skillName) (Config.installed config) with
  | None => throw (Error ("Skill " ^^ skillName ^^ " is not installed via marketplace"))
  | Some index =>
      match Config.installed config !! index with
      | Some installed =>
          let! there := existsSync (Installed.localPath installed) in
          (if there then rm (Installed.localPath installed) else ret tt) ;;
          saveConfig (with_installed (delete index (Config.installed config)) config)
      | None => throw (SystemError "TypeError")
      end
  end.

Record UpdateInfo : Type := {
  skill : InstalledSkill;
  currentVersion : option string;
  latestVersion : option string;
  hasUpdate : bool
}.

Definition version_differs (a b : option string) : bool :=
  negb (bool_decide (a = b)).

Definition update_info (installed : InstalledSkill) (remote : MarketplaceSkill) : UpdateInfo :=
  {| skill := installed;
     currentVersion := Installed.version installed;
     latestVersion := Remote.version remote;
     hasUpdate := version_differs (Remote.version remote) (Installed.version installed)
                  && truthy (Remote.version remote) |}.

(** The loop of [checkUpdates]. *)
Fixpoint check_installed (installed : list InstalledSkill) (updates : list UpdateInfo)
  : M (list UpdateInfo) :=
  match installed with
  | [] => ret updates
  | i :: rest =>
      match Installed.source i with
      | None => check_installed rest updates
      | Some source =>
          let! updates' :=
            try_catch
              (let! skills := fetchSkillsFromSource source in
               match List.find (remote_named (Installed.name i)) skills with
               | Some remote => ret (updates ++ [update_info i remote])
               | None => ret updates
               end)
              (fun _ => ret updates) in
          check_installed rest updates'
      end
  end.

Definition checkUpdates : M (list UpdateInfo) :=
  let! config := loadConfig in
  check_installed (Config.installed config) [].

(** ** skillsmp.ts *)

Definition SKILLSMP_SOURCE : MarketplaceSource :=
  {| Source.id := "skillsmp";
     Source.name := "SkillsMP Marketplace";
     Source.owner := "skillsmp";
     Source.repo := "skillsmp.com";
     Source.branch := None;
     Source.skillsPath := None;
     Source.description := Some "Browse 40,000+ agent skills from the community";
     Source.verified := Some true |}.

Module Url.

(** [s] without the prefix [p], when it starts with it. *)
Fixpoint strip_prefix (p s : string) : option string :=
  match p, s with
  | EmptyString, _ => Some s
  | String a p', String b s' => if Ascii.eqb a b then strip_prefix p' s' else None
  | String _ _, EmptyString => None
  end.

(** The longest run of characters satisfying [keep] at the head of [s],
    and what follows it. *)
Fixpoint span (keep : ascii -> bool) (s : string) : string * string :=
  match s with
  | EmptyString => ("", "")
  | String c s' =>
      if keep c then let (a, b) := span keep s' in (String c a, b) else ("", s)
  end.

Definition not_slash (c : ascii) : bool := negb (Ascii.eqb c "/").

(** [.] of a pattern: any character but a line terminator. *)
Definition not_newline (c : ascii) : bool :=
  negb (Ascii.eqb c "010") && negb (Ascii.eqb c "013").

(** [[^/]+] at the head of [s]. *)
Definition segment (s : string) : option (string * string) :=
  let (seg, rest) := span not_slash s in
  if String.eqb seg "" then None else Some (seg, rest).

(** The leftmost place of [s] where [at_head] matches. *)
Fixpoint search {A} (at_head : string -> option A) (s : string) : option A :=
  match at_head s with
  | Some r => Some r
  | None =>
      match s with
      | EmptyString => None
      | String _ s' => search at_head s'
      end
  end.

(** [/github\.com\/([^/]+)/] *)
Definition owner_here (s : string) : option string :=
  rest ← strip_prefix "github.com/" s;
  fst <$> segment rest.

(** [/github\.com\/[^/]+\/([^/]+)/] *)
Definition repo_here (s : string) : option string :=
  rest ← strip_prefix "github.com/" s;
  '(_, rest) ← segment rest;
  rest ← strip_prefix "/" rest;
  fst <$> segment rest.

(** [/github\.com\/[^/]+\/[^/]+\/tree\/([^/]+)/], with what follows the
    branch. *)
Definition branch_here (s : string) : option (string * string) :=
  rest ← strip_prefix "github.com/" s;
  '(_, rest) ← segment rest;
  rest ← strip_prefix "/" rest;
  '(_, rest) ← segment rest;
  rest ← strip_prefix "/tree/" rest;
  segment rest.

(** [/github\.com\/[^/]+\/[^/]+\/tree\/[^/]+\/(.+)/] *)
Definition path_here (s : string) : option string :=
  '(_, rest) ← branch_here s;
  rest ← strip_prefix "/" rest;
  let (p, _) := span not_newline rest in
  if String.eqb p "" then None else Some p.

Definition extractGitHubPath (url : string) : string := default "" (search path_here url).
Definition extractRepoName (url : string) : string := default "" (search repo_here url).
Definition extractOwner (url : string) : string := default "" (search owner_here url).
Definition extractBranch (url : string) : string :=
  default "main" (fst <$> search branch_here url).

(** [s.split('/')] *)
Fixpoint split_slash (s : string) : list string :=
  match s with
  | EmptyString => [""]
  | String c s' =>
      let r := split_slash s' in
      if Ascii.eqb c "/" then "" :: r
      else match r with
           | [] => [String c ""]
           | h :: t => String c h :: t
           end
  end.

End Url.

Record SkillsMPOptions : Type := {
  opt_search : option string;
  opt_page : option Z;
  opt_limit : option Z;
  opt_sortBy : option string
}.

Record SkillsMPPage : Type := {
  skills : list MarketplaceSkill;
  total : Z;
  hasNext : bool
}.

Definition mp_skill (s : SkillsMPSkill) : MarketplaceSkill :=
  {| Remote.name := mp_name s;
     Remote.description := mp_description s;
     Remote.path := Url.extractGitHubPath (mp_githubUrl s);
     Remote.source :=
       {| Source.id := Source.id SKILLSMP_SOURCE;
          Source.name := Source.name SKILLSMP_SOURCE;
          Source.owner := mp_author s;
          Source.repo := Url.extractRepoName (mp_githubUrl s);
          Source.branch := Source.branch SKILLSMP_SOURCE;
          Source.skillsPath := Source.skillsPath SKILLSMP_SOURCE;
          Source.description := Source.description SKILLSMP_SOURCE;
          Source.verified := Source.verified SKILLSMP_SOURCE |};
     Remote.license := None;
     Remote.author := Some (mp_author s);
     Remote.version := None;
     Remote.tags := None;
     Remote.extra := Some {| skillId := mp_id s; stars := mp_stars s;
                             githubUrl := mp_githubUrl s |} |}.

Definition mp_cache_key (search : string) (page limit : Z) (sortBy : string) : string :=
  "skillsmp:" ^^ search ^^ ":" ^^ pretty page ^^ ":" ^^ pretty limit ^^ ":" ^^ sortBy.

Definition fetchSkillsMP (options : SkillsMPOptions) : M SkillsMPPage :=
  let search := default "" (opt_search options) in
  let page := default 1 (opt_page options) in
  let limit := default 50 (opt_limit options) in
  let sortBy := default "stars" (opt_sortBy options) in
  let cacheKey := mp_cache_key search page limit sortBy in
  let! cached := gets (fun w => cache w !! cacheKey) in
  let! t := date_now in
  let refetch : M SkillsMPPage :=
    let! response :=
      fetch (GetSkillsMP page limit sortBy
               (if String.eqb search "" then None else Some search)) in
    if negb (ok response)
    then throw (Error ("SkillsMP API error: " ^^ pretty (status response)))
    else
      let store (skills : list MarketplaceSkill) : M unit :=
        modify (fun w => set_cache (<[cacheKey := (skills, now w)]> (cache w)) w) in
      match payload response with
      | SkillsMPJson data =>
          let skills := map mp_skill (mp_skills data) in
          store skills ;;
          match mp_pagination data with
          | Some pagination =>
              ret {| skills := skills;
                     total := pg_total pagination;
                     hasNext := pg_hasNext pagination |}
          | None => throw (SystemError "TypeError")
          end
      | IndexJson [] => store [] ;; throw (SystemError "TypeError")
      | IndexJson (_ :: _) | ListingJson _ => throw (SystemError "TypeError")
      | Text _ | Junk => throw (SystemError "SyntaxError")
      end in
  match cached with
  | Some (data, timestamp) =>
      if t - timestamp <? CACHE_TTL
      then ret {| skills := data; total := 0; hasNext := false |}
      else refetch
  | None => refetch
  end.

Definition installFromGitHubUrl (githubUrl : string) (installDir : path)
  : M (string * path) :=
  let owner := Url.extractOwner githubUrl in
  let repo := Url.extractRepoName githubUrl in
  let branch := Url.extractBranch githubUrl in
  let skillPath := Url.extractGitHubPath githubUrl in
  if String.eqb owner "" || String.eqb repo "" || String.eqb skillPath ""
  then throw (Error ("Invalid GitHub URL: " ^^ githubUrl))
  else
    let skillName := or_else (last (Url.split_slash skillPath)) "skill" in
    let destPath := installDir ++ [skillName] in
    let skillMdUrl :=
      "https://raw.githubusercontent.com/" ^^ owner ^^ "/" ^^ repo ^^ "/" ^^ branch ^^ "/" ^^
      skillPath ^^ "/SKILL.md" in
    let! response := fetch (Get skillMdUrl) in
    if negb (ok response)
    then throw (Error ("Could not fetch SKILL.md from " ^^ skillMdUrl))
    else
      let skillContent := body_text (payload response) in
      mkdir destPath ;;
      writeFile (normalize (destPath ++ ["SKILL.md"])) skillContent ;;
      ret (skillName, destPath).

(** ** loadConfig on whatever JSON the file holds

    [JSON.parse(content) as MarketplaceConfig] checks nothing: the value
    may have any shape.  [Raw.loadConfig] follows the same statements on
    an untyped value; reading a property of [null], or calling [find] or
    [filter] on what is not an array, throws a [TypeError], which the
    [catch] turns into the default config. *)

Module Raw.

#[local] Unset Elimination Schemes.
Inductive json : Type :=
| JNull
| JBool (b : bool)
| JNum (n : Z)
| JStr (s : string)
| JArr (items : list json)
| JObj (fields : list (string * json)).
#[local] Set Elimination Schemes.

Fixpoint assoc (key : string) (fields : list (string * json)) : option json :=
  match fields with
  | [] => None
  | (k, v) :: rest => if String.eqb k key then Some v else assoc key rest
  end.

(** [v.key] for [key] one of [sources], [id]: the outer [None] is a
    [TypeError], the inner one is [undefined]. *)
Definition prop (key : string) (v : json) : option (option json) :=
  match v with
  | JNull => None
  | JObj fields => Some (assoc key fields)
  | _ => Some None
  end.

(** The receiver of [.find] or [.filter] has to be an array. *)
Definition as_array (v : option json) : option (list json) :=
  match v with
  | Some (JArr items) => Some items
  | _ => None
  end.

(** [v === i] for a string [i]. *)
Definition is_string (i : string) (v : option json) : bool :=
  match v with
  | Some (JStr s) => String.eqb s i
  | _ => false
  end.

(** [sources.find(s => s.id === i)], as found or not; it stops at the
    first hit. *)
Fixpoint find_id (i : string) (sources : list json) : option bool :=
  match sources with
  | [] => Some false
  | s :: rest =>
      v ← prop "id" s;
      if is_string i v then Some true else find_id i rest
  end.

Definition opt_field {A} (key : string) (enc : A -> json) (v : option A)
  : list (string * json) :=
  match v with
  | Some a => [(key, enc a)]
  | None => []
  end.

(** A source as [JSON.stringify] writes it and [JSON.parse] reads it. *)
Definition source_json (s : MarketplaceSource) : json :=
  JObj ([("id", JStr (Source.id s)); ("name", JStr (Source.name s));
         ("owner", JStr (Source.owner s)); ("repo", JStr (Source.repo s))]
        ++ opt_field "branch" JStr (Source.branch s)
        ++ opt_field "skillsPath" JStr (Source.skillsPath s)
        ++ opt_field "description" JStr (Source.description s)
        ++ opt_field "verified" JBool (Source.verified s)).

Definition installed_json (i : InstalledSkill) : json :=
  JObj ([("name", JStr (Installed.name i));
         ("localPath", JStr (path_string (Installed.localPath i)))]
        ++ opt_field "source" source_json (Installed.source i)
        ++ opt_field "remotePath" JStr (Installed.remotePath i)
        ++ opt_field "version" JStr (Installed.version i)
        ++ [("installedAt", JNum (Installed.installedAt i))]
        ++ opt_field "lastChecked" JStr (Installed.lastChecked i)).

Definition config_json (c : MarketplaceConfig) : json :=
  JObj [("sources", JArr (map source_json (Config.sources c)));
        ("installed", JArr (map installed_json (Config.installed c)));
        ("installDir", JStr (path_string (Config.installDir c)))].

(** One round of the loop over [DEFAULT_MARKETPLACES]. *)
Definition ensure_default (sources : list json) (d : MarketplaceSource)
  : option (list json) :=
  found ← find_id (Source.id d) sources;
  Some (if (found : bool) then sources else sources ++ [source_json d]).

Fixpoint ensure_defaults (defaults : list MarketplaceSource) (sources : list json)
  : option (list json) :=
  match defaults with
  | [] => Some sources
  | d :: rest => sources' ← ensure_default sources d; ensure_defaults rest sources'
  end.

(** [sources.filter(s => !deprecatedIds.includes(s.id))] *)
Fixpoint drop_deprecated (sources : list json) : option (list json) :=
  match sources with
  | [] => Some []
  | s :: rest =>
      v ← prop "id" s;
      kept ← drop_deprecated rest;
      Some (if existsb (fun i => is_string i v) deprecatedIds then kept else s :: kept)
  end.

(** [config.sources = l] *)
Fixpoint set_field (key : string) (v : json) (fields : list (string * json))
  : list (string * json) :=
  match fields with
  | [] => [(key, v)]
  | (k, old) :: rest =>
      if String.eqb k key then (k, v) :: rest else (k, old) :: set_field key v rest
  end.

(** The body of the [try]; [None] when it throws. *)
Definition heal (config : json) : option json :=
  sources ← prop "sources" config ≫= fun v => as_array v;
  sources ← ensure_defaults DEFAULT_MARKETPLACES sources;
  sources ← drop_deprecated sources;
  match config with
  | JObj fields => Some (JObj (set_field "sources" (JArr sources) fields))
  | _ => None
  end.

(** The file at [CONFIG_FILE], as [loadConfig] finds it. *)
Inductive file : Type :=
| NoFile                               (* [existsSync] is false *)
| Garbage                              (* [readFile] or [JSON.parse] throws *)
| Valid (j : json).                    (* [JSON.parse] returns [j] *)

Definition loadConfig (defaults : MarketplaceConfig) (f : file) : json :=
  match f with
  | NoFile => config_json defaults
  | Garbage => config_json defaults
  | Valid config => default (config_json defaults) (heal config)
  end.

(** The sources of a loaded config. *)
Definition sources_of (config : json) : list json :=
  default [] (prop "sources" config ≫= fun v => as_array v).

Definition has_source_id (config : json) (i : string) : Prop :=
  exists s, In s (sources_of config) /\ prop "id" s = Some (Some (JStr i)).

End Raw.
(** ** validator.ts: the body *)

Definition validateBody (body : string) : ValidationResult :=
  let errors : list ValidationError := [] in
  let lineCount := Z.of_nat (length (Js.split Js.newline body)) in
  (* Math.ceil(body.length / 4) *)
  let estimatedTokens := (len body + 3) / 4 in
  let warnings :=
    when (String.eqb body "" || (len (Js.trim body) =? 0))
         (err "body" "Skill body is empty. Consider adding instructions." None)
    ++ when (500 <? lineCount)
         (err "body"
              ("Skill body has " ^^ pretty lineCount ^^
               " lines. Consider using progressive disclosure (splitting into separate files) for optimal performance.")
              (Some (VNum lineCount)))
    ++ when (5000 <? estimatedTokens)
         (err "body"
              ("Skill body is large (~" ^^ pretty estimatedTokens ^^
               " tokens). This may consume significant context when activated.")
              (Some (VNum estimatedTokens))) in
  {| valid := match errors with [] => true | _ => false end;
     errors := errors;
     warnings := warnings |}.
(** ** The context injector *)

Module Injector.

(** [s.replace(/c/g, by)] for a pattern of one code unit. *)
Fixpoint replaceAll (c : ascii) (by_ : string) (s : string) : string :=
  match s with
  | EmptyString => EmptyString
  | String d s' => (if Ascii.eqb d c then by_ else String d "") ^^ replaceAll c by_ s'
  end.

Definition dquote : ascii := "034".

Definition escapeXML (str : string) : string :=
  replaceAll "'" "&apos;"
    (replaceAll dquote "&quot;"
       (replaceAll ">" "&gt;"
          (replaceAll "<" "&lt;"
             (replaceAll "&" "&amp;" str)))).

Record SkillPromptXML : Type := {
  xml : string;
  skillCount : Z;
  estimatedTokens : Z
}.

Definition skill_element (skill : SkillRef) : string :=
  "
  <skill>
    <name>" ^^ escapeXML (ref_name skill) ^^ "</name>
    <description>" ^^ escapeXML (ref_description skill) ^^ "</description>
    <location>" ^^ escapeXML (path_string (ref_path skill)) ^^ "/SKILL.md</location>
  </skill>".

Definition generateSkillsPromptXML (skills : list SkillRef) : SkillPromptXML :=
  match skills with
  | [] => {| xml := ""; skillCount := 0; estimatedTokens := 0 |}
  | _ =>
      let skillElements := Str.join "" (map skill_element skills) in
      let xml := "<available_skills>" ^^ skillElements ^^ "
</available_skills>" in
      (* Math.ceil(xml.length / 4) *)
      let estimatedTokens := (len xml + 3) / 4 in
      {| xml := xml;
         skillCount := Z.of_nat (length skills);
         estimatedTokens := estimatedTokens |}
  end.

Definition generateSkillSystemInstructions : string :=
  "## Agent Skills System

You have access to specialized skills that extend your capabilities. Each skill provides domain-specific instructions for particular tasks.

### How to use skills:
1. **Discovery**: Review the <available_skills> section to see what skills are installed
2. **Activation**: When a task matches a skill's description, read the skill's SKILL.md file to load detailed instructions
3. **Execution**: Follow the skill's instructions, loading additional reference files or running scripts as needed

### Skill activation:
- When you determine a skill is relevant to the user's request, use bash to read the skill file:
  `cat /path/to/skill/SKILL.md`
- The skill may reference additional files (references/, scripts/) that you can load as needed
- Scripts in the scripts/ directory can be executed when the skill instructions require it

### Best practices:
- Only activate skills when they match the user's request
- Follow skill instructions carefully
- Load referenced files progressively (only when needed)
- Report when using a skill so the user knows specialized behavior is active
".

Definition generateFullSkillsContext (skills : list SkillRef) : string :=
  let instructions := generateSkillSystemInstructions in
  let xml := xml (generateSkillsPromptXML skills) in
  if String.eqb xml "" then ""
  else instructions ^^ "

### Installed Skills:
" ^^ xml ^^ "
".

End Injector.

(** ** executor.ts: the script screen *)

Module Executor.
Import Regex.

(** A literal run of characters. *)
Fixpoint str (s : string) : regex :=
  match s with
  | EmptyString => Eps
  | String c s' => Cat (Cls (Lit c)) (str s')
  end.

(** [\s] *)
Definition space : cclass := Union (Range "009" "013") (Union (Lit " ") (Lit "160")).

(** [.] *)
Definition dot : cclass := Neg (Union (Lit "010") (Lit "013")).

Definition seq (rs : list regex) : regex := fold_right Cat Eps rs.

Definition dangerousPatterns : list (regex * string) :=
  [ (* /rm\s+-rf\s+[\/~]/ *)
    (seq [str "rm"; Plus (Cls space); str "-rf"; Plus (Cls space);
          Cls (Union (Lit "/") (Lit "~"))],
     "Contains recursive delete command");
    (* /curl.*\|.*sh/ *)
    (seq [str "curl"; Star (Cls dot); str "|"; Star (Cls dot); str "sh"],
     "Contains piped curl to shell");
    (* /wget.*\|.*sh/ *)
    (seq [str "wget"; Star (Cls dot); str "|"; Star (Cls dot); str "sh"],
     "Contains piped wget to shell");
    (* /eval\s*\(/ *)
    (seq [str "eval"; Star (Cls space); str "("], "Contains eval() call");
    (* /exec\s*\(/ *)
    (seq [str "exec"; Star (Cls space); str "("], "Contains exec() call");
    (* /os\.system\s*\(/ *)
    (seq [str "os.system"; Star (Cls space); str "("], "Contains os.system() call");
    (* /subprocess\.call\s*\(.*shell\s*=\s*True/ *)
    (seq [str "subprocess.call"; Star (Cls space); str "("; Star (Cls dot); str "shell";
          Star (Cls space); str "="; Star (Cls space); str "True"],
     "Contains shell subprocess call") ].

Record Safety : Type := {
  safe : bool;
  warnings : list string
}.

Definition isScriptSafe (scriptContent : string) : Safety :=
  let warnings :=
    flat_map (fun '(pattern, message) => when (test pattern scriptContent) message)
      dangerousPatterns in
  {| safe := match warnings with [] => true | _ => false end;
     warnings := warnings |}.

End Executor.
(** ** loader.ts: the full skill *)

Module Skill.
Record t : Type := {
  metadata : SkillMetadata;
  body : string;
  path : list string;
  skillMdPath : list string
}.
End Skill.
Abbreviation Skill := Skill.t.

(** [s.endsWith(suffix)] *)
Fixpoint endsWith (suffix s : string) : bool :=
  String.eqb s suffix ||
  match s with
  | EmptyString => false
  | String _ s' => endsWith suffix s'
  end.

Section Loader.
(** [matter(content).content]: the document below its front matter. *)
Variable matter_content : text -> string.

(** Level 2 loading. *)
Definition loadSkill (skillPath : path) : M (option Skill) :=
  let skillMdPath :=
    if endsWith "SKILL.md" (path_string skillPath)
    then skillPath
    else skillPath ++ ["SKILL.md"] in
  let! there := existsSync skillMdPath in
  if negb there then ret None
  else
    let! content := readFile skillMdPath in
    match matter content with
    | None => throw (SystemError "YAMLException")
    | Some data =>
        if falsy (name data) || falsy (description data)
        then throw (Error ("Invalid skill at " ^^ path_string skillPath ^^
                           ": missing required fields"))
        else ret (Some {| Skill.metadata := data;
                          Skill.body := Js.trim (matter_content content);
                          Skill.path := removelast skillMdPath;
                          Skill.skillMdPath := skillMdPath |})
    end.

Definition getSkillByName (name : string) (config : SkillDiscoveryConfig)
  : M (option Skill) :=
  let! skills := discoverSkills config in
  match List.find (fun s => String.eqb (ref_name s) name) skills with
  | None => ret None
  | Some skillRef => loadSkill (ref_path skillRef)
  end.

End Loader.

(** ** marketplace.ts: search and the two listings *)

Definition matches_query (lowerQuery : string) (skill : MarketplaceSkill) : bool :=
  Str.includes lowerQuery (Str.toLowerCase (Remote.name skill))
  || Str.includes lowerQuery (Str.toLowerCase (Remote.description skill))
  || match Remote.tags skill with
     | Some tags => existsb (fun t => Str.includes lowerQuery (Str.toLowerCase t)) tags
     | None => false
     end.

Definition searchSkills (query : string) : M (list MarketplaceSkill) :=
  let! allSkills := listMarketplaceSkills None in
  let lowerQuery := Str.toLowerCase query in
  ret (List.filter (matches_query lowerQuery) allSkills).

Definition getInstalledSkills : M (list InstalledSkill) :=
  let! config := loadConfig in
  ret (Config.installed config).

Definition listMarketplaces : M (list MarketplaceSource) :=
  let! config := loadConfig in
  ret (Config.sources config).

(** ** skillsmp.ts: the two shorthands *)


(** ** marketplace.ts: parseSkillMdFrontmatter on the text itself *)

Module Parse.

(** The values of the parsed record: a string, or the [metadata]
    object. *)
Inductive jsval : Type :=
| JStr (s : string)
| JObj (m : gmap string string).

Definition nl : string := String Js.newline "".

(** [s] around the first place where [w] occurs. *)
Fixpoint cut (w s : string) : option (string * string) :=
  match Url.strip_prefix w s with
  | Some rest => Some ("", rest)
  | None =>
      match s with
      | EmptyString => None
      | String c s' =>
          match cut w s' with
          | Some (a, b) => Some (String c a, b)
          | None => None
          end
      end
  end.

(** [content.match(/^---\n([\s\S]*?)\n---/)]: the group. *)
Definition frontmatterMatch (content : string) : option string :=
  rest ← Url.strip_prefix ("---" ^^ nl) content;
  fst <$> cut (nl ^^ "---") rest.

Definition startsWith (p s : string) : bool := String.prefix p s.

(** [s.indexOf(c)]; [None] is [-1]. *)
Fixpoint indexOf (c : ascii) (s : string) : option nat :=
  match s with
  | EmptyString => None
  | String d s' => if Ascii.eqb d c then Some O else S <$> indexOf c s'
  end.

(** [s.slice(0, n)] and [s.slice(n)]. *)
Fixpoint slice_to (n : nat) (s : string) : string :=
  match n, s with
  | S n', String c s' => String c (slice_to n' s')
  | _, _ => EmptyString
  end.

Fixpoint slice_from (n : nat) (s : string) : string :=
  match n, s with
  | S n', String _ s' => slice_from n' s'
  | _, _ => s
  end.

Definition is_quote (c : ascii) : bool :=
  Ascii.eqb c Injector.dquote || Ascii.eqb c "'".

Definition strip_leading_quote (s : string) : string :=
  match s with
  | String c s' => if is_quote c then s' else s
  | EmptyString => EmptyString
  end.

Fixpoint strip_trailing_quote (s : string) : string :=
  match s with
  | EmptyString => EmptyString
  | String c EmptyString => if is_quote c then EmptyString else s
  | String c s' => String c (strip_trailing_quote s')
  end.

(** [s.replace(/^["']|["']$/g, '')]: a quote at the start goes, and a
    quote at the end of what is left. *)
Definition unquote (s : string) : string :=
  strip_trailing_quote (strip_leading_quote s).

Record state : Type := {
  result : gmap string jsval;
  metadataObj : gmap string string;
  inMetadata : bool
}.

(** The body of the loop over the lines. *)
Definition step (st : state) (line : string) : state :=
  let trimmed := Js.trim line in
  if String.eqb trimmed "" then st
  else if startsWith "  " line && inMetadata st then
    match Js.split ":" trimmed with
    | key :: valueParts =>
        if negb (String.eqb key "") && negb (Nat.eqb (length valueParts) 0)
        then {| result := result st;
                metadataObj :=
                  <[Js.trim key := unquote (Js.trim (Str.join ":" valueParts))]>
                    (metadataObj st);
                inMetadata := inMetadata st |}
        else st
    | [] => st
    end
  else if startsWith "metadata:" trimmed then
    {| result := result st; metadataObj := metadataObj st; inMetadata := true |}
  else
    match indexOf ":" trimmed with
    | Some (S i) =>
        let colonIndex := S i in
        let key := Js.trim (slice_to colonIndex trimmed) in
        let value := unquote (Js.trim (slice_from (colonIndex + 1) trimmed)) in
        {| result := <[key := JStr value]> (result st);
           metadataObj := metadataObj st;
           inMetadata := false |}
    | _ => {| result := result st; metadataObj := metadataObj st; inMetadata := false |}
    end.

(** The parsed record, keys to values ([None] is [null]). *)
Definition parseSkillMdFrontmatter (content : string) : option (gmap string jsval) :=
  yaml ← frontmatterMatch content;
  let st :=
    fold_left step (Js.split Js.newline yaml)
      {| result := ∅; metadataObj := ∅; inMetadata := false |} in
  Some (if decide (metadataObj st = ∅) then result st
        else <["metadata" := JObj (metadataObj st)]> (result st)).

(** What [fetchSkillsFromSource] reads off the record: [metadata.name],
    [metadata.description], [metadata.license],
    [metadata.metadata?.author], [metadata.metadata?.version]. *)
Definition str_at (k : string) (r : gmap string jsval) : option string :=
  match r !! k with
  | Some (JStr s) => Some s
  | _ => None
  end.

Definition meta_at (k : string) (r : gmap string jsval) : option string :=
  match r !! "metadata" with
  | Some (JObj m) => m !! k
  | _ => None
  end.

Definition view (r : gmap string jsval) : Frontmatter :=
  {| fm_name := str_at "name" r;
     fm_description := str_at "description" r;
     fm_license := str_at "license" r;
     fm_author := meta_at "author" r;
     fm_version := meta_at "version" r |}.

End Parse.

(** ** Sample inputs *)

Module Sample.

Definition only_name (n : string) : SkillMetadata :=
  {| name := Some n; description := Some "Extracts text and tables from documents.";
     license := None; compatibility := None; metadata := None; allowedTools := None |}.

(** Nothing on disk, nothing cached, no network. *)
Definition bare_world : world :=
  {| fs := ∅; manifest := Absent; skillsCache := ∅; cache := ∅; now := 0;
     net := fun _ => None; git := fun _ _ _ => GitFails;
     home := ["home"; "dev"]; cwd := ["work"]; fetches := 0; console := [];
     globOrder := fun _ => O |}.

Definition anthropic : MarketplaceSource :=
  {| Source.id := "anthropic-skills";
     Source.name := "Anthropic Official Skills";
     Source.owner := "anthropics";
     Source.repo := "skills";
     Source.branch := Some "main";
     Source.skillsPath := Some "skills";
     Source.description := Some "Official Agent Skills from Anthropic";
     Source.verified := Some true |}.

Definition index_url : string :=
  "https://raw.githubusercontent.com/anthropics/skills/main/skills/skills-index.json".

Definition index_entry (n : string) (v : option string) : IndexEntry :=
  {| ix_name := n; ix_description := Some "Works with documents.";
     ix_path := "skills/" ^^ n; ix_license := None; ix_author := None;
     ix_version := v |}.

(** A remote side whose only answer is the index of the built-in source. *)
Definition index_net (entries : list IndexEntry) (rq : request) : option response :=
  match rq with
  | Get url =>
      if String.eqb url index_url
      then Some {| ok := true; status := 200; payload := IndexJson entries |}
      else None
  | GetSkillsMP _ _ _ _ => None
  end.

Definition installed_pdf (v : option string) : InstalledSkill :=
  {| Installed.name := "pdf";
     Installed.localPath := ["home"; "dev"; ".antigravity"; "skills"; "pdf"];
     Installed.source := Some anthropic;
     Installed.remotePath := Some "skills/pdf";
     Installed.version := v;
     Installed.installedAt := 0;
     Installed.lastChecked := None |}.

(** [pdf] is installed at version 1.0 and the index lists it at
    [remote_version]. *)
Definition update_world (remote_version : option string) : world :=
  {| fs := ∅;
     manifest := Parsed {| Config.sources := DEFAULT_MARKETPLACES;
                           Config.installed := [installed_pdf (Some "1.0")];
                           Config.installDir := ["home"; "dev"; ".antigravity"; "skills"] |};
     skillsCache := ∅; cache := ∅; now := 1000;
     net := index_net [index_entry "pdf" remote_version];
     git := fun _ _ _ => GitFails;
     home := ["home"; "dev"]; cwd := ["work"]; fetches := 0; console := [];
     globOrder := fun _ => O |}.

Definition mp_listing : SkillsMPResponse :=
  {| mp_skills :=
       [ {| mp_id := "42"; mp_name := "pdf"; mp_author := "acme";
            mp_description := "Works with documents.";
            mp_githubUrl := "https://github.com/acme/kit/tree/main/skills/pdf";
            mp_stars := 7; mp_path := "skills/pdf"; mp_branch := "main" |} ];
     mp_pagination :=
       Some {| pg_page := 1; pg_limit := 50; pg_total := 120; pg_totalPages := 3;
               pg_hasNext := true; pg_hasPrev := false |} |}.

(** A remote side that serves the first page of the SkillsMP listing:
    120 skills in all, more pages to come. *)
Definition mp_net (rq : request) : option response :=
  match rq with
  | GetSkillsMP _ _ _ _ =>
      Some {| ok := true; status := 200; payload := SkillsMPJson mp_listing |}
  | Get _ => None
  end.

Definition mp_world : world :=
  {| fs := ∅; manifest := Absent; skillsCache := ∅; cache := ∅; now := 1000;
     net := mp_net; git := fun _ _ _ => GitFails;
     home := ["home"; "dev"]; cwd := ["work"]; fetches := 0; console := [];
     globOrder := fun _ => O |}.

Definition no_options : SkillsMPOptions :=
  {| opt_search := None; opt_page := None; opt_limit := None; opt_sortBy := None |}.

Definition document (n d : option string) : text :=
  {| matter := Some {| name := n; description := d; license := None;
                       compatibility := None; metadata := None; allowedTools := None |};
     frontmatter := None |}.

(** Nothing installed; the index lists [pdf]; a checkout of it holds
    [files]. *)
Definition install_world (files : list (path * text)) : world :=
  {| fs := ∅; manifest := Absent; skillsCache := ∅; cache := ∅; now := 1000;
     net := index_net [index_entry "pdf" (Some "2")];
     git := fun _ _ _ => Tree files;
     home := ["home"; "dev"]; cwd := ["work"]; fetches := 0; console := [];
     globOrder := fun _ => O |}.

(** A skill document with a name and no description. *)
Definition no_description : list (path * text) :=
  [ (["SKILL.md"], document (Some "pdf") None);
    (["scripts"; "extract.sh"], document None None) ].


(** A skill whose name the validator rejects. *)
Definition reserved_name : list (path * text) :=
  [ (["SKILL.md"],
     document (Some "claude-pdf")
       (Some "Extracts text and tables from PDF files and fills in forms.")) ].


Definition skills_dir : path := ["home"; "dev"; ".antigravity"; "skills"].
Definition pdf_dir : path := skills_dir ++ ["pdf"].

(** The candidate the index yields for [pdf]. *)
Definition pdf_candidate : MarketplaceSkill :=
  index_skill anthropic (index_entry "pdf" (Some "2")).

(** The worlds an install of [pdf] goes through: after the listing,
    after the install directory is made, after the download. *)
Definition listed (files : list (path * text)) : world :=
  (listMarketplaceSkills None (install_world files)).2.

Definition prepared (files : list (path * text)) : world :=
  (mkdir (Config.installDir (current_config (install_world files))) (listed files)).2.

Definition staged (files : list (path * text)) : world :=
  (downloadSkill pdf_candidate
     (join (Config.installDir (current_config (install_world files))) "pdf")
     (prepared files)).2.


(** [pdf] is installed, its document on disk; the index lists a skill
    by the name of [..], and a checkout of it holds one document. *)
Definition dots_document : text :=
  document (Some "dots") (Some "Draws dotted rules between the sections of a report.").

Definition dots_world_with (files : list (path * text)) : world :=
  {| fs := {[ ["home"] := Dir;
              ["home"; "dev"] := Dir;
              ["home"; "dev"; ".antigravity"] := Dir;
              skills_dir := Dir;
              pdf_dir := Dir;
              pdf_dir ++ ["SKILL.md"] :=
                File (document (Some "pdf") (Some "Works with documents.")) ]};
     manifest := Parsed {| Config.sources := DEFAULT_MARKETPLACES;
                           Config.installed := [installed_pdf (Some "1.0")];
                           Config.installDir := skills_dir |};
     skillsCache := ∅; cache := ∅; now := 1000;
     net := index_net [index_entry ".." (Some "1")];
     git := fun _ _ _ => Tree files;
     home := ["home"; "dev"]; cwd := ["work"]; fetches := 0; console := [];
     globOrder := fun _ => O |}.

Definition dots_world : world := dots_world_with [(["SKILL.md"], dots_document)].

(** A remote side that answers every plain request with one document. *)
Definition raw_document : text := document (Some "pdf") (Some "Works with documents.").

Definition raw_net (rq : request) : option response :=
  match rq with
  | Get _ => Some {| ok := true; status := 200; payload := Text raw_document |}
  | GetSkillsMP _ _ _ _ => None
  end.

Definition raw_world : world :=
  {| fs := {[ ["work"] := Dir ]}; manifest := Absent; skillsCache := ∅; cache := ∅;
     now := 1000; net := raw_net; git := fun _ _ _ => GitFails;
     home := ["home"; "dev"]; cwd := ["work"]; fetches := 0; console := [];
     globOrder := fun _ => O |}.

(** A source a user registers. *)
Definition team_source : MarketplaceSource :=
  {| Source.id := "team"; Source.name := "Team skills"; Source.owner := "acme";
     Source.repo := "kit"; Source.branch := None; Source.skillsPath := None;
     Source.description := None; Source.verified := None |}.

(** A tree with one skill below the project's skills directory. *)
Definition skills_root : path := ["work"; "skills"].

Definition disk_world : world :=
  {| fs := {[ ["work"] := Dir;
              ["work"; "skills"] := Dir;
              ["work"; "skills"; "pdf"] := Dir;
              ["work"; "skills"; "pdf"; "SKILL.md"] :=
                File (document (Some "pdf") (Some "Works with documents.")) ]};
     manifest := Absent; skillsCache := ∅; cache := ∅; now := 0;
     net := fun _ => None; git := fun _ _ _ => GitFails;
     home := ["home"; "dev"]; cwd := ["work"]; fetches := 0; console := [];
     globOrder := fun _ => O |}.

Definition disk_config : SkillDiscoveryConfig :=
  {| searchPaths := Some [skills_root]; recursive := None; maxDepth := None |}.

Definition pdf_ref : SkillRef :=
  {| ref_name := "pdf"; ref_description := "Works with documents.";
     ref_path := ["work"; "skills"; "pdf"] |}.

(** Below the project's skills directory: a skill that loads, one whose
    document has no description, a directory called SKILL.md, a skill in
    a hidden directory and one four levels down. *)
Definition mixed_world : world :=
  {| fs := {[ ["work"] := Dir;
              ["work"; "skills"] := Dir;
              ["work"; "skills"; "pdf"] := Dir;
              ["work"; "skills"; "pdf"; "SKILL.md"] :=
                File (document (Some "pdf") (Some "Works with documents."));
              ["work"; "skills"; "draft"] := Dir;
              ["work"; "skills"; "draft"; "SKILL.md"] := File (document (Some "draft") None);
              ["work"; "skills"; "SKILL.md"] := Dir;
              ["work"; "skills"; ".cache"] := Dir;
              ["work"; "skills"; ".cache"; "SKILL.md"] :=
                File (document (Some "cached") (Some "Works with documents."));
              ["work"; "skills"; "a"] := Dir;
              ["work"; "skills"; "a"; "b"] := Dir;
              ["work"; "skills"; "a"; "b"; "SKILL.md"] :=
                File (document (Some "deep") (Some "Works with documents.")) ]};
     manifest := Absent; skillsCache := ∅; cache := ∅; now := 0;
     net := fun _ => None; git := fun _ _ _ => GitFails;
     home := ["home"; "dev"]; cwd := ["work"]; fetches := 0; console := [];
     globOrder := fun _ => O |}.

(** Two skills of one name; the walk comes first to the one in
    [first]. *)
Definition twin_world (first : string) : world :=
  {| fs := {[ ["work"] := Dir;
              ["work"; "skills"] := Dir;
              ["work"; "skills"; "a"] := Dir;
              ["work"; "skills"; "a"; "SKILL.md"] :=
                File (document (Some "pdf") (Some "The first of the two."));
              ["work"; "skills"; "b"] := Dir;
              ["work"; "skills"; "b"; "SKILL.md"] :=
                File (document (Some "pdf") (Some "The second of the two.")) ]};
     manifest := Absent; skillsCache := ∅; cache := ∅; now := 0;
     net := fun _ => None; git := fun _ _ _ => GitFails;
     home := ["home"; "dev"]; cwd := ["work"]; fetches := 0; console := [];
     globOrder := fun p => if bool_decide (p = ["work"; "skills"; first; "SKILL.md"])
                           then 0%nat else 1%nat |}.

(** [café] and [CAFÉ], with the code units U+00E9 and U+00C9. *)
Definition cafe : string := "caf" ^^ String "233" "".
Definition CAFE : string := "CAF" ^^ String "201" "".

(** The index lists a skill by the name of [café]. *)
Definition cafe_world : world :=
  {| fs := ∅; manifest := Absent; skillsCache := ∅; cache := ∅; now := 1000;
     net := index_net [index_entry cafe None];
     git := fun _ _ _ => GitFails;
     home := ["home"; "dev"]; cwd := ["work"]; fetches := 0; console := [];
     globOrder := fun _ => O |}.

(** A skill kept in a directory that is itself called SKILL.md. *)
Definition nested_world : world :=
  {| fs := {[ ["work"] := Dir;
              ["work"; "skills"] := Dir;
              ["work"; "skills"; "SKILL.md"] := Dir;
              ["work"; "skills"; "SKILL.md"; "SKILL.md"] :=
                File (document (Some "notes") (Some "Keeps notes.")) ]};
     manifest := Absent; skillsCache := ∅; cache := ∅; now := 0;
     net := fun _ => None; git := fun _ _ _ => GitFails;
     home := ["home"; "dev"]; cwd := ["work"]; fetches := 0; console := [];
     globOrder := fun _ => O |}.

Definition nested_config : SkillDiscoveryConfig :=
  {| searchPaths := Some [skills_root]; recursive := None; maxDepth := None |}.

Definition notes_ref : SkillRef :=
  {| ref_name := "notes"; ref_description := "Keeps notes.";
     ref_path := ["work"; "skills"; "SKILL.md"] |}.

(** The cache holds an entry for the built-in source that is 400
    seconds old. *)
Definition stale_world : world :=
  {| fs := ∅; manifest := Absent;
     skillsCache := {[ "anthropics/skills" := ([], 0) ]}; cache := ∅; now := 400000;
     net := index_net [index_entry "pdf" (Some "2")];
     git := fun _ _ _ => GitFails;
     home := ["home"; "dev"]; cwd := ["work"]; fetches := 0; console := [];
     globOrder := fun _ => O |}.

(** The built-in repository, read from another branch and directory. *)
Definition anthropic_dev : MarketplaceSource :=
  {| Source.id := "anthropic-dev";
     Source.name := "Anthropic skills, development branch";
     Source.owner := "anthropics";
     Source.repo := "skills";
     Source.branch := Some "dev";
     Source.skillsPath := Some "drafts";
     Source.description := None;
     Source.verified := None |}.

End Sample.

(** * Properties *)

(** ** Strings *)

Module StrFacts.
Import Str.

Lemma append_cons (c : ascii) (a b : string) : String c a ^^ b = String c (a ^^ b).
Proof. reflexivity. Qed.

Lemma append_nil_l (s : string) : "" ^^ s = s.
Proof. reflexivity. Qed.

Ltac sapp := rewrite ?append_cons, ?append_nil_l in *.

Lemma append_nil_r (s : string) : s ^^ "" = s.
Proof. induction s as [|c s IH]; sapp; [reflexivity | now rewrite IH]. Qed.

Lemma append_assoc (a b c : string) : (a ^^ b) ^^ c = a ^^ b ^^ c.
Proof. induction a as [|x a IH]; sapp; [reflexivity | now rewrite IH]. Qed.

Lemma prefix_spec (w s : string) :
  String.prefix w s = true <-> exists t, s = w ^^ t.
Proof.
  revert s. induction w as [|c w IH]; intros s; simpl.
  - split; [intros _; now exists s | intros _; now destruct s].
  - destruct s as [|d s]; simpl.
    + split; [discriminate | intros [t Ht]; discriminate].
    + destruct (ascii_dec c d) as [->|Hne].
      * rewrite IH. split; intros [t Ht]; exists t; sapp; [now rewrite Ht | now inversion Ht].
      * split; [discriminate | intros [t Ht]; sapp; inversion Ht; congruence].
Qed.

Lemma includes_spec (w s : string) :
  includes w s = true <-> exists a b, s = a ^^ w ^^ b.
Proof.
  induction s as [|c s IH]; cbn [includes].
  - rewrite orb_false_r, prefix_spec. split.
    + intros [t Ht]. now exists "", t.
    + intros [a [b Hab]]. destruct a; sapp; [now exists b | discriminate].
  - rewrite orb_true_iff, prefix_spec, IH. split.
    + intros [[t Ht] | [a [b Hab]]].
      * now exists "", t.
      * exists (String c a), b. sapp. now rewrite Hab.
    + intros [a [b Hab]]. destruct a as [|d a]; sapp.
      * left. now exists b.
      * right. inversion Hab. now exists a, b.
Qed.

Lemma toLowerCase_app (a b : string) :
  toLowerCase (a ^^ b) = toLowerCase a ^^ toLowerCase b.
Proof. induction a as [|c a IH]; sapp; simpl; [reflexivity | now rewrite IH]. Qed.

Lemma toLowerCase_fixed (s : string) :
  all_chars (fun c => negb (is_upper c)) s = true -> toLowerCase s = s.
Proof.
  induction s as [|c s IH]; simpl; [reflexivity|].
  rewrite andb_true_iff. intros [Hc Hs]. unfold lower_char.
  destruct (is_upper c); [discriminate | now rewrite IH].
Qed.

(** Folding the case of a text keeps every lower-case word it holds. *)
Lemma includes_toLowerCase (w s : string) :
  all_chars (fun c => negb (is_upper c)) w = true ->
  includes w s = true -> includes w (toLowerCase s) = true.
Proof.
  intros Hw. rewrite !includes_spec. intros [a [b ->]].
  exists (toLowerCase a), (toLowerCase b).
  now rewrite !toLowerCase_app, (toLowerCase_fixed w Hw).
Qed.

Lemma all_chars_app p (a b : string) :
  all_chars p (a ^^ b) = all_chars p a && all_chars p b.
Proof. induction a as [|c a IH]; sapp; simpl; [reflexivity | now rewrite IH, andb_assoc]. Qed.

Lemma all_chars_impl (p q : ascii -> bool) (s : string) :
  (forall c, p c = true -> q c = true) ->
  all_chars p s = true -> all_chars q s = true.
Proof.
  intros Hpq. induction s as [|c s IH]; simpl; [reflexivity|].
  rewrite !andb_true_iff. intros [Hc Hs]. auto.
Qed.

End StrFacts.

(** ** The derivative matcher decides the language *)

Module RegexFacts.
Import Regex StrFacts.

Lemma nullable_lang (r : regex) : nullable r = true <-> lang r "".
Proof.
  induction r as [| |k|r1 IH1 r2 IH2|r1 IH1 r2 IH2|r IH]; simpl.
  - split; [discriminate | intros H; inversion H].
  - split; [intros _; constructor | reflexivity].
  - split; [discriminate | intros H; inversion H].
  - rewrite andb_true_iff, IH1, IH2. split.
    + intros [H1 H2]. change "" with ("" ^^ ""). now constructor.
    + intros H. inversion H as [| |? ? s1 s2 H1 H2 Heq| | | |]; subst.
      destruct s1; [|discriminate]. sapp. subst. now split.
  - rewrite orb_true_iff, IH1, IH2. split.
    + intros [H|H]; [now apply lang_alt_l | now apply lang_alt_r].
    + intros H. inversion H; subst; auto.
  - split; [intros _; constructor | reflexivity].
Qed.

Lemma deriv_sound (c : ascii) (r : regex) :
  forall s, lang (deriv c r) s -> lang r (String c s).
Proof.
  induction r as [| |k|r1 IH1 r2 IH2|r1 IH1 r2 IH2|r IH]; simpl; intros s H.
  - inversion H.
  - inversion H.
  - destruct (in_class k c) eqn:Hk; inversion H; subst. now constructor.
  - assert (Hcat : forall t, lang (Cat (deriv c r1) r2) t -> lang (Cat r1 r2) (String c t)).
    { intros t Ht. inversion Ht as [| |? ? s1 s2 H1 H2 Heq| | | |]; subst.
      change (String c (s1 ^^ s2)) with (String c s1 ^^ s2).
      constructor; auto. }
    destruct (nullable r1) eqn:Hn; [|now apply Hcat].
    inversion H; subst; [now apply Hcat|].
    change (String c s) with ("" ^^ String c s).
    constructor; [now apply nullable_lang | auto].
  - inversion H; subst; [apply lang_alt_l | apply lang_alt_r]; auto.
  - inversion H as [| |? ? s1 s2 H1 H2 Heq| | | |]; subst.
    change (String c (s1 ^^ s2)) with (String c s1 ^^ s2).
    constructor; auto.
Qed.

Lemma deriv_complete (r : regex) (t : string) :
  lang r t -> forall c u, t = String c u -> lang (deriv c r) u.
Proof.
  induction 1 as [|k d Hk|r1 r2 s1 s2 H1 IH1 H2 IH2|r1 r2 s H IH|r1 r2 s H IH| |r s1 s2 H1 IH1 H2 IH2];
    intros c u Heq; simpl.
  - discriminate.
  - inversion Heq; subst. rewrite Hk. constructor.
  - destruct s1 as [|d s1]; sapp.
    + assert (Hn : nullable r1 = true) by now apply nullable_lang.
      rewrite Hn. apply lang_alt_r. eauto.
    + inversion Heq; subst.
      assert (Hc : lang (Cat (deriv c r1) r2) (s1 ^^ s2)) by (constructor; eauto).
      destruct (nullable r1); [now apply lang_alt_l | exact Hc].
  - apply lang_alt_l; eauto.
  - apply lang_alt_r; eauto.
  - discriminate.
  - destruct s1 as [|d s1]; sapp.
    + apply (IH2 c u Heq).
    + inversion Heq; subst. constructor; eauto.
Qed.

Theorem matches_lang (r : regex) (s : string) :
  matches r s = true <-> lang r s.
Proof.
  revert r. induction s as [|c s IH]; intros r; simpl.
  - apply nullable_lang.
  - rewrite IH. split; [apply deriv_sound | intros H; eapply deriv_complete; eauto].
Qed.

Lemma lang_alphabet (r : regex) (s : string) :
  lang r s -> Str.all_chars (alphabet r) s = true.
Proof.
  induction 1 as [|k d Hk|r1 r2 s1 s2 H1 IH1 H2 IH2|r1 r2 s H IH|r1 r2 s H IH| |r s1 s2 H1 IH1 H2 IH2].
  - reflexivity.
  - simpl. now rewrite Hk.
  - rewrite all_chars_app, andb_true_iff. split.
    + eapply all_chars_impl; [|exact IH1]. intros c Hc. simpl. now rewrite Hc.
    + eapply all_chars_impl; [|exact IH2]. intros c Hc. simpl. rewrite Hc. apply orb_true_r.
  - eapply all_chars_impl; [|exact IH]. intros c Hc. simpl. now rewrite Hc.
  - eapply all_chars_impl; [|exact IH]. intros c Hc. simpl. rewrite Hc. apply orb_true_r.
  - reflexivity.
  - rewrite all_chars_app, IH2, andb_true_r.
    eapply all_chars_impl; [|exact IH1]. intros c Hc. exact Hc.
Qed.

Lemma lang_any (s : string) : lang (Star (Cls AnyChar)) s.
Proof.
  induction s as [|c s IH]; [constructor|].
  change (String c s) with (String c "" ^^ s). constructor; [|exact IH].
  constructor. unfold AnyChar. simpl. now destruct (Ascii.eqb c "<").
Qed.

(** [test] finds a match of [r] somewhere in the text. *)
Lemma test_spec (r : regex) (s : string) :
  test r s = true <-> exists a m b, s = a ^^ m ^^ b /\ lang r m.
Proof.
  unfold test. rewrite matches_lang. split.
  - intros H. inversion H as [| |? ? a t Ha Ht Heq| | | |]; subst.
    inversion Ht as [| |? ? m b Hm Hb Heq| | | |]; subst.
    now exists a, m, b.
  - intros [a [m [b [-> Hm]]]].
    constructor; [apply lang_any|]. constructor; [exact Hm | apply lang_any].
Qed.

End RegexFacts.

(** ** validateMetadata: the checks on the name *)

Module ValidatorFacts.
Import Str Regex Pat StrFacts RegexFacts.

Definition name_char (c : ascii) : bool :=
  negb (is_upper c) && negb (Ascii.eqb c "<").

Lemma alphabet_name_char (c : ascii) :
  alphabet NAME_PATTERN c = true -> name_char c = true.
Proof.
  destruct c as [[] [] [] [] [] [] [] []]; vm_compute; intros H;
    first [reflexivity | discriminate H].
Qed.

Lemma name_chars (n : string) :
  matches NAME_PATTERN n = true -> all_chars name_char n = true.
Proof.
  intros H. apply matches_lang, lang_alphabet in H.
  eapply all_chars_impl; [apply alphabet_name_char | exact H].
Qed.

(** A name the pattern accepts is already in lower case. *)
Lemma name_lower (n : string) :
  matches NAME_PATTERN n = true -> toLowerCase n = n.
Proof.
  intros H. apply toLowerCase_fixed.
  eapply all_chars_impl; [|apply (name_chars n H)].
  intros c. unfold name_char. now rewrite andb_true_iff.
Qed.

Lemma xml_tag_has_lt (m : string) :
  lang XML_TAG m -> exists t, m = String "<" t.
Proof.
  intros H. inversion H as [| |? ? s1 s2 H1 H2 Heq| | | |]; subst.
  inversion H1; subst.
  match goal with
  | Hc : in_class _ _ = true |- _ => simpl in Hc; apply Ascii.eqb_eq in Hc; subst
  end.
  sapp. eauto.
Qed.

(** A name the pattern accepts holds no markup tag. *)
Lemma name_no_tag (n : string) :
  matches NAME_PATTERN n = true -> test XML_TAG n = false.
Proof.
  intros H. destruct (test XML_TAG n) eqn:Ht; [|reflexivity].
  apply test_spec in Ht. destruct Ht as [a [m [b [-> Hm]]]].
  apply xml_tag_has_lt in Hm. destruct Hm as [t ->].
  apply name_chars in H. rewrite !all_chars_app in H. sapp.
  cbn [all_chars] in H. change (name_char "<") with false in H.
  rewrite andb_false_l, andb_false_r in H. discriminate H.
Qed.

Lemma name_not_empty (n : string) :
  matches NAME_PATTERN n = true -> String.eqb n "" = false.
Proof. destruct n; [discriminate | reflexivity]. Qed.

Lemma includes_not_empty (w n : string) :
  In w RESERVED_WORDS -> includes w n = true -> String.eqb n "" = false.
Proof.
  intros Hw Hn. destruct n; [|reflexivity]. exfalso.
  simpl in Hw. destruct Hw as [<-|[<-|[<-|[<-|[]]]]]; discriminate Hn.
Qed.

Lemma reserved_lower (w : string) :
  In w RESERVED_WORDS -> all_chars (fun c => negb (is_upper c)) w = true.
Proof. simpl. intros [<-|[<-|[<-|[<-|[]]]]]; reflexivity. Qed.

Lemma filter_when {A} (p : A -> bool) (b : bool) (x : A) :
  List.filter p (when b x) = when (b && p x) x.
Proof. destruct b; simpl; [destruct (p x)|]; reflexivity. Qed.

(** The name errors of a result are those of the name checks. *)
Lemma name_errors_checks (md : SkillMetadata) :
  name_errors (validateMetadata md) = name_checks md.
Proof.
  unfold name_errors, validateMetadata. cbn [errors].
  rewrite !List.filter_app.
  assert (Hd : List.filter (fun e => String.eqb (field e) "name") (description_checks md) = []).
  { unfold description_checks. destruct (falsy (description md)); [reflexivity|].
    rewrite List.filter_app, !filter_when. simpl.
    now rewrite !andb_false_r. }
  assert (Hc : List.filter (fun e => String.eqb (field e) "name") (compatibility_checks md) = []).
  { unfold compatibility_checks. destruct (compatibility md); [|reflexivity].
    rewrite filter_when. simpl. now rewrite andb_false_r. }
  rewrite Hd, Hc, !app_nil_r.
  unfold name_checks. destruct (falsy (name md)); [reflexivity|].
  unfold reserved_errors. cbn [flat_map RESERVED_WORDS].
  rewrite !List.filter_app, !filter_when. simpl.
  now rewrite !andb_true_r.
Qed.

Lemma reserved_errors_none (n : string) :
  (forall w, In w RESERVED_WORDS -> includes w (toLowerCase n) = false) ->
  reserved_errors n = [].
Proof.
  intros H. unfold reserved_errors. cbn [flat_map RESERVED_WORDS].
  rewrite !H by (simpl; tauto). reflexivity.
Qed.

(** Exactly one of the name checks names a reserved word the name holds. *)
Lemma one_mention (n w : string) :
  String.eqb n "" = false ->
  In w RESERVED_WORDS ->
  includes w (toLowerCase n) = true ->
  forall md, name md = Some n ->
  length (List.filter (mentions w) (name_checks md)) = 1%nat.
Proof.
  intros Hne Hw Hin md Hmd. unfold name_checks. rewrite Hmd. cbn [falsy from_option id].
  rewrite Hne. unfold reserved_errors. cbn [flat_map RESERVED_WORDS].
  rewrite !List.filter_app, !filter_when, !app_nil_r.
  simpl in Hw. destruct Hw as [<-|[<-|[<-|[<-|[]]]]]; rewrite Hin;
    repeat match goal with
           | |- context [when (?b && mentions ?v ?e) _] =>
               let c := eval vm_compute in (mentions v e) in
               change (mentions v e) with c
           end;
    rewrite ?andb_false_r, ?andb_true_r; cbn [when app length];
    rewrite ?app_nil_r; reflexivity.
Qed.

End ValidatorFacts.

(** C2, first half as written: the pattern alone does not clear the name.
    [claude] matches the pattern and draws a name error. *)
Lemma name_pattern_alone_counterexample :
  name (Sample.only_name "claude") = Some "claude" /\
  Regex.matches Pat.NAME_PATTERN "claude" = true /\
  name_errors (validateMetadata (Sample.only_name "claude")) <> [].
Proof. repeat split. vm_compute. discriminate. Qed.

(** C2 (amended): a name that matches the pattern, is at most 64
    characters long and holds no reserved word draws no error on the
    name field; a name that holds a reserved word draws exactly one name
    error whose message mentions that word. *)
Theorem validateMetadata_name_rules (md : SkillMetadata) (n : string) :
  name md = Some n ->
  (Regex.matches Pat.NAME_PATTERN n = true ->
   len n <= 64 ->
   (forall w, In w RESERVED_WORDS -> Str.includes w n = false) ->
   name_errors (validateMetadata md) = [])
  /\
  (forall w, In w RESERVED_WORDS -> Str.includes w n = true ->
   length (List.filter (mentions w) (name_errors (validateMetadata md))) = 1%nat).
Proof.
  intros Hmd. rewrite ValidatorFacts.name_errors_checks. split.
  - intros Hpat Hlen Hres. unfold name_checks. rewrite Hmd. cbn [falsy from_option id].
    rewrite (ValidatorFacts.name_not_empty n Hpat), Hpat,
      (ValidatorFacts.name_no_tag n Hpat).
    rewrite ValidatorFacts.reserved_errors_none
      by (intros w Hw; rewrite (ValidatorFacts.name_lower n Hpat); auto).
    assert (H64 : (64 <? len n) = false) by (apply Z.ltb_ge; exact Hlen).
    rewrite H64. reflexivity.
  - intros w Hw Hin.
    apply (ValidatorFacts.one_mention n w); auto.
    + eapply ValidatorFacts.includes_not_empty; eauto.
    + apply StrFacts.includes_toLowerCase; [apply ValidatorFacts.reserved_lower|]; auto.
Qed.

Lemma validateMetadata_name_rules_witness :
  name_errors (validateMetadata (Sample.only_name "pdf-tools")) = [] /\
  length (List.filter (mentions "openai")
            (name_errors (validateMetadata (Sample.only_name "my-openai-claude")))) = 1%nat.
Proof.
  split.
  - apply (validateMetadata_name_rules (Sample.only_name "pdf-tools") "pdf-tools" eq_refl).
    + reflexivity.
    + vm_compute. discriminate.
    + simpl. intros w [<-|[<-|[<-|[<-|[]]]]]; reflexivity.
  - apply (validateMetadata_name_rules (Sample.only_name "my-openai-claude") "my-openai-claude" eq_refl).
    + simpl. tauto.
    + reflexivity.
Defined.

(** ** Lists, as the code searches them *)

Module ListFacts.

Lemma find_none_iff {A} (p : A -> bool) (l : list A) :
  List.find p l = None <-> forall x, In x l -> p x = false.
Proof.
  split; [apply List.find_none|].
  induction l as [|x l IH]; simpl; intros H; [reflexivity|].
  rewrite (H x) by auto. apply IH. auto.
Qed.

Lemma findIndex_none {A} (p : A -> bool) (l : list A) :
  (forall x, In x l -> p x = false) -> findIndex p l = None.
Proof.
  induction l as [|x l IH]; simpl; intros H; [reflexivity|].
  rewrite (H x) by auto. rewrite IH by auto. reflexivity.
Qed.

(** [findIndex] lands on the element [find] returns. *)
Lemma findIndex_find {A} (p : A -> bool) (l : list A) (x : A) :
  List.find p l = Some x ->
  exists i, findIndex p l = Some i /\ l !! i = Some x.
Proof.
  induction l as [|y l IH]; simpl; [discriminate|].
  destruct (p y) eqn:Hy.
  - intros [= ->]. now exists O.
  - intros H. destruct (IH H) as [i [Hi Hl]]. exists (S i). now rewrite Hi.
Qed.




Lemma filter_none {A} (p : A -> bool) (l : list A) :
  (forall x, In x l -> p x = false) -> List.filter p l = [].
Proof.
  induction l as [|x l IH]; simpl; intros H; [reflexivity|].
  rewrite (H x) by auto. apply IH. auto.
Qed.

End ListFacts.

(** ** The manifest store *)

Module ManifestFacts.
Import ListFacts.

Lemma loadConfig_run (w : world) : loadConfig w = (Ok (current_config w), w).
Proof. reflexivity. Qed.

Lemma ensure_default_incl (l : list MarketplaceSource) (d s : MarketplaceSource) :
  In s l -> In s (ensure_default l d).
Proof.
  unfold ensure_default. destruct (List.find _ l); [auto|].
  intros H. apply in_or_app. now left.
Qed.

Lemma ensure_default_has (l : list MarketplaceSource) (d : MarketplaceSource) :
  exists s, In s (ensure_default l d) /\ Source.id s = Source.id d.
Proof.
  unfold ensure_default. destruct (List.find _ l) as [s|] eqn:Hf.
  - apply List.find_some in Hf. destruct Hf as [Hin Hid].
    exists s. split; [exact Hin|]. now apply String.eqb_eq.
  - exists d. split; [|reflexivity]. apply in_or_app. right. now left.
Qed.

Lemma ensure_defaults_incl (ds l : list MarketplaceSource) (s : MarketplaceSource) :
  In s l -> In s (fold_left ensure_default ds l).
Proof.
  revert l. induction ds as [|d ds IH]; simpl; intros l H; [exact H|].
  apply IH. now apply ensure_default_incl.
Qed.

Lemma ensure_defaults_has (ds l : list MarketplaceSource) (d : MarketplaceSource) :
  In d ds ->
  exists s, In s (fold_left ensure_default ds l) /\ Source.id s = Source.id d.
Proof.
  revert l. induction ds as [|d' ds IH]; simpl; intros l; [intros []|].
  intros [->|Hd]; [|now apply IH].
  destruct (ensure_default_has l d) as [s [Hs Hid]].
  exists s. split; [|exact Hid]. now apply ensure_defaults_incl.
Qed.

(** No built-in source is on the deprecation list. *)
Lemma defaults_not_deprecated (d : MarketplaceSource) :
  In d DEFAULT_MARKETPLACES -> includes_id deprecatedIds (Source.id d) = false.
Proof. simpl. intros [<-|[]]. reflexivity. Qed.

Lemma includes_id_spec (ids : list string) (i : string) :
  includes_id ids i = true <-> In i ids.
Proof.
  unfold includes_id. rewrite existsb_exists. split.
  - intros [x [Hx Heq]]. apply String.eqb_eq in Heq. now subst.
  - intros H. exists i. split; [exact H | apply String.eqb_refl].
Qed.

(** The two promises of a healed source list. *)
Lemma heal_sources (c : MarketplaceConfig) :
  (forall d, In d DEFAULT_MARKETPLACES ->
     exists s, In s (Config.sources (heal c)) /\ Source.id s = Source.id d) /\
  (forall s, In s (Config.sources (heal c)) -> ~ In (Source.id s) deprecatedIds).
Proof.
  unfold heal. cbn [Config.sources]. split.
  - intros d Hd.
    destruct (ensure_defaults_has DEFAULT_MARKETPLACES (Config.sources c) d Hd)
      as [s [Hs Hid]].
    exists s. split; [|exact Hid].
    apply List.filter_In. split; [exact Hs|].
    rewrite Hid, (defaults_not_deprecated d Hd). reflexivity.
  - intros s Hs. apply List.filter_In in Hs. destruct Hs as [_ Hs].
    rewrite <- includes_id_spec. now destruct (includes_id deprecatedIds (Source.id s)).
Qed.

Lemma default_sources (w : world) :
  (forall d, In d DEFAULT_MARKETPLACES ->
     exists s, In s (Config.sources (default_config w)) /\ Source.id s = Source.id d) /\
  (forall s, In s (Config.sources (default_config w)) -> ~ In (Source.id s) deprecatedIds).
Proof.
  cbn [default_config Config.sources]. split.
  - intros d Hd. now exists d.
  - intros s Hs. rewrite <- includes_id_spec, (defaults_not_deprecated s Hs). discriminate.
Qed.

Lemma current_sources (w : world) :
  (forall d, In d DEFAULT_MARKETPLACES ->
     exists s, In s (Config.sources (current_config w)) /\ Source.id s = Source.id d) /\
  (forall s, In s (Config.sources (current_config w)) -> ~ In (Source.id s) deprecatedIds).
Proof.
  unfold current_config.
  destruct (manifest w); [apply default_sources | apply default_sources | apply heal_sources].
Qed.

End ManifestFacts.

(** C8: removing a source that is not registered fails with the
    not-found error, removing a verified one fails with the
    protected-source error, and either failure leaves the world, and so
    the persisted config and the sources of the next load, as they
    were. *)
Theorem removeMarketplace_failures (w : world) (id : string) :
  ((forall s, In s (Config.sources (current_config w)) -> Source.id s <> id) ->
   removeMarketplace id w = (Throw (Error ("Marketplace " ^^ id ^^ " not found")), w))
  /\
  (forall s,
     List.find (has_id id) (Config.sources (current_config w)) = Some s ->
     Source.verified s = Some true ->
     removeMarketplace id w =
       (Throw (Error ("Cannot remove verified marketplace: " ^^ id)), w)).
Proof.
  unfold removeMarketplace, bind. rewrite ManifestFacts.loadConfig_run. split.
  - intros Hnone. rewrite ListFacts.findIndex_none; [reflexivity|].
    intros s Hs. apply String.eqb_neq. now apply Hnone.
  - intros s Hfind Hver.
    destruct (ListFacts.findIndex_find _ _ _ Hfind) as [i [Hi Hl]].
    rewrite Hi, Hl, Hver. reflexivity.
Qed.

Lemma removeMarketplace_failures_witness :
  removeMarketplace "no-such-source" Sample.bare_world =
    (Throw (Error "Marketplace no-such-source not found"), Sample.bare_world) /\
  removeMarketplace "anthropic-skills" Sample.bare_world =
    (Throw (Error "Cannot remove verified marketplace: anthropic-skills"), Sample.bare_world).
Proof.
  split.
  - apply (proj1 (removeMarketplace_failures Sample.bare_world "no-such-source")).
    simpl. intros s [<-|[]]. discriminate.
  - apply (proj2 (removeMarketplace_failures Sample.bare_world "anthropic-skills")
             (hd SKILLSMP_SOURCE DEFAULT_MARKETPLACES)); reflexivity.
Defined.

(** ** loadConfig on untyped JSON *)

Module RawFacts.
Import Raw.

Definition id_is (s : json) (i : string) : Prop :=
  prop "id" s = Some (Some (JStr i)).

Lemma is_string_true (i : string) (v : option json) :
  is_string i v = true -> v = Some (JStr i).
Proof.
  destruct v as [[]|]; simpl; try discriminate.
  intros H. apply String.eqb_eq in H. now subst.
Qed.

Lemma source_json_id (d : MarketplaceSource) : id_is (source_json d) (Source.id d).
Proof. reflexivity. Qed.

Lemma find_id_found (i : string) (l : list json) :
  find_id i l = Some true -> exists s, In s l /\ id_is s i.
Proof.
  induction l as [|s l IH]; simpl; [discriminate|].
  destruct (prop "id" s) as [v|] eqn:Hp; simpl; [|discriminate].
  destruct (is_string i v) eqn:Hv.
  - intros _. exists s. split; [now left|].
    unfold id_is. now rewrite Hp, (is_string_true i v Hv).
  - intros H. destruct (IH H) as [s' [Hin Hid]]. exists s'. split; [now right | exact Hid].
Qed.

Lemma ensure_default_spec (l l' : list json) (d : MarketplaceSource) :
  ensure_default l d = Some l' ->
  (forall s, In s l -> In s l') /\ exists s, In s l' /\ id_is s (Source.id d).
Proof.
  unfold ensure_default. destruct (find_id (Source.id d) l) as [[]|] eqn:Hf; simpl;
    intros [= <-].
  - split; [auto | now apply find_id_found].
  - split.
    + intros s Hs. apply in_or_app. now left.
    + exists (source_json d). split; [|apply source_json_id].
      apply in_or_app. right. now left.
Qed.

Lemma ensure_defaults_spec (ds : list MarketplaceSource) (l l' : list json) :
  ensure_defaults ds l = Some l' ->
  (forall s, In s l -> In s l') /\
  (forall d, In d ds -> exists s, In s l' /\ id_is s (Source.id d)).
Proof.
  revert l. induction ds as [|d ds IH]; simpl; intros l.
  - intros [= <-]. split; [auto | intros d []].
  - destruct (ensure_default l d) as [l1|] eqn:H1; simpl; [|discriminate].
    intros H. destruct (IH l1 H) as [Hincl Hds].
    destruct (ensure_default_spec l l1 d H1) as [Hincl1 [s [Hs Hid]]].
    split; [auto|]. intros d' [<-|Hd']; [|auto].
    exists s. split; [auto | exact Hid].
Qed.

Lemma deprecated_test (v : option json) :
  existsb (fun i => is_string i v) deprecatedIds = true <->
  exists i, In i deprecatedIds /\ v = Some (JStr i).
Proof.
  rewrite existsb_exists. split.
  - intros [i [Hi Hv]]. exists i. split; [exact Hi | now apply is_string_true].
  - intros [i [Hi ->]]. exists i. split; [exact Hi | apply String.eqb_refl].
Qed.

#[local] Opaque deprecatedIds.

Lemma drop_deprecated_spec (l l' : list json) :
  drop_deprecated l = Some l' ->
  (forall s, In s l' -> In s l /\ forall i, In i deprecatedIds -> ~ id_is s i) /\
  (forall s i, In s l -> id_is s i -> ~ In i deprecatedIds -> In s l').
Proof.
  revert l'. induction l as [|s l IH]; simpl; intros l'.
  - intros [= <-]. split; [intros s [] | intros s i []].
  - destruct (prop "id" s) as [v|] eqn:Hp; simpl; [|discriminate].
    destruct (drop_deprecated l) as [kept|]; simpl; [|discriminate].
    destruct (IH kept eq_refl) as [Hsub Hkeep].
    destruct (existsb (fun i => is_string i v) deprecatedIds) eqn:Hd; intros [= <-].
    + split.
      * intros s' Hs'. destruct (Hsub s' Hs') as [Hin Hno]. split; [now right | exact Hno].
      * intros s' i [<-|Hin] Hid Hnd; [|eauto].
        exfalso. apply deprecated_test in Hd. destruct Hd as [j [Hj Hv]].
        unfold id_is in Hid. rewrite Hp, Hv in Hid. inversion Hid; subst. contradiction.
    + split.
      * intros s' [<-|Hs'].
        -- split; [now left|]. intros i Hi Hid.
           assert (Ht : existsb (fun i => is_string i v) deprecatedIds = true).
           { apply deprecated_test. exists i. split; [exact Hi|].
             unfold id_is in Hid. rewrite Hp in Hid. now inversion Hid. }
           rewrite Ht in Hd. discriminate.
        -- destruct (Hsub s' Hs') as [Hin Hno]. split; [now right | exact Hno].
      * intros s' i [<-|Hin] Hid Hnd; [now left | right; eauto].
Qed.

#[local] Transparent deprecatedIds.

Lemma assoc_set_field (key : string) (v : json) (fields : list (string * json)) :
  assoc key (set_field key v fields) = Some v.
Proof.
  induction fields as [|[k old] fields IH]; simpl.
  - now rewrite String.eqb_refl.
  - destruct (String.eqb k key) eqn:Hk; simpl; rewrite Hk; [reflexivity | exact IH].
Qed.

(** A healed value holds the healed source list. *)
Lemma heal_json_sources (config c : json) :
  heal config = Some c ->
  exists l0 l1,
    prop "sources" config = Some (Some (JArr l0)) /\
    ensure_defaults DEFAULT_MARKETPLACES l0 = Some l1 /\
    drop_deprecated l1 = Some (sources_of c).
Proof.
  unfold heal, sources_of.
  destruct (prop "sources" config) as [[[]|]|] eqn:Hp;
    cbn [mbind option_bind as_array]; try discriminate.
  destruct (ensure_defaults DEFAULT_MARKETPLACES items) as [l1|] eqn:H1;
    cbn [mbind option_bind]; [|discriminate].
  destruct (drop_deprecated l1) as [l2|] eqn:H2; cbn [mbind option_bind]; [|discriminate].
  destruct config; try discriminate. intros [= <-].
  exists items, l1. repeat split; auto.
  cbn [prop]. rewrite assoc_set_field. exact H2.
Qed.

Lemma healed (config c : json) :
  heal config = Some c ->
  (forall d, In d DEFAULT_MARKETPLACES -> has_source_id c (Source.id d)) /\
  (forall i, In i deprecatedIds -> ~ has_source_id c i).
Proof.
  intros H. destruct (heal_json_sources config c H) as [l0 [l1 [_ [H1 H2]]]].
  destruct (ensure_defaults_spec _ _ _ H1) as [_ Hds].
  destruct (drop_deprecated_spec _ _ H2) as [Hsub Hkeep].
  split.
  - intros d Hd. destruct (Hds d Hd) as [s [Hs Hid]].
    exists s. split; [|exact Hid]. apply (Hkeep s (Source.id d) Hs Hid).
    rewrite <- ManifestFacts.includes_id_spec,
      (ManifestFacts.defaults_not_deprecated d Hd). discriminate.
  - intros i Hi [s [Hs Hid]]. destruct (Hsub s Hs) as [_ Hno]. exact (Hno i Hi Hid).
Qed.

Lemma sources_of_config (c : MarketplaceConfig) :
  sources_of (config_json c) = map source_json (Config.sources c).
Proof. reflexivity. Qed.

Lemma typed_config (c : MarketplaceConfig) :
  (forall d, In d DEFAULT_MARKETPLACES ->
     exists s, In s (Config.sources c) /\ Source.id s = Source.id d) ->
  (forall s, In s (Config.sources c) -> ~ In (Source.id s) deprecatedIds) ->
  (forall d, In d DEFAULT_MARKETPLACES -> has_source_id (config_json c) (Source.id d)) /\
  (forall i, In i deprecatedIds -> ~ has_source_id (config_json c) i).
Proof.
  intros Hd Hn. unfold has_source_id. rewrite sources_of_config. split.
  - intros d Hin. destruct (Hd d Hin) as [s [Hs Hid]].
    exists (source_json s). split; [now apply in_map|].
    rewrite <- Hid. apply source_json_id.
  - intros i Hi [j [Hj Hid]]. apply in_map_iff in Hj. destruct Hj as [s [<- Hs]].
    pose proof (source_json_id s) as Hs'. unfold id_is in Hs'.
    rewrite Hs' in Hid. inversion Hid; subst. exact (Hn s Hs Hi).
Qed.

End RawFacts.

Module RawRefines.

(** On a file that holds a well-typed config, the untyped reading and
    the typed one agree. *)
Lemma find_id_typed (i : string) (l : list MarketplaceSource) :
  Raw.find_id i (map Raw.source_json l) =
  Some (match List.find (has_id i) l with Some _ => true | None => false end).
Proof.
  induction l as [|s l IH]; simpl; [reflexivity|].
  unfold has_id at 1. destruct (String.eqb (Source.id s) i); [reflexivity | exact IH].
Qed.

Lemma ensure_defaults_typed (ds l : list MarketplaceSource) :
  Raw.ensure_defaults ds (map Raw.source_json l) =
  Some (map Raw.source_json (fold_left ensure_default ds l)).
Proof.
  revert l. induction ds as [|d ds IH]; simpl; intros l; [reflexivity|].
  unfold Raw.ensure_default, ensure_default. rewrite find_id_typed.
  cbn [mbind option_bind].
  destruct (List.find (has_id (Source.id d)) l).
  - apply IH.
  - rewrite <- IH. now rewrite map_app.
Qed.

Lemma drop_deprecated_typed (l : list MarketplaceSource) :
  Raw.drop_deprecated (map Raw.source_json l) =
  Some (map Raw.source_json
          (List.filter (fun s => negb (includes_id deprecatedIds (Source.id s))) l)).
Proof.
  induction l as [|s l IH]; simpl; [reflexivity|].
  rewrite IH. simpl. rewrite (String.eqb_sym (Source.id s)).
  now destruct (String.eqb "agentskills-examples" (Source.id s)).
Qed.

Lemma loadConfig_typed (defaults c : MarketplaceConfig) :
  Raw.loadConfig defaults (Raw.Valid (Raw.config_json c)) = Raw.config_json (heal c).
Proof.
  unfold Raw.loadConfig, Raw.heal.
  cbn [Raw.config_json Raw.prop Raw.assoc String.eqb Ascii.eqb Bool.eqb].
  cbn [mbind option_bind Raw.as_array].
  rewrite ensure_defaults_typed. cbn [mbind option_bind].
  rewrite drop_deprecated_typed. reflexivity.
Qed.

End RawRefines.


(** C5: whatever the manifest file holds (nothing, text that does not
    parse, or any JSON value), the config [loadConfig] returns lists
    every built-in source by id and no source whose id is deprecated;
    with no file, or one that does not parse, it is the default config.
    It never throws.  The same holds of the typed [loadConfig] the other
    operations call. *)
Theorem loadConfig_heals (w : world) (f : Raw.file) :
  let c := Raw.loadConfig (default_config w) f in
  ((forall d, In d DEFAULT_MARKETPLACES -> Raw.has_source_id c (Source.id d)) /\
   (forall i, In i deprecatedIds -> ~ Raw.has_source_id c i) /\
   (f = Raw.NoFile \/ f = Raw.Garbage -> c = Raw.config_json (default_config w)))
  /\
  (loadConfig w = (Ok (current_config w), w) /\
   (forall d, In d DEFAULT_MARKETPLACES ->
      exists s, In s (Config.sources (current_config w)) /\ Source.id s = Source.id d) /\
   (forall s, In s (Config.sources (current_config w)) -> ~ In (Source.id s) deprecatedIds) /\
   (manifest w = Absent \/ manifest w = Unparseable -> current_config w = default_config w)).
Proof.
  intros c. split.
  - assert (Hdef : (forall d, In d DEFAULT_MARKETPLACES ->
                      Raw.has_source_id (Raw.config_json (default_config w)) (Source.id d)) /\
                   (forall i, In i deprecatedIds ->
                      ~ Raw.has_source_id (Raw.config_json (default_config w)) i)).
    { apply RawFacts.typed_config; apply ManifestFacts.default_sources. }
    subst c. destruct f as [| |j]; simpl.
    + destruct Hdef. repeat split; auto.
    + destruct Hdef. repeat split; auto.
    + destruct (Raw.heal j) as [c|] eqn:Hh; simpl.
      * destruct (RawFacts.healed j c Hh). repeat split; auto.
        intros [Hf|Hf]; discriminate Hf.
      * destruct Hdef. repeat split; auto.
  - split; [reflexivity|].
    destruct (ManifestFacts.current_sources w) as [H1 H2].
    repeat split; auto.
    unfold current_config. intros [->| ->]; reflexivity.
Qed.

(** ** Reasoning about promises *)

Module MonadFacts.

Lemma bind_ok {A B} (m : M A) (k : A -> M B) (w w' : world) (a : A) :
  m w = (Ok a, w') -> bind m k w = k a w'.
Proof. unfold bind. now intros ->. Qed.

Lemma bind_throw {A B} (m : M A) (k : A -> M B) (w w' : world) (e : error) :
  m w = (Throw e, w') -> bind m k w = (Throw e, w').
Proof. unfold bind. now intros ->. Qed.

Lemma try_ok {A} (m : M A) (h : error -> M A) (w w' : world) (a : A) :
  m w = (Ok a, w') -> try_catch m h w = (Ok a, w').
Proof. unfold try_catch. now intros ->. Qed.

Lemma try_throw {A} (m : M A) (h : error -> M A) (w w' : world) (e : error) :
  m w = (Throw e, w') -> try_catch m h w = h e w'.
Proof. unfold try_catch. now intros ->. Qed.

(** A run is its outcome and the world it leaves. *)
Lemma run_fst {A} (m : M A) (w : world) (o : outcome A) :
  (m w).1 = o -> m w = (o, (m w).2).
Proof. destruct (m w) as [o' w']. cbn. now intros ->. Qed.

(** *** What a computation leaves alone

    [frames P m]: [m] takes every world to one that [P] relates it to.
    For a reflexive and transitive [P] the property passes through the
    control structure. *)
Section Frame.
Variable P : world -> world -> Prop.
Hypothesis P_refl : forall w, P w w.
Hypothesis P_trans : forall w1 w2 w3, P w1 w2 -> P w2 w3 -> P w1 w3.

Definition frames {A} (m : M A) : Prop := forall w, P w (m w).2.

Lemma frames_ret {A} (a : A) : frames (ret a).
Proof. intros w. apply P_refl. Qed.

Lemma frames_throw {A} (e : error) : frames (@throw A e).
Proof. intros w. apply P_refl. Qed.

Lemma frames_gets {A} (f : world -> A) : frames (gets f).
Proof. intros w. apply P_refl. Qed.

Lemma frames_bind {A B} (m : M A) (k : A -> M B) :
  frames m -> (forall a, frames (k a)) -> frames (bind m k).
Proof.
  intros Hm Hk w. unfold bind. specialize (Hm w).
  destruct (m w) as [[a|e] w1]; simpl in *; [|exact Hm].
  eapply P_trans; [exact Hm | apply Hk].
Qed.

Lemma frames_try {A} (m : M A) (h : error -> M A) :
  frames m -> (forall e, frames (h e)) -> frames (try_catch m h).
Proof.
  intros Hm Hh w. unfold try_catch. specialize (Hm w).
  destruct (m w) as [[a|e] w1]; simpl in *; [exact Hm|].
  eapply P_trans; [exact Hm | apply Hh].
Qed.

Lemma frames_for_each {A} (xs : list A) (body : A -> M unit) :
  (forall x, frames (body x)) -> frames (for_each xs body).
Proof.
  intros Hb. induction xs as [|x xs IH]; simpl; [apply frames_ret|].
  apply frames_bind; auto.
Qed.

Lemma frames_all_of {A B} (f : A -> M B) (xs : list A) :
  (forall x, frames (f x)) -> frames (all_of f xs).
Proof.
  intros Hf. induction xs as [|x xs IH]; simpl; [apply frames_ret|].
  apply frames_bind; [apply Hf|]. intros y.
  apply frames_bind; [apply IH|]. intros ys. apply frames_ret.
Qed.
End Frame.

(** *** Two runs side by side

    [sim R m]: from worlds related by [R], [m] returns the same outcome
    and leaves worlds related by [R]. *)
Section Sim.
Variable R : world -> world -> Prop.








End Sim.

End MonadFacts.

(** ** checkUpdates *)

Module UpdateFacts.

Lemma hasUpdate_spec (i : InstalledSkill) (r : MarketplaceSkill) :
  hasUpdate (update_info i r) = true <->
  exists v, Remote.version r = Some v /\ v <> "" /\ Installed.version i <> Some v.
Proof.
  unfold update_info, version_differs, truthy, falsy. cbn [hasUpdate].
  rewrite andb_true_iff, !negb_true_iff. split.
  - intros [Hd Ht]. destruct (Remote.version r) as [v|]; [|discriminate].
    exists v. apply String.eqb_neq in Ht. apply bool_decide_eq_false in Hd.
    repeat split; auto.
  - intros [v [-> [Hne Hd]]]. split.
    + apply bool_decide_eq_false. congruence.
    + now apply String.eqb_neq.
Qed.

(** One turn of the scan: the entry it appends for [i], if any, and the
    world it leaves. *)
Definition check_one (i : InstalledSkill) (w : world) : option UpdateInfo * world :=
  match Installed.source i with
  | None => (None, w)
  | Some source =>
      match fetchSkillsFromSource source w with
      | (Ok skills, w1) =>
          (update_info i <$> List.find (remote_named (Installed.name i)) skills, w1)
      | (Throw _, w1) => (None, w1)
      end
  end.

(** The installed skills, each with the world its turn comes in: the
    first in the world of the call, the next in the world the scan of
    the first leaves, and so on. *)
Fixpoint turns (installed : list InstalledSkill) (w : world)
  : list (InstalledSkill * world) :=
  match installed with
  | [] => []
  | i :: rest => (i, w) :: turns rest (check_installed [i] [] w).2
  end.

Lemma check_single (i : InstalledSkill) (w : world) :
  (check_installed [i] [] w).2 = (check_one i w).2.
Proof.
  cbn [check_installed]. unfold check_one.
  destruct (Installed.source i) as [source|]; [|reflexivity].
  unfold bind at 1, try_catch. unfold bind at 1.
  destruct (fetchSkillsFromSource source w) as [[skills|e] w1]; [|reflexivity].
  now destruct (List.find (remote_named (Installed.name i)) skills).
Qed.

Definition entry_of (turn : InstalledSkill * world) : option UpdateInfo :=
  (check_one turn.1 turn.2).1.

Lemma check_installed_turns (installed : list InstalledSkill) :
  forall updates w,
    (check_installed installed updates w).1
    = Ok (updates ++ omap entry_of (turns installed w)).
Proof.
  induction installed as [|i rest IH]; intros updates w; cbn [turns].
  - cbn. now rewrite app_nil_r.
  - rewrite check_single. cbn [check_installed].
    change (omap entry_of ((i, w) :: turns rest (check_one i w).2))
      with (match (check_one i w).1 with
            | Some u => u :: omap entry_of (turns rest (check_one i w).2)
            | None => omap entry_of (turns rest (check_one i w).2)
            end).
    destruct (Installed.source i) as [source|] eqn:Hs.
    2:{ assert (Hstep : check_one i w = (None, w)) by (unfold check_one; now rewrite Hs).
        rewrite Hstep. apply IH. }
    unfold bind at 1, try_catch. unfold bind at 1.
    destruct (fetchSkillsFromSource source w) as [[skills|e] w1] eqn:Hf.
    + assert (Hstep : check_one i w =
                      (update_info i <$> List.find (remote_named (Installed.name i)) skills,
                       w1)) by (unfold check_one; now rewrite Hs, Hf).
      rewrite Hstep. cbn [fst snd].
      destruct (List.find (remote_named (Installed.name i)) skills) as [remote|];
        cbn [ret fmap option_fmap option_map].
      * rewrite IH. now rewrite <- app_assoc.
      * apply IH.
    + assert (Hstep : check_one i w = (None, w1)) by (unfold check_one; now rewrite Hs, Hf).
      rewrite Hstep. cbn [ret fst snd]. apply IH.
Qed.

Lemma entry_of_spec (i : InstalledSkill) (w0 : world) (u : UpdateInfo) :
  entry_of (i, w0) = Some u <->
  exists source skills w1 remote,
    Installed.source i = Some source /\
    fetchSkillsFromSource source w0 = (Ok skills, w1) /\
    List.find (remote_named (Installed.name i)) skills = Some remote /\
    u = update_info i remote.
Proof.
  unfold entry_of, check_one. cbn [fst snd]. split.
  - destruct (Installed.source i) as [source|]; [|discriminate].
    destruct (fetchSkillsFromSource source w0) as [[skills|e] w1] eqn:Hf; [|discriminate].
    destruct (List.find _ skills) as [remote|] eqn:Hr; [|discriminate].
    intros [= <-]. now exists source, skills, w1, remote.
  - intros [source [skills [w1 [remote [-> [-> [-> ->]]]]]]]. reflexivity.
Qed.

End UpdateFacts.

(** C3 as written fails on an empty version string: the index lists
    [pdf] with version [""], a defined string that differs from the
    installed ["1.0"], and [hasUpdate] is false. *)
Lemma hasUpdate_empty_version_counterexample :
  exists u w',
    checkUpdates (Sample.update_world (Some "")) = (Ok [u], w') /\
    currentVersion u = Some "1.0" /\
    latestVersion u = Some "" /\
    latestVersion u <> currentVersion u /\
    hasUpdate u = false.
Proof.
  eexists. eexists. split; [vm_compute; reflexivity|].
  repeat split. discriminate.
Qed.

(** C3 (amended): [checkUpdates] never throws.  Every installed skill
    for which the listing of its source, fetched at its turn of the
    scan, holds a candidate of its name gets its entry; every entry
    stands for such a skill and candidate; and [hasUpdate] is true
    exactly when the candidate's version is a defined, non-empty string
    different from the installed version.  An undefined remote version
    never flags an update. *)
Theorem checkUpdates_hasUpdate (w : world) :
  let installed := Config.installed (current_config w) in
  exists updates w',
    checkUpdates w = (Ok updates, w') /\
    (forall i w0 source skills w1 remote,
       In (i, w0) (UpdateFacts.turns installed w) ->
       Installed.source i = Some source ->
       fetchSkillsFromSource source w0 = (Ok skills, w1) ->
       List.find (remote_named (Installed.name i)) skills = Some remote ->
       In {| skill := i;
             currentVersion := Installed.version i;
             latestVersion := Remote.version remote;
             hasUpdate := hasUpdate (update_info i remote) |} updates) /\
    (forall u, In u updates ->
       exists w0 source skills w1 remote,
         In (skill u, w0) (UpdateFacts.turns installed w) /\
         Installed.source (skill u) = Some source /\
         fetchSkillsFromSource source w0 = (Ok skills, w1) /\
         List.find (remote_named (Installed.name (skill u))) skills = Some remote /\
         currentVersion u = Installed.version (skill u) /\
         latestVersion u = Remote.version remote) /\
    (forall u, In u updates ->
       (hasUpdate u = true <->
        exists v, latestVersion u = Some v /\ v <> "" /\ currentVersion u <> Some v) /\
       (latestVersion u = None -> hasUpdate u = false)).
Proof.
  intros installed. unfold checkUpdates. unfold bind. rewrite ManifestFacts.loadConfig_run.
  fold installed.
  pose proof (UpdateFacts.check_installed_turns installed [] w) as Hrun. cbn [app] in Hrun.
  exists (omap UpdateFacts.entry_of (UpdateFacts.turns installed w)),
    (check_installed installed [] w).2.
  split; [now apply MonadFacts.run_fst|].
  assert (Hsound : forall u,
            In u (omap UpdateFacts.entry_of (UpdateFacts.turns installed w)) ->
            exists i w0 source skills w1 remote,
              In (i, w0) (UpdateFacts.turns installed w) /\
              Installed.source i = Some source /\
              fetchSkillsFromSource source w0 = (Ok skills, w1) /\
              List.find (remote_named (Installed.name i)) skills = Some remote /\
              u = update_info i remote).
  { intros u Hu. apply list_elem_of_In, list_elem_of_omap in Hu as [[i w0] [Hin Hu]].
    apply UpdateFacts.entry_of_spec in Hu as [source [skills [w1 [remote H]]]].
    exists i, w0, source, skills, w1, remote. split; [now apply list_elem_of_In | exact H]. }
  split; [|split].
  - intros i w0 source skills w1 remote Hin Hs Hf Hr.
    apply list_elem_of_In, list_elem_of_omap. exists (i, w0).
    split; [now apply list_elem_of_In|].
    apply UpdateFacts.entry_of_spec. now exists source, skills, w1, remote.
  - intros u Hu.
    destruct (Hsound u Hu) as [i [w0 [source [skills [w1 [remote [Hin [Hs [Hf [Hr ->]]]]]]]]]].
    exists w0, source, skills, w1, remote. cbn [skill update_info currentVersion latestVersion].
    auto 10.
  - intros u Hu.
    destruct (Hsound u Hu) as [i [w0 [source [skills [w1 [remote [_ [_ [_ [_ ->]]]]]]]]]].
    split.
    + apply UpdateFacts.hasUpdate_spec.
    + cbn [latestVersion update_info hasUpdate]. intros ->. apply andb_false_r.
Qed.

(** The installed [pdf] at 1.0 against the listed 1.1: the entry is
    there, and it flags the update. *)
Lemma checkUpdates_hasUpdate_witness :
  exists updates w',
    checkUpdates (Sample.update_world (Some "1.1")) = (Ok updates, w') /\
    In {| skill := Sample.installed_pdf (Some "1.0");
          currentVersion := Some "1.0"; latestVersion := Some "1.1";
          hasUpdate := true |} updates.
Proof.
  destruct (checkUpdates_hasUpdate (Sample.update_world (Some "1.1")))
    as [updates [w' [Hrun [Hall _]]]].
  exists updates, w'. split; [exact Hrun|].
  refine (Hall (Sample.installed_pdf (Some "1.0")) (Sample.update_world (Some "1.1"))
            Sample.anthropic
            [index_skill Sample.anthropic (Sample.index_entry "pdf" (Some "1.1"))]
            _ (index_skill Sample.anthropic (Sample.index_entry "pdf" (Some "1.1")))
            _ eq_refl (MonadFacts.run_fst _ _ _ _) eq_refl).
  - left. reflexivity.
  - vm_compute. reflexivity.
Defined.

(** The two cases the specification names: 1.0 against 1.1, and 1.0
    against no remote version. *)
Example checkUpdates_newer_version :
  (checkUpdates (Sample.update_world (Some "1.1"))).1 =
  Ok [ {| skill := Sample.installed_pdf (Some "1.0");
          currentVersion := Some "1.0"; latestVersion := Some "1.1";
          hasUpdate := true |} ].
Proof. vm_compute. reflexivity. Qed.

Example checkUpdates_no_remote_version :
  (checkUpdates (Sample.update_world None)).1 =
  Ok [ {| skill := Sample.installed_pdf (Some "1.0");
          currentVersion := Some "1.0"; latestVersion := None;
          hasUpdate := false |} ].
Proof. vm_compute. reflexivity. Qed.

(** ** The resolver cache *)

Module CacheFacts.
Import MonadFacts.

(** The cache and the clock stay as they are. *)
Definition keeps_cache (w w' : world) : Prop :=
  skillsCache w' = skillsCache w /\ now w' = now w.

Lemma keeps_cache_refl (w : world) : keeps_cache w w.
Proof. now split. Qed.

Lemma keeps_cache_trans (w1 w2 w3 : world) :
  keeps_cache w1 w2 -> keeps_cache w2 w3 -> keeps_cache w1 w3.
Proof. unfold keeps_cache. intros [-> ->] [-> ->]. now split. Qed.

#[local] Hint Resolve keeps_cache_refl keeps_cache_trans : core.

Lemma fetch_keeps_cache (rq : request) : frames keeps_cache (fetch rq).
Proof. intros w. unfold fetch. destruct (net w rq); now split. Qed.

Lemma fetch_dir_keeps_cache source branch dir :
  frames keeps_cache (fetch_dir source branch dir).
Proof.
  unfold fetch_dir. apply frames_try; eauto.
  - apply frames_bind; eauto using fetch_keeps_cache.
    intros r. destruct (ok r); [|apply frames_ret; auto].
    destruct (frontmatter _); apply frames_ret; auto.
  - intros e. apply frames_ret; auto.
Qed.

Lemma fetch_batches_keeps_cache fuel source branch dirs skills :
  frames keeps_cache (fetch_batches fuel source branch dirs skills).
Proof.
  revert dirs skills. induction fuel as [|fuel IH]; intros dirs skills.
  - destruct dirs; apply frames_ret; auto.
  - destruct dirs as [|d dirs]; [apply frames_ret; auto|].
    cbn [fetch_batches]. apply frames_bind; eauto.
    apply frames_all_of; eauto. intros x. apply fetch_dir_keeps_cache.
Qed.

(** What a returning fetch leaves in the cache. *)
Definition stored (source : MarketplaceSource) (skills : list MarketplaceSkill)
    (w w' : world) : Prop :=
  skillsCache w' !! cache_key source = Some (skills, now w) /\ now w' = now w.

Lemma set_stores source skills w0 w :
  keeps_cache w0 w ->
  stored source skills w0
    (set_skillsCache (<[cache_key source := (skills, now w)]> (skillsCache w)) w).
Proof.
  intros [Hc Hn]. split; cbn [skillsCache now set_skillsCache]; [|exact Hn].
  rewrite Hn. apply lookup_insert_eq.
Qed.

Lemma fetch_index_outcome source w :
  match fetch_index source w with
  | (Ok (Some skills), w') => stored source skills w w'
  | (Ok None, w') => keeps_cache w w'
  | (Throw _, _) => False
  end.
Proof.
  unfold fetch_index, try_catch. unfold bind at 1.
  match goal with |- context [fetch ?rq w] => pose proof (fetch_keeps_cache rq w) as Hk;
    destruct (fetch rq w) as [[r|e] w1] end; cbn [snd] in Hk; cbn [ret]; [|exact Hk].
  destruct (ok r); [|exact Hk].
  unfold bind, json_index.
  destruct (payload r); cbn [ret throw]; try exact Hk.
  rewrite (surjective_pairing (skillsCache_set _ _ w1)). cbn.
  now apply set_stores.
Qed.

Lemma fetch_listing_stores source w skills w' :
  fetch_listing source w = (Ok skills, w') -> stored source skills w w'.
Proof.
  unfold fetch_listing, try_catch. unfold bind at 1.
  match goal with |- context [fetch ?rq w] => pose proof (fetch_keeps_cache rq w) as Hk;
    destruct (fetch rq w) as [[r|e] w1] end; cbn [snd] in Hk; [|discriminate].
  destruct (ok r); cbn [negb]; [|discriminate].
  unfold bind at 1. unfold json_listing.
  destruct (payload r); cbn [ret throw]; try discriminate.
  unfold bind at 1.
  match goal with |- context [fetch_batches ?f ?s ?b ?d ?k w1] =>
    pose proof (fetch_batches_keeps_cache f s b d k w1) as Hb;
    destruct (fetch_batches f s b d k w1) as [[found|e] w2] end;
    cbn [snd] in Hb; [|discriminate].
  cbn. intros [= <- <-]. apply set_stores. eauto.
Qed.

Lemma fetch_fresh_stores source w skills w' :
  fetch_fresh source w = (Ok skills, w') -> stored source skills w w'.
Proof.
  unfold fetch_fresh, bind. pose proof (fetch_index_outcome source w) as Hi.
  destruct (fetch_index source w) as [[[found|]|e] w1]; [| |contradiction].
  - cbn. now intros [= <- <-].
  - intros H. apply fetch_listing_stores in H. destruct Hi as [Hc Hn].
    destruct H as [Hs Hn']. split; [now rewrite <- Hn | now rewrite Hn'].
Qed.

(** A fresh entry is served as it is: no fetch, no change. *)
Lemma cache_hit source w skills timestamp :
  skillsCache w !! cache_key source = Some (skills, timestamp) ->
  now w - timestamp < CACHE_TTL ->
  fetchSkillsFromSource source w = (Ok skills, w).
Proof.
  intros Hc Hfresh. unfold fetchSkillsFromSource, bind, gets, date_now. cbn.
  rewrite Hc. apply Z.ltb_lt in Hfresh. now rewrite Hfresh.
Qed.

(** An entry of age [CACHE_TTL] or more is not served. *)
Lemma cache_stale source w skills timestamp :
  skillsCache w !! cache_key source = Some (skills, timestamp) ->
  CACHE_TTL <= now w - timestamp ->
  fetchSkillsFromSource source w = fetch_fresh source w.
Proof.
  intros Hc Hstale. unfold fetchSkillsFromSource, bind, gets, date_now. cbn.
  rewrite Hc. apply Z.ltb_ge in Hstale. now rewrite Hstale.
Qed.

Lemma cache_miss source w :
  skillsCache w !! cache_key source = None ->
  fetchSkillsFromSource source w = fetch_fresh source w.
Proof.
  intros Hc. unfold fetchSkillsFromSource, bind, gets, date_now. cbn. now rewrite Hc.
Qed.

(** Whatever a call returns is in the cache when it returns. *)
Lemma returned_is_cached source w skills w' :
  fetchSkillsFromSource source w = (Ok skills, w') ->
  exists timestamp,
    skillsCache w' !! cache_key source = Some (skills, timestamp) /\
    now w' - timestamp < CACHE_TTL.
Proof.
  destruct (skillsCache w !! cache_key source) as [[old ts]|] eqn:Hc.
  - destruct (Z.ltb_spec (now w - ts) CACHE_TTL) as [Hfresh|Hstale].
    + rewrite (cache_hit source w old ts Hc Hfresh). intros [= <- <-]. eauto.
    + rewrite (cache_stale source w old ts Hc Hstale). intros H.
      apply fetch_fresh_stores in H. destruct H as [Hs Hn].
      exists (now w). split; [exact Hs|]. rewrite Hn. unfold CACHE_TTL. lia.
  - rewrite (cache_miss source w Hc). intros H.
    apply fetch_fresh_stores in H. destruct H as [Hs Hn].
    exists (now w). split; [exact Hs|]. rewrite Hn. unfold CACHE_TTL. lia.
Qed.

End CacheFacts.

Module MPFacts.

Definition mp_key (options : SkillsMPOptions) : string :=
  mp_cache_key (default "" (opt_search options)) (default 1 (opt_page options))
    (default 50 (opt_limit options)) (default "stars" (opt_sortBy options)).

Lemma mp_hit options w data timestamp :
  cache w !! mp_key options = Some (data, timestamp) ->
  now w - timestamp < CACHE_TTL ->
  fetchSkillsMP options w = (Ok {| skills := data; total := 0; hasNext := false |}, w).
Proof.
  intros Hc Hfresh. unfold fetchSkillsMP, bind, gets, date_now. cbn.
  fold (mp_key options). rewrite Hc. apply Z.ltb_lt in Hfresh. now rewrite Hfresh.
Qed.

Lemma mp_returned_is_cached options w page w' :
  fetchSkillsMP options w = (Ok page, w') ->
  exists timestamp,
    cache w' !! mp_key options = Some (skills page, timestamp) /\
    now w' - timestamp < CACHE_TTL.
Proof.
  unfold fetchSkillsMP, bind, gets, date_now. cbn. fold (mp_key options).
  set (refetch := fun w0 : world => match fetch _ w0 with (Ok a, w1) => _ | (Throw e, w1) => _ end).
  assert (Hre : refetch w = (Ok page, w') ->
                exists timestamp,
                  cache w' !! mp_key options = Some (skills page, timestamp) /\
                  now w' - timestamp < CACHE_TTL).
  { subst refetch. cbv beta. unfold fetch.
    destruct (net w _) as [r|]; [|discriminate].
    destruct (ok r); cbn [negb]; [|discriminate].
    destruct (payload r) as [?|[|? ?]|?|data|]; try discriminate.
    cbn. destruct (mp_pagination data); [|discriminate].
    intros [= <- <-]. exists (now w). cbn. split.
    - apply lookup_insert_eq.
    - unfold CACHE_TTL. lia. }
  destruct (cache w !! mp_key options) as [[data ts]|] eqn:Hc; [|exact Hre].
  destruct (Z.ltb_spec (now w - ts) CACHE_TTL) as [Hfresh|Hstale]; [|exact Hre].
  intros [= <- <-]. exists ts. now split.
Qed.

End MPFacts.

(** C4, at the input where the code departs from it: two calls of
    [fetchSkillsMP] with the same options, one second apart.  The first
    reports 120 skills in all and a next page; the second, served from
    the cache, reports the same skills with a total of 0 and no next
    page. *)
Theorem fetchSkillsMP_cached_page_differs :
  let first := fetchSkillsMP Sample.no_options Sample.mp_world in
  let second := fetchSkillsMP Sample.no_options
                  (later (now first.2 + 1000) Sample.mp_net first.2) in
  exists found,
    first.1 = Ok {| skills := found; total := 120; hasNext := true |} /\
    second.1 = Ok {| skills := found; total := 0; hasNext := false |} /\
    first.1 <> second.1.
Proof.
  eexists. split; [vm_compute; reflexivity|]. split; [vm_compute; reflexivity|].
  vm_compute. discriminate.
Qed.

(** A second call of [fetchSkillsFromSource] for the same source, made
    while the entry is less than [CACHE_TTL] old, returns the same skills
    and leaves the world as it is: no request is sent, whatever the
    remote side would now answer. *)
Theorem fetchSkillsFromSource_idempotent source w found w1 :
  fetchSkillsFromSource source w = (Ok found, w1) ->
  exists timestamp,
    skillsCache w1 !! cache_key source = Some (found, timestamp) /\
    now w1 - timestamp < CACHE_TTL /\
    forall t remote,
      t - timestamp < CACHE_TTL ->
      fetchSkillsFromSource source (later t remote w1) = (Ok found, later t remote w1).
Proof.
  intros H. destruct (CacheFacts.returned_is_cached source w found w1 H) as [ts [Hc Hfresh]].
  exists ts. repeat split; auto.
  intros t remote Ht. now apply (CacheFacts.cache_hit source (later t remote w1) found ts).
Qed.

Lemma fetchSkillsFromSource_idempotent_witness :
  exists found w1 timestamp,
    fetchSkillsFromSource Sample.anthropic (Sample.update_world (Some "2")) = (Ok found, w1) /\
    skillsCache w1 !! cache_key Sample.anthropic = Some (found, timestamp) /\
    fetchSkillsFromSource Sample.anthropic (later (timestamp + 1000) (fun _ => None) w1)
      = (Ok found, later (timestamp + 1000) (fun _ => None) w1).
Proof.
  destruct (fetchSkillsFromSource Sample.anthropic (Sample.update_world (Some "2")))
    as [[found|e] w1] eqn:Hrun; [|vm_compute in Hrun; discriminate Hrun].
  destruct (fetchSkillsFromSource_idempotent _ _ _ _ Hrun) as [ts [Hc [_ Hagain]]].
  exists found, w1, ts. repeat split; auto.
  apply Hagain. unfold CACHE_TTL. lia.
Defined.

(** The same for [fetchSkillsMP], as far as the skills go. *)
Theorem fetchSkillsMP_idempotent options w page w1 :
  fetchSkillsMP options w = (Ok page, w1) ->
  exists timestamp,
    cache w1 !! MPFacts.mp_key options = Some (skills page, timestamp) /\
    forall t remote,
      t - timestamp < CACHE_TTL ->
      exists again,
        fetchSkillsMP options (later t remote w1) = (Ok again, later t remote w1) /\
        skills again = skills page.
Proof.
  intros H. destruct (MPFacts.mp_returned_is_cached options w page w1 H) as [ts [Hc _]].
  exists ts. split; [exact Hc|]. intros t remote Ht.
  exists {| skills := skills page; total := 0; hasNext := false |}.
  split; [|reflexivity].
  now apply (MPFacts.mp_hit options (later t remote w1) (skills page) ts).
Qed.

Lemma fetchSkillsMP_idempotent_witness :
  exists page w1 again,
    fetchSkillsMP Sample.no_options Sample.mp_world = (Ok page, w1) /\
    fetchSkillsMP Sample.no_options (later 2000 (fun _ => None) w1)
      = (Ok again, later 2000 (fun _ => None) w1) /\
    skills again = skills page.
Proof.
  destruct (fetchSkillsMP Sample.no_options Sample.mp_world)
    as [[page|e] w1] eqn:Hrun; [|vm_compute in Hrun; discriminate Hrun].
  destruct (fetchSkillsMP_idempotent _ _ _ _ Hrun) as [ts [Hc Hagain]].
  assert (Hts : ts = 1000).
  { vm_compute in Hrun. inversion Hrun; subst. vm_compute in Hc. now inversion Hc. }
  destruct (Hagain 2000 (fun _ => None)) as [again [Ha Hs]].
  { subst ts. unfold CACHE_TTL. lia. }
  exists page, w1, again. auto.
Defined.

(** An entry of age [CACHE_TTL] or more is not served: the call is the
    fresh fetch, and when that returns, the entry holds what it returned,
    stamped with the time of the call. *)
Theorem stale_entry_refetched source w old timestamp :
  skillsCache w !! cache_key source = Some (old, timestamp) ->
  CACHE_TTL <= now w - timestamp ->
  fetchSkillsFromSource source w = fetch_fresh source w /\
  forall found w',
    fetchSkillsFromSource source w = (Ok found, w') ->
    skillsCache w' !! cache_key source = Some (found, now w).
Proof.
  intros Hc Hstale. rewrite (CacheFacts.cache_stale source w old timestamp Hc Hstale).
  split; [reflexivity|]. intros found w' H.
  now destruct (CacheFacts.fetch_fresh_stores source w found w' H).
Qed.

(** ** The file tree *)

Module FsFacts.

Lemma world_eta (w : world) :
  {| fs := fs w; manifest := manifest w; skillsCache := skillsCache w; cache := cache w;
     now := now w; net := net w; git := git w; home := home w; cwd := cwd w;
     fetches := fetches w; console := console w; globOrder := globOrder w |} = w.
Proof. now destruct w. Qed.

Lemma set_console_same (w : world) : set_console (console w) w = w.
Proof. apply world_eta. Qed.

Lemma set_fs_same (w : world) : set_fs (fs w) w = w.
Proof. apply world_eta. Qed.

(** *** Paths *)

Lemma normalize_onto_canonical (rest : path) :
  forall done, canonical rest = true -> normalize_onto done rest = done ++ rest.
Proof.
  induction rest as [|seg rest IH]; intros done; simpl.
  - now rewrite app_nil_r.
  - unfold ordinary. intros H. apply andb_true_iff in H as [Hs Hr].
    apply negb_true_iff in Hs. apply orb_false_iff in Hs as [Hs Hdd].
    rewrite Hs, Hdd. rewrite IH by exact Hr. now rewrite <- app_assoc.
Qed.

Lemma normalize_canonical (p : path) : canonical p = true -> normalize p = p.
Proof. intros H. unfold normalize. now rewrite normalize_onto_canonical. Qed.

Lemma canonical_app (p q : path) :
  canonical (p ++ q) = canonical p && canonical q.
Proof. unfold canonical. apply forallb_app. Qed.

Lemma removelast_prefix (p : path) : removelast p `prefix_of` p.
Proof.
  induction p as [|a p IH]; [reflexivity|]. destruct p as [|b p]; [apply prefix_nil|].
  change (removelast (a :: b :: p)) with (a :: removelast (b :: p)). now apply prefix_cons.
Qed.

Lemma prefix_snoc (q p : path) (seg : string) :
  q `prefix_of` p ++ [seg] -> q = p ++ [seg] \/ q `prefix_of` p.
Proof.
  intros [k Hk]. destruct k as [|x k _] using rev_ind.
  - left. now rewrite app_nil_r in Hk.
  - right. rewrite app_assoc in Hk. apply app_inj_tail in Hk as [Hk _]. now exists k.
Qed.

Lemma canonical_removelast (p : path) :
  canonical p = true -> canonical (removelast p) = true.
Proof.
  induction p as [|seg p IH]; [reflexivity|]. destruct p as [|seg' p]; [reflexivity|].
  change (removelast (seg :: seg' :: p)) with (seg :: removelast (seg' :: p)).
  unfold canonical in *. cbn [forallb]. intros H. apply andb_true_iff in H as [Hs Hr].
  rewrite Hs. apply IH. exact Hr.
Qed.

Lemma canonical_normalize_onto (rest : path) :
  forall done, canonical done = true -> canonical (normalize_onto done rest) = true.
Proof.
  induction rest as [|seg rest IH]; intros done Hd; simpl; [exact Hd|].
  destruct (String.eqb seg "" || String.eqb seg ".") eqn:Hdot; [now apply IH|].
  destruct (String.eqb seg "..") eqn:Hup.
  - apply IH. now apply canonical_removelast.
  - apply IH. rewrite canonical_app, Hd. unfold canonical, ordinary. cbn [forallb].
    now rewrite Hdot, Hup.
Qed.

Lemma canonical_normalize (p : path) : canonical (normalize p) = true.
Proof. now apply canonical_normalize_onto. Qed.

Lemma split_single (sep : ascii) (s : string) :
  Str.has_char (Ascii.eqb sep) s = false -> Js.split sep s = [s].
Proof.
  induction s as [|c s IH]; simpl; [reflexivity|].
  intros H. apply orb_false_iff in H as [Hc Hs].
  rewrite Ascii.eqb_sym in Hc. rewrite Hc, (IH Hs). reflexivity.
Qed.

(** [path.join] with one more ordinary name goes one level down. *)
Lemma join_single (p : path) (name : string) :
  canonical p = true -> single_segment name = true -> join p name = p ++ [name].
Proof.
  unfold single_segment, join. intros Hp H. apply andb_true_iff in H as [Ho Hs].
  apply negb_true_iff in Hs. rewrite (split_single _ _ Hs).
  apply normalize_canonical. rewrite canonical_app, Hp. unfold canonical. cbn.
  now rewrite Ho.
Qed.



Lemma join_canonical (p : path) (name : string) : canonical (join p name) = true.
Proof. apply canonical_normalize. Qed.

(** *** mkdir *)




(** After [mkdir] the place the path leads to is a directory, and so is
    every place above it. *)
Lemma mkdirs_reaches (rest : path) :
  forall (done : path) (f f' : gmap path node),
    mkdirs done rest f = (true, f') ->
    (forall q, q `prefix_of` done -> q <> [] -> f !! q = Some Dir) ->
    forall q, q `prefix_of` normalize_onto done rest -> q <> [] -> f' !! q = Some Dir.
Proof.
  induction rest as [|seg rest IH]; intros done f f'; simpl.
  - intros [= <-] Hinv. exact Hinv.
  - destruct (String.eqb seg "" || String.eqb seg ".") eqn:Hdot.
    { intros H Hinv. now apply (IH _ _ _ H). }
    destruct (String.eqb seg "..") eqn:Hup.
    { intros H Hinv. apply (IH _ _ _ H). intros q Hq Hne. apply Hinv; [|exact Hne].
      etransitivity; [exact Hq | apply removelast_prefix]. }
    assert (Hstep : mkdirs (done ++ [seg]) rest (<[done ++ [seg] := Dir]> f) = (true, f') ->
              (forall q, q `prefix_of` done -> q <> [] -> f !! q = Some Dir) ->
              forall q, q `prefix_of` normalize_onto (done ++ [seg]) rest -> q <> [] ->
                        f' !! q = Some Dir).
    { intros H Hinv. apply (IH _ _ _ H). intros q Hq Hne.
      destruct (decide (done ++ [seg] = q)) as [<-|Hneq]; [apply lookup_insert_eq|].
      rewrite lookup_insert_ne by exact Hneq. apply Hinv; [|exact Hne].
      destruct (prefix_snoc _ _ _ Hq) as [Hq'|Hq']; [congruence | exact Hq']. }
    destruct (f !! (done ++ [seg])) as [[|t]|] eqn:Hq; [exact Hstep | discriminate | exact Hstep].
Qed.


(** *** rm *)

(** The world [rm] leaves. *)
Definition after_rm (p : path) (w : world) : world := (rm p w).2.

Lemma rm_run (p : path) (w : world) : rm p w = (Ok tt, after_rm p w).
Proof. reflexivity. Qed.

Lemma fs_after_rm (p : path) (w : world) : fs (after_rm p w) = rm_rf p (fs w).
Proof.
  unfold after_rm, rm, modify. cbn. now destruct (bool_decide _).
Qed.

Lemma after_rm_clear (p : path) (w : world) :
  ~ p `prefix_of` CONFIG_FILE w -> after_rm p w = set_fs (rm_rf p (fs w)) w.
Proof.
  intros H. unfold after_rm, rm, modify. cbn. now rewrite bool_decide_eq_false_2.
Qed.

Lemma after_rm_covering (p : path) (w : world) :
  p `prefix_of` CONFIG_FILE w ->
  after_rm p w = set_manifest Absent (set_fs (rm_rf p (fs w)) w).
Proof.
  intros H. unfold after_rm, rm, modify. cbn. now rewrite bool_decide_eq_true_2.
Qed.

Lemma rm_rf_below (p q : path) (f : gmap path node) :
  p `prefix_of` q -> rm_rf p f !! q = None.
Proof.
  intros Hp. unfold rm_rf. apply map_lookup_filter_None. right.
  intros x _ Hn. apply Hn. exact Hp.
Qed.

Lemma rm_rf_elsewhere (p q : path) (f : gmap path node) :
  ~ p `prefix_of` q -> rm_rf p f !! q = f !! q.
Proof.
  intros Hp. unfold rm_rf. destruct (f !! q) as [x|] eqn:Hq.
  - apply map_lookup_filter_Some. split; [exact Hq | exact Hp].
  - apply map_lookup_filter_None. now left.
Qed.

Lemma node_at_lookup (f : gmap path node) (p : path) :
  p <> [] -> node_at f p = f !! p.
Proof. now destruct p. Qed.

End FsFacts.

(** ** discoverSkills *)

Module LoaderFacts.
Import MonadFacts FsFacts.

Lemma loadSkillMetadata_run (p : path) (w : world) :
  loadSkillMetadata p w = (load_outcome (fs w) p, w).
Proof.
  unfold loadSkillMetadata, load_outcome, bind, existsSync, gets, readFile.
  destruct (node_at (fs w) p) as [[|t]|] eqn:Hn; cbn; rewrite ?Hn; try reflexivity.
  destruct (matter t) as [data|]; [|reflexivity].
  now destruct (falsy (name data) || falsy (description data)).
Qed.

(** The reference a document yields, and the warning it draws. *)
Definition ref_of (f : gmap path node) (p : path) : option SkillRef :=
  match load_outcome f p with
  | Ok (Some md) => Some (skill_ref md p)
  | _ => None
  end.

Definition warning_of (f : gmap path node) (p : path) : option string :=
  match load_outcome f p with
  | Throw _ => Some ("Warning: Could not load skill at " ^^ path_string p)
  | Ok _ => None
  end.

Lemma discover_files_run (files : list path) :
  forall (found : list SkillRef) (w : world),
    discover_files files found w =
    (Ok (found ++ omap (ref_of (fs w)) files),
     set_console (console w ++ omap (warning_of (fs w)) files) w).
Proof.
  induction files as [|p files IH]; intros found w; simpl.
  - now rewrite !app_nil_r, set_console_same.
  - unfold bind at 1, try_catch. unfold bind at 1.
    rewrite loadSkillMetadata_run. unfold ref_of at 1, warning_of at 1.
    destruct (load_outcome (fs w) p) as [[md|]|e]; cbn.
    + rewrite IH. cbn. now rewrite <- app_assoc.
    + rewrite IH. reflexivity.
    + rewrite IH. cbn. now rewrite <- app_assoc.
Qed.

Definition found_under (w : world) (depth : Z) (root : path) : list SkillRef :=
  omap (ref_of (fs w)) (glob_skill_md w root depth).

Definition warned_under (w : world) (depth : Z) (root : path) : list string :=
  omap (warning_of (fs w)) (glob_skill_md w root depth).

Lemma discover_roots_run (depth : Z) (roots : list path) :
  forall (found : list SkillRef) (w : world),
    discover_roots depth roots found w =
    (Ok (found ++ flat_map (found_under w depth) (map normalize roots)),
     set_console (console w ++ flat_map (warned_under w depth) (map normalize roots)) w).
Proof.
  induction roots as [|root roots IH]; intros found w; simpl.
  - now rewrite !app_nil_r, set_console_same.
  - unfold bind at 1, try_catch. unfold bind at 1. cbn [gets].
    rewrite discover_files_run. rewrite IH. cbn.
    unfold found_under at 2, warned_under at 2. now rewrite <- !app_assoc.
Qed.

Lemma below_spec (base : path) :
  forall p rest, below base p = Some rest <-> p = base ++ rest.
Proof.
  induction base as [|b base IH]; intros p rest; simpl.
  - split; congruence.
  - destruct p as [|seg p]; [split; discriminate|].
    destruct (String.eqb_spec b seg) as [<-|Hne].
    + rewrite IH. split; congruence.
    + split; [discriminate | congruence].
Qed.

Lemma last_snoc_removelast (rest : path) (seg : string) :
  last rest = Some seg <-> rest = removelast rest ++ [seg].
Proof.
  destruct rest as [|a rest _] using rev_ind.
  - split; [discriminate|]. intros H. now destruct (removelast []).
  - rewrite last_snoc, removelast_last. split.
    + now intros [= ->].
    + intros H. apply app_inj_tail in H as [_ ->]. reflexivity.
Qed.

(** What [glob] matches below [base]: the paths [base/.../SKILL.md] of
    the tree, files and directories alike, that pass through no hidden
    directory and lie no deeper than [maxDepth] below the working
    directory. *)
Definition matched (w : world) (base : path) (maxDepth : Z) (p : path) : Prop :=
  node_at (fs w) base = Some Dir /\
  is_Some (fs w !! p) /\
  Z.of_nat (length p) <= maxDepth + Z.of_nat (length (cwd w)) /\
  exists mids,
    p = base ++ mids ++ ["SKILL.md"] /\
    forall seg, In seg mids -> hidden seg = false.


Lemma is_skill_md_spec (base cwd : path) (maxDepth : Z) (p : path) (n : node) :
  is_skill_md base cwd maxDepth (p, n) = true <->
  Z.of_nat (length p) <= maxDepth + Z.of_nat (length cwd) /\
  exists mids,
    p = base ++ mids ++ ["SKILL.md"] /\
    forall seg, In seg mids -> hidden seg = false.
Proof.
  unfold is_skill_md. cbn [fst]. split.
  - destruct (below base p) as [rest|] eqn:Hb; [|discriminate].
    apply below_spec in Hb. intros H.
    apply andb_true_iff in H as [H Hd]. apply andb_true_iff in H as [Hl Hh].
    apply bool_decide_eq_true, last_snoc_removelast in Hl. apply Z.leb_le in Hd.
    split; [exact Hd|]. exists (removelast rest). split; [now rewrite <- Hl|].
    intros seg Hin. rewrite forallb_forall in Hh. now apply negb_true_iff, Hh.
  - intros [Hd [mids [-> Hh]]].
    rewrite (proj2 (below_spec base _ _) eq_refl).
    rewrite removelast_last. apply andb_true_iff. split; [apply andb_true_iff; split|].
    + apply bool_decide_eq_true. now rewrite last_snoc.
    + apply forallb_forall. intros seg Hin. now rewrite (Hh seg Hin).
    + now apply Z.leb_le.
Qed.

Lemma glob_spec (w : world) (base : path) (maxDepth : Z) (p : path) :
  In p (glob_skill_md w base maxDepth) <-> matched w base maxDepth p.
Proof.
  unfold glob_skill_md, matched.
  destruct (node_at (fs w) base) as [[|t]|] eqn:Hbase;
    try (split; [intros [] | intros [H _]; discriminate]).
  rewrite <- list_elem_of_In, merge_sort_Permutation, list_elem_of_fmap. split.
  - intros [[q n] [-> Hin]]. apply list_elem_of_In, filter_In in Hin as [Hin Hm].
    apply list_elem_of_In, elem_of_map_to_list in Hin. cbn [fst].
    apply is_skill_md_spec in Hm as [Hd Hex]. repeat split; eauto.
  - intros [_ [[n Hn] [Hd Hex]]]. exists (p, n). split; [reflexivity|].
    apply list_elem_of_In, filter_In. split.
    + now apply list_elem_of_In, elem_of_map_to_list.
    + apply is_skill_md_spec. now split.
Qed.




End LoaderFacts.



(** What glob matches in that tree: the three paths called SKILL.md
    within the depth, the directory among them; not the one in the
    hidden directory, and not the one four levels below the working
    directory. *)
Example glob_skill_md_matches :
  forall p,
    In p (glob_skill_md Sample.mixed_world Sample.skills_root 3) <->
    p = ["work"; "skills"; "pdf"; "SKILL.md"] \/
    p = ["work"; "skills"; "draft"; "SKILL.md"] \/
    p = ["work"; "skills"; "SKILL.md"].
Proof.
  intros p. split.
  - vm_compute. intuition.
  - intros [->|[->| ->]]; vm_compute; auto.
Qed.

(** ** What the operations leave alone *)

Module FrameFacts.
Import MonadFacts.

(** [unchanged erase]: nothing changes but what [erase] forgets. *)
Section Unchanged.
Variable erase : world -> world.

Definition unchanged (w w' : world) : Prop := erase w' = erase w.

Lemma unchanged_refl w : unchanged w w.
Proof. reflexivity. Qed.

Lemma unchanged_trans w1 w2 w3 : unchanged w1 w2 -> unchanged w2 w3 -> unchanged w1 w3.
Proof. unfold unchanged. congruence. Qed.

Definition leaves {A} (m : M A) : Prop := frames unchanged m.

Lemma leaves_ret {A} (a : A) : leaves (ret a).
Proof. apply frames_ret, unchanged_refl. Qed.

Lemma leaves_throw {A} (e : error) : leaves (@throw A e).
Proof. apply frames_throw, unchanged_refl. Qed.

Lemma leaves_gets {A} (f : world -> A) : leaves (gets f).
Proof. apply frames_gets, unchanged_refl. Qed.

Lemma leaves_bind {A B} (m : M A) (k : A -> M B) :
  leaves m -> (forall a, leaves (k a)) -> leaves (bind m k).
Proof. apply frames_bind, unchanged_trans. Qed.

Lemma leaves_try {A} (m : M A) (h : error -> M A) :
  leaves m -> (forall e, leaves (h e)) -> leaves (try_catch m h).
Proof. apply frames_try, unchanged_trans. Qed.

Lemma leaves_for_each {A} (xs : list A) (body : A -> M unit) :
  (forall x, leaves (body x)) -> leaves (for_each xs body).
Proof. apply frames_for_each; [apply unchanged_refl | apply unchanged_trans]. Qed.

Lemma leaves_all_of {A B} (f : A -> M B) (xs : list A) :
  (forall x, leaves (f x)) -> leaves (all_of f xs).
Proof. apply frames_all_of; [apply unchanged_refl | apply unchanged_trans]. Qed.

Lemma leaves_run {A} (m : M A) (w w' : world) (o : outcome A) :
  leaves m -> m w = (o, w') -> erase w' = erase w.
Proof. intros Hm Hrun. specialize (Hm w). now rewrite Hrun in Hm. Qed.
End Unchanged.

(** Break a computation down to its primitive steps. *)
Ltac leaves_with prim :=
  repeat first
    [ prim
    | apply leaves_ret
    | apply leaves_throw
    | apply leaves_gets
    | apply leaves_bind
    | apply leaves_try
    | apply leaves_for_each
    | apply leaves_all_of
    | progress intros
    | match goal with
      | |- leaves _ (match ?x with _ => _ end) => destruct x
      | |- leaves _ (let (_, _) := ?x in _) => destruct x
      end ].

(** The resolver touches its cache, the fetch count and the console. *)
Definition but_resolver (w : world) : world :=
  set_skillsCache ∅ (set_fetches 0 (set_console [] w)).

(** The tree operations touch the tree. *)
Definition but_tree (w : world) : world := set_fs ∅ w.


Lemma fetch_resolver rq : leaves but_resolver (fetch rq).
Proof. intros w. unfold fetch. now destruct (net w rq). Qed.

Lemma console_warn_resolver line : leaves but_resolver (console_warn line).
Proof. intros w. reflexivity. Qed.

Lemma skillsCache_set_resolver key found : leaves but_resolver (skillsCache_set key found).
Proof. intros w. reflexivity. Qed.

Lemma fetch_dir_resolver source branch dir :
  leaves but_resolver (fetch_dir source branch dir).
Proof. unfold fetch_dir. leaves_with ltac:(apply fetch_resolver). Qed.

Lemma fetch_batches_resolver fuel source branch dirs found :
  leaves but_resolver (fetch_batches fuel source branch dirs found).
Proof.
  revert dirs found. induction fuel as [|fuel IH]; intros dirs found.
  - destruct dirs; apply leaves_ret.
  - destruct dirs as [|d dirs]; [apply leaves_ret|].
    cbn [fetch_batches]. apply leaves_bind; [|intros results; apply IH].
    apply leaves_all_of. intros x. apply fetch_dir_resolver.
Qed.

Lemma fetch_index_resolver source : leaves but_resolver (fetch_index source).
Proof.
  unfold fetch_index, json_index.
  leaves_with ltac:(first [apply fetch_resolver | apply skillsCache_set_resolver]).
Qed.

Lemma fetch_listing_resolver source : leaves but_resolver (fetch_listing source).
Proof.
  unfold fetch_listing, json_listing.
  leaves_with ltac:(first [apply fetch_resolver | apply skillsCache_set_resolver
                          | apply fetch_batches_resolver]).
Qed.

Lemma fetchSkillsFromSource_resolver source :
  leaves but_resolver (fetchSkillsFromSource source).
Proof.
  unfold fetchSkillsFromSource, fetch_fresh, date_now.
  leaves_with ltac:(first [apply fetch_index_resolver | apply fetch_listing_resolver]).
Qed.

Lemma list_sources_resolver sources found :
  leaves but_resolver (list_sources sources found).
Proof.
  revert found. induction sources as [|s sources IH]; intros found; simpl.
  - apply leaves_ret.
  - apply leaves_bind; [|intros a; apply IH].
    leaves_with ltac:(first [apply fetchSkillsFromSource_resolver
                            | apply console_warn_resolver]).
Qed.

Lemma listMarketplaceSkills_resolver sourceId :
  leaves but_resolver (listMarketplaceSkills sourceId).
Proof.
  unfold listMarketplaceSkills, loadConfig.
  leaves_with ltac:(apply list_sources_resolver).
Qed.

Lemma mkdir_tree p : leaves but_tree (mkdir p).
Proof. intros w. unfold mkdir. now destruct (mkdirs [] p (fs w)) as [[] f]. Qed.

Lemma writeFile_tree p t : leaves but_tree (writeFile p t).
Proof.
  intros w. unfold writeFile.
  destruct (node_at (fs w) p) as [[|t']|];
    try reflexivity; now destruct (node_at (fs w) (removelast p)) as [[|t'']|].
Qed.

(** [rm] touches the tree and, from above it, the manifest. *)
Definition but_store (w : world) : world := set_manifest Absent (set_fs ∅ w).

Lemma rm_store p : leaves but_store (rm p).
Proof. intros w. unfold rm, modify. cbn. now destruct (bool_decide _). Qed.

Lemma cp_tree files dest : leaves but_tree (cp files dest).
Proof. unfold cp. leaves_with ltac:(first [apply mkdir_tree | apply writeFile_tree]). Qed.

Lemma downloadSkill_tree skill dest : leaves but_tree (downloadSkill skill dest).
Proof.
  unfold downloadSkill. leaves_with ltac:(first [apply mkdir_tree | apply cp_tree]).
Qed.

Lemma resolver_keeps_manifest w w' :
  unchanged but_resolver w w' -> manifest w' = manifest w /\ fs w' = fs w.
Proof. intros H. split; [apply (f_equal manifest) in H | apply (f_equal fs) in H]; exact H. Qed.

Lemma tree_keeps_manifest w w' :
  unchanged but_tree w w' -> manifest w' = manifest w.
Proof. intros H. apply (f_equal manifest) in H. exact H. Qed.

Lemma resolver_keeps_home w w' : unchanged but_resolver w w' -> home w' = home w.
Proof. intros H. apply (f_equal home) in H. exact H. Qed.

Lemma tree_keeps_home w w' : unchanged but_tree w w' -> home w' = home w.
Proof. intros H. apply (f_equal home) in H. exact H. Qed.

End FrameFacts.

(** ** installSkill and uninstallSkill *)

Module InstallFacts.
Import MonadFacts FsFacts FrameFacts.

(** The entry [installSkill] records for [skill] at time [t]. *)
Definition entry (skillName : string) (installPath : path) (skill : MarketplaceSkill)
    (t : Z) : InstalledSkill :=
  {| Installed.name := skillName;
     Installed.localPath := installPath;
     Installed.source := Some (Remote.source skill);
     Installed.remotePath := Some (Remote.path skill);
     Installed.version := Remote.version skill;
     Installed.installedAt := t;
     Installed.lastChecked := None |}.

(** The steps of an install up to the promoted copy: the listing, the
    candidate, the conflict check, the install directory, the download. *)
Record promoted (skillName : string) (sourceId : option string)
    (w : world) (skill : MarketplaceSkill) (w3 : world) : Prop := {
  pr_listed : exists allSkills w1 w2,
      listMarketplaceSkills sourceId w = (Ok allSkills, w1) /\
      List.find (remote_named skillName) allSkills = Some skill /\
      mkdir (Config.installDir (current_config w)) w1 = (Ok tt, w2) /\
      downloadSkill skill (join (Config.installDir (current_config w)) skillName) w2
        = (Ok tt, w3);
  pr_fresh :
      List.find (installed_named skillName) (Config.installed (current_config w)) = None
}.

(** What [installSkill] does once the copy is promoted. *)
Lemma installSkill_promoted skillName sourceId w skill w3 :
  promoted skillName sourceId w skill w3 ->
  let config := current_config w in
  let installPath := join (Config.installDir config) skillName in
  installSkill skillName sourceId w =
  match load_outcome (fs w3) (installPath ++ ["SKILL.md"]) with
  | Throw e => (Throw e, w3)
  | Ok metadata =>
      let record :=
        (Ok (entry skillName installPath skill (now w3)),
         set_manifest
           (Parsed (with_installed
                      (Config.installed config ++
                       [entry skillName installPath skill (now w3)]) config)) w3) in
      match metadata with
      | None => record
      | Some md =>
          if valid (validateMetadata md) then record
          else (Throw (Error ("Installed skill is invalid: " ^^
                              Str.join ", " (map message (errors (validateMetadata md))))),
                after_rm installPath w3)
      end
  end.
Proof.
  intros [[allSkills [w1 [w2 [Hlist [Hfind [Hmk Hdl]]]]]] Hfresh] config installPath.
  unfold installSkill. unfold bind at 1. cbn [loadConfig gets]. fold config.
  unfold bind at 1. rewrite Hlist, Hfind. fold config in Hfresh. rewrite Hfresh.
  unfold bind at 1. fold config in Hmk. rewrite Hmk.
  unfold bind at 1. fold config in Hdl. rewrite Hdl.
  unfold bind at 1. unfold bind at 1.
  rewrite LoaderFacts.loadSkillMetadata_run. fold installPath.
  rewrite (join_single installPath "SKILL.md") by (apply join_canonical || reflexivity).
  destruct (load_outcome (fs w3) (installPath ++ ["SKILL.md"])) as [[md|]|e];
    [|reflexivity|reflexivity].
  destruct (valid (validateMetadata md)); reflexivity.
Qed.

(** The steps up to the promoted copy leave the manifest and the home
    directory as they are. *)
Lemma promoted_frame skillName sourceId w skill w3 :
  promoted skillName sourceId w skill w3 -> manifest w3 = manifest w /\ home w3 = home w.
Proof.
  intros [[allSkills [w1 [w2 [Hlist [_ [Hmk Hdl]]]]]] _].
  apply (leaves_run but_resolver _ _ _ _ (listMarketplaceSkills_resolver _)) in Hlist.
  apply (leaves_run but_tree _ _ _ _ (mkdir_tree _)) in Hmk.
  apply (leaves_run but_tree _ _ _ _ (downloadSkill_tree _ _)) in Hdl.
  split.
  - apply resolver_keeps_manifest in Hlist. destruct Hlist as [Hlist _].
    apply tree_keeps_manifest in Hmk. apply tree_keeps_manifest in Hdl. congruence.
  - apply resolver_keeps_home in Hlist.
    apply tree_keeps_home in Hmk. apply tree_keeps_home in Hdl. congruence.
Qed.










(** [uninstallSkill] on a manifest that lists the skill. *)
Lemma uninstallSkill_run skillName w index i :
  findIndex (installed_named skillName) (Config.installed (current_config w)) = Some index ->
  Config.installed (current_config w) !! index = Some i ->
  uninstallSkill skillName w =
  (Ok tt,
   set_manifest
     (Parsed (with_installed (delete index (Config.installed (current_config w)))
                (current_config w)))
     (match node_at (fs w) (Installed.localPath i) with
      | Some _ => after_rm (Installed.localPath i) w
      | None => w
      end)).
Proof.
  intros Hi Hl. unfold uninstallSkill, bind. cbn [loadConfig gets].
  rewrite Hi, Hl. unfold existsSync. cbn [gets].
  destruct (node_at (fs w) (Installed.localPath i)); reflexivity.
Qed.

Lemma heal_installed c : Config.installed (heal c) = Config.installed c.
Proof. reflexivity. Qed.

End InstallFacts.






Module RollbackFacts.
Import FrameFacts.

(** Up to the promoted copy the manifest is not touched. *)
Lemma promoted_keeps_manifest skillName sourceId w skill w3 :
  InstallFacts.promoted skillName sourceId w skill w3 -> manifest w3 = manifest w.
Proof. intros Hp. now destruct (InstallFacts.promoted_frame _ _ _ _ _ Hp). Qed.

End RollbackFacts.

(** C1, at the input where the code departs from it: the promoted copy
    of [pdf] holds a SKILL.md with a name and no description.  The
    validator rejects such metadata, yet [installSkill] fails in
    [loadSkillMetadata], before the branch that deletes the copy: the
    install directory and the document in it are still there. *)
Theorem installSkill_leaves_directory_behind :
  let run := installSkill "pdf" None (Sample.install_world Sample.no_description) in
  run.1 = Throw (Error "Invalid skill: missing required fields (name, description)") /\
  fs run.2 !! Sample.pdf_dir = Some Dir /\
  fs run.2 !! (Sample.pdf_dir ++ ["SKILL.md"])
    = Some (File (Sample.document (Some "pdf") None)) /\
  (forall md, matter (Sample.document (Some "pdf") None) = Some md ->
              valid (validateMetadata md) = false) /\
  manifest run.2 = Absent.
Proof.
  repeat split; try (vm_compute; reflexivity).
  intros md [= <-]. vm_compute. reflexivity.
Qed.

(** When the metadata loads and the validator rejects it, [installSkill]
    deletes the promoted copy and fails: nothing is left at or below the
    install directory.  The manifest is as it was, unless the install
    directory holds it (a skill by the name of [..] in the default
    install directory): then the manifest is deleted with the copy. *)
Theorem installSkill_invalid_rolls_back skillName sourceId w skill w3 md :
  InstallFacts.promoted skillName sourceId w skill w3 ->
  let installPath := join (Config.installDir (current_config w)) skillName in
  ~ CONFIG_FILE w `prefix_of` installPath ->
  load_outcome (fs w3) (installPath ++ ["SKILL.md"]) = Ok (Some md) ->
  valid (validateMetadata md) = false ->
  exists w',
    installSkill skillName sourceId w =
      (Throw (Error ("Installed skill is invalid: " ^^
                     Str.join ", " (map message (errors (validateMetadata md))))), w') /\
    (forall q, installPath `prefix_of` q -> fs w' !! q = None) /\
    (~ installPath `prefix_of` CONFIG_FILE w -> manifest w' = manifest w) /\
    (installPath `prefix_of` CONFIG_FILE w -> manifest w' = Absent).
Proof.
  intros Hp installPath _ Hload Hinvalid.
  rewrite (InstallFacts.installSkill_promoted _ _ _ _ _ Hp).
  fold installPath. rewrite Hload, Hinvalid.
  destruct (InstallFacts.promoted_frame _ _ _ _ _ Hp) as [Hman Hhome].
  assert (Hfile : CONFIG_FILE w3 = CONFIG_FILE w).
  { unfold CONFIG_FILE, CONFIG_DIR. now rewrite Hhome. }
  eexists. split; [reflexivity|]. split; [|split].
  - intros q Hq. rewrite FsFacts.fs_after_rm. now apply FsFacts.rm_rf_below.
  - intros Hclear. rewrite FsFacts.after_rm_clear by (now rewrite Hfile). exact Hman.
  - intros Hcover. rewrite FsFacts.after_rm_covering by (now rewrite Hfile). reflexivity.
Qed.

Lemma installSkill_invalid_rolls_back_witness :
  exists w',
    installSkill "pdf" None (Sample.install_world Sample.reserved_name) =
      (Throw (Error "Installed skill is invalid: Name cannot contain reserved word: claude"),
       w') /\
    fs w' !! Sample.pdf_dir = None /\
    manifest w' = Absent.
Proof.
  assert (Hp : InstallFacts.promoted "pdf" None (Sample.install_world Sample.reserved_name)
                 Sample.pdf_candidate (Sample.staged Sample.reserved_name)).
  { constructor.
    - exists [Sample.pdf_candidate], (Sample.listed Sample.reserved_name),
        (Sample.prepared Sample.reserved_name).
      split.
      { refine (MonadFacts.run_fst (listMarketplaceSkills None) _ (Ok _) _).
        vm_compute. reflexivity. }
      split; [vm_compute; reflexivity|].
      split.
      { refine (MonadFacts.run_fst (mkdir _) (Sample.listed _) (Ok tt) _).
        vm_compute. reflexivity. }
      refine (MonadFacts.run_fst (downloadSkill _ _) (Sample.prepared _) (Ok tt) _).
      vm_compute. reflexivity.
    - vm_compute. reflexivity. }
  assert (Hload : load_outcome (fs (Sample.staged Sample.reserved_name))
                    (join (Config.installDir (current_config
                             (Sample.install_world Sample.reserved_name))) "pdf"
                     ++ ["SKILL.md"])
                  = Ok (matter (Sample.document (Some "claude-pdf")
                          (Some "Extracts text and tables from PDF files and fills in forms."))))
    by (vm_compute; reflexivity).
  assert (Hclear : ~ CONFIG_FILE (Sample.install_world Sample.reserved_name) `prefix_of`
                     join (Config.installDir (current_config
                             (Sample.install_world Sample.reserved_name))) "pdf")
    by (intros [k Hk]; vm_compute in Hk; congruence).
  destruct (installSkill_invalid_rolls_back "pdf" None _ _ _ _ Hp Hclear Hload eq_refl)
    as [w' [Hrun [Hgone [Hman _]]]].
  exists w'. split; [exact Hrun|]. split; [apply Hgone; reflexivity|].
  apply Hman. intros [k Hk]. vm_compute in Hk. congruence.
Defined.

(** The second case at work: the skill [..] with a document the
    validator rejects.  The rollback removes the directory that holds
    the manifest, and the manifest, which listed [pdf], with it. *)
Lemma rollback_of_dots_deletes_manifest :
  let w := Sample.dots_world_with Sample.reserved_name in
  let run := installSkill ".." None w in
  run.1 = Throw (Error "Installed skill is invalid: Name cannot contain reserved word: claude") /\
  manifest run.2 = Absent /\
  Config.installed (current_config w) = [Sample.installed_pdf (Some "1.0")] /\
  Config.installed (current_config run.2) = [].
Proof. repeat split; vm_compute; reflexivity. Qed.

(** ** installFromGitHubUrl *)

Module UrlInstallFacts.
Import MonadFacts FrameFacts FsFacts.



















(** [uninstallSkill] on a manifest that does not list the skill. *)
Lemma uninstallSkill_unlisted skillName w :
  (forall i, In i (Config.installed (current_config w)) -> Installed.name i <> skillName) ->
  uninstallSkill skillName w =
  (Throw (Error ("Skill " ^^ skillName ^^ " is not installed via marketplace")), w).
Proof.
  intros Hnone. unfold uninstallSkill, bind. cbn [loadConfig gets].
  rewrite ListFacts.findIndex_none; [reflexivity|].
  intros i Hi. apply String.eqb_neq. now apply Hnone.
Qed.

(** The name [installFromGitHubUrl] derives from a URL: the last
    segment of the path in it, or [skill] when that segment is empty. *)
Definition url_name (githubUrl : string) : string :=
  or_else (last (Url.split_slash (Url.extractGitHubPath githubUrl))) "skill".

Definition url_document (githubUrl : string) : string :=
  "https://raw.githubusercontent.com/" ^^ Url.extractOwner githubUrl ^^ "/" ^^
  Url.extractRepoName githubUrl ^^ "/" ^^ Url.extractBranch githubUrl ^^ "/" ^^
  Url.extractGitHubPath githubUrl ^^ "/SKILL.md".






End UrlInstallFacts.




(** A URL whose path ends in [..]: the directory asked for is
    [installDir/..], the directory above [installDir]; [mkdir] makes
    [installDir] on the way, and the document is written above it. *)
Example dots_url_writes_above :
  let url := "https://github.com/acme/kit/tree/main/skills/.." in
  let run := installFromGitHubUrl url ["work"; "skills"] Sample.raw_world in
  run.1 = Ok ("..", ["work"; "skills"; ".."]) /\
  fs run.2 !! ["work"; "skills"] = Some Dir /\
  fs run.2 !! ["work"; "SKILL.md"] = Some (File Sample.raw_document) /\
  fs run.2 !! ["work"; "skills"; "SKILL.md"] = None.
Proof. repeat split; vm_compute; reflexivity. Qed.

(** ** More on the manifest store: stability, adding and removing sources *)

Module HealFacts.
Import ListFacts ManifestFacts.

(** A source list that needs no healing. *)
Definition settled (l : list MarketplaceSource) : Prop :=
  (forall d, In d DEFAULT_MARKETPLACES -> exists s, In s l /\ Source.id s = Source.id d) /\
  (forall s, In s l -> includes_id deprecatedIds (Source.id s) = false).

Lemma find_has_id (l : list MarketplaceSource) (i : string) :
  (exists s, In s l /\ Source.id s = i) -> List.find (has_id i) l <> None.
Proof.
  intros [s [Hs Hid]] Hnone.
  pose proof (proj1 (find_none_iff _ _) Hnone s Hs) as Hf.
  unfold has_id in Hf. rewrite Hid, String.eqb_refl in Hf. discriminate.
Qed.

Lemma ensure_defaults_settled (ds l : list MarketplaceSource) :
  (forall d, In d ds -> exists s, In s l /\ Source.id s = Source.id d) ->
  fold_left ensure_default ds l = l.
Proof.
  induction ds as [|d ds IH]; simpl; intros H; [reflexivity|].
  unfold ensure_default at 2.
  destruct (List.find (has_id (Source.id d)) l) eqn:Hf.
  - apply IH. auto.
  - exfalso. apply (find_has_id l (Source.id d)); auto.
Qed.

Lemma filter_all {A} (p : A -> bool) (l : list A) :
  (forall x, In x l -> p x = true) -> List.filter p l = l.
Proof.
  induction l as [|x l IH]; simpl; intros H; [reflexivity|].
  rewrite (H x) by auto. f_equal. apply IH. auto.
Qed.

Lemma heal_settled (c : MarketplaceConfig) :
  settled (Config.sources c) -> heal c = c.
Proof.
  intros [Hd Hn]. destruct c as [l ins dir]. unfold heal. cbn [Config.sources] in *.
  cbn [Config.installed Config.installDir]. f_equal.
  rewrite ensure_defaults_settled by exact Hd.
  apply filter_all. intros s Hs. now rewrite (Hn s Hs).
Qed.

Lemma current_settled (w : world) : settled (Config.sources (current_config w)).
Proof.
  destruct (current_sources w) as [Hd Hn]. split; [exact Hd|].
  intros s Hs. specialize (Hn s Hs). rewrite <- includes_id_spec in Hn.
  now destruct (includes_id deprecatedIds (Source.id s)).
Qed.



End HealFacts.



Module RemoveFacts.
Import ListFacts.

(** The first position where [p] holds. *)
Lemma findIndex_first {A} (p : A -> bool) (l : list A) (i : nat) :
  findIndex p l = Some i ->
  exists x, l !! i = Some x /\ p x = true /\ List.find p l = Some x /\
            forall j y, (j < i)%nat -> l !! j = Some y -> p y = false.
Proof.
  revert i. induction l as [|y l IH]; simpl; [discriminate|]. intros i.
  destruct (p y) eqn:Hy.
  - intros [= <-]. exists y. repeat split; auto. intros j z Hj. lia.
  - destruct (findIndex p l) as [k|] eqn:Hk; [|discriminate].
    cbn. intros [= <-]. destruct (IH k eq_refl) as [x [Hx [Hpx [Hf Hmin]]]].
    exists x. repeat split; auto.
    intros [|j] z Hj Hz; cbn in Hz; [now inversion Hz; subst|].
    apply (Hmin j z); [lia | exact Hz].
Qed.

Lemma in_delete {A} (l : list A) (i : nat) (x : A) :
  In x (delete i l) -> In x l.
Proof.
  revert i. induction l as [|y l IH]; intros [|i]; cbn; auto.
  intros [->|H]; [now left | right; eauto].
Qed.

End RemoveFacts.

(** [removeMarketplace] on an id whose first registered source is not
    verified: it succeeds and saves the loaded config without that one
    source; the sources before and after it keep their order, the
    installed list and the install directory are untouched.  If no
    built-in source has that id, the next load lists exactly the
    remaining sources. *)
Theorem removeMarketplace_removes (w : world) (id : string) (s : MarketplaceSource) :
  let config := current_config w in
  List.find (has_id id) (Config.sources config) = Some s ->
  Source.verified s <> Some true ->
  exists index,
    findIndex (has_id id) (Config.sources config) = Some index /\
    Config.sources config !! index = Some s /\
    removeMarketplace id w =
      (Ok tt,
       set_manifest (Parsed (with_sources (delete index (Config.sources config)) config)) w) /\
    ((forall d, In d DEFAULT_MARKETPLACES -> Source.id d <> id) ->
     current_config
       (set_manifest (Parsed (with_sources (delete index (Config.sources config)) config)) w)
     = with_sources (delete index (Config.sources config)) config).
Proof.
  intros config Hfind Hver.
  destruct (ListFacts.findIndex_find _ _ _ Hfind) as [index [Hi Hl]].
  exists index. split; [exact Hi|]. split; [exact Hl|]. split.
  - unfold removeMarketplace, bind. cbn [loadConfig gets]. fold config.
    rewrite Hi, Hl. destruct (Source.verified s) as [[]|]; [congruence| |]; reflexivity.
  - intros Hnd. cbn [current_config manifest set_manifest].
    apply HealFacts.heal_settled. cbn [with_sources Config.sources].
    destruct (HealFacts.current_settled w) as [Hd Hn]. fold config in Hd, Hn. split.
    + intros d Hin. destruct (Hd d Hin) as [x [Hx Hid]]. exists x. split; [|exact Hid].
      apply list_elem_of_In. apply list_elem_of_In in Hx.
      apply list_elem_of_lookup in Hx. destruct Hx as [j Hj].
      assert (Hne : j <> index).
      { intros ->. rewrite Hl in Hj. inversion Hj; subst.
        apply List.find_some in Hfind. destruct Hfind as [_ Hs].
        apply String.eqb_eq in Hs. apply (Hnd d Hin). congruence. }
      apply list_elem_of_lookup.
      destruct (decide (j < index)%nat) as [Hlt|Hge].
      * exists j. now rewrite list_lookup_delete_lt by lia.
      * exists (pred j). rewrite list_lookup_delete_ge by lia.
        replace (S (pred j)) with j by lia. exact Hj.
    + intros x Hx. apply Hn. now apply (RemoveFacts.in_delete _ index).
Qed.

Lemma removeMarketplace_removes_witness :
  exists w',
    removeMarketplace "team"
      (set_manifest (Parsed (with_sources (DEFAULT_MARKETPLACES ++ [Sample.team_source])
                               (default_config Sample.bare_world)))
         Sample.bare_world) = (Ok tt, w') /\
    Config.sources (current_config w') = DEFAULT_MARKETPLACES.
Proof.
  destruct (removeMarketplace_removes
              (set_manifest (Parsed (with_sources (DEFAULT_MARKETPLACES ++ [Sample.team_source])
                                       (default_config Sample.bare_world)))
                 Sample.bare_world)
              "team" Sample.team_source eq_refl)
    as [index [Hi [_ [Hrun Hnext]]]]; [discriminate|].
  eexists. split; [exact Hrun|].
  rewrite Hnext by (simpl; intros d [<-|[]]; discriminate).
  vm_compute in Hi. inversion Hi; subst. reflexivity.
Defined.


(** ** validateMetadata as a whole, and validateBody *)

Module JsFacts.
Import Str Js StrFacts.

Lemma trimStart_empty (s : string) :
  trimStart s = "" <-> all_chars is_space s = true.
Proof.
  induction s as [|c s IH]; simpl; [tauto|].
  destruct (is_space c); simpl; [exact IH|]. split; discriminate.
Qed.

Lemma trimEnd_empty (s : string) :
  trimEnd s = "" <-> all_chars is_space s = true.
Proof.
  induction s as [|c s IH]; simpl; [tauto|].
  destruct (trimEnd s) eqn:Ht.
  - destruct (is_space c); simpl; [tauto|]. split; discriminate.
  - split; [discriminate|]. rewrite andb_true_iff. intros [_ H].
    apply IH in H. discriminate H.
Qed.

Lemma trimStart_spaces (s : string) :
  all_chars is_space (trimStart s) = all_chars is_space s.
Proof.
  induction s as [|c s IH]; simpl; [reflexivity|].
  destruct (is_space c) eqn:Hc; simpl; [exact IH | now rewrite Hc].
Qed.

(** [trim] leaves nothing exactly of the strings made of white space. *)
Lemma trim_empty (s : string) :
  trim s = "" <-> all_chars is_space s = true.
Proof. unfold trim. now rewrite trimEnd_empty, trimStart_spaces. Qed.

Lemma all_not_has (p : ascii -> bool) (s : string) :
  all_chars p s = negb (has_char (fun c => negb (p c)) s).
Proof.
  induction s as [|c s IH]; simpl; [reflexivity|].
  rewrite IH. now destruct (p c).
Qed.

Lemma split_not_nil (sep : ascii) (s : string) : split sep s <> [].
Proof.
  induction s as [|c s IH]; simpl; [discriminate|].
  destruct (Ascii.eqb c sep); [discriminate|].
  destruct (split sep s); discriminate.
Qed.

(** [split] yields one piece more than there are separators. *)
Lemma split_length (sep : ascii) (s : string) :
  length (split sep s) = S (count sep s).
Proof.
  induction s as [|c s IH]; simpl; [reflexivity|].
  destruct (Ascii.eqb c sep); simpl; [now rewrite IH|].
  destruct (split sep s) eqn:Hs; [now apply split_not_nil in Hs|exact IH].
Qed.

Lemma len_empty (s : string) : (len s =? 0) = String.eqb s "".
Proof. destruct s; [reflexivity|]. unfold len. simpl String.length.
  destruct (Z.eqb_spec (Z.of_nat (S (String.length s))) 0); [lia|reflexivity]. Qed.

Lemma has_char_app (p : ascii -> bool) (a b : string) :
  has_char p (a ^^ b) = has_char p a || has_char p b.
Proof.
  induction a as [|c a IH]; sapp; [reflexivity|].
  cbn [has_char]. now rewrite IH, orb_assoc.
Qed.

End JsFacts.

Module ValidFacts.
Import Str Regex Pat StrFacts RegexFacts ValidatorFacts.

Lemma no_errors (md : SkillMetadata) :
  valid (validateMetadata md) = true <->
  name_checks md = [] /\ description_checks md = [] /\ compatibility_checks md = [].
Proof.
  unfold validateMetadata. cbn [valid].
  destruct (name_checks md) as [|e l]; cbn [app].
  - destruct (description_checks md) as [|e l]; cbn [app].
    + destruct (compatibility_checks md); [tauto|].
      split; [discriminate | intros [_ [_ H]]; discriminate H].
    + split; [discriminate | intros [_ [H _]]; discriminate H].
  - split; [discriminate | intros [H _]; discriminate H].
Qed.

Lemma when_nil {A} (b : bool) (x : A) : when b x = [] <-> b = false.
Proof. destruct b; simpl; split; congruence. Qed.

Lemma reserved_errors_nil (n : string) :
  reserved_errors n = [] <->
  forall w, In w RESERVED_WORDS -> includes w (toLowerCase n) = false.
Proof.
  split; [|apply reserved_errors_none].
  unfold reserved_errors. cbn [flat_map RESERVED_WORDS]. intros H w Hw.
  repeat (apply app_eq_nil in H; destruct H as [?%when_nil H]).
  simpl in Hw. destruct Hw as [<-|[<-|[<-|[<-|[]]]]]; assumption.
Qed.

Lemma name_checks_nil (md : SkillMetadata) :
  name_checks md = [] <->
  exists n, name md = Some n /\ matches NAME_PATTERN n = true /\ len n <= 64 /\
            forall w, In w RESERVED_WORDS -> includes w n = false.
Proof.
  unfold name_checks. split.
  - destruct (name md) as [n|]; cbn [falsy from_option id]; [|discriminate].
    destruct (String.eqb n ""); [discriminate|]. intros H.
    apply app_eq_nil in H. destruct H as [H64%when_nil H].
    apply app_eq_nil in H. destruct H as [Hpat%when_nil H].
    apply app_eq_nil in H. destruct H as [Hres _].
    apply negb_false_iff in Hpat. apply Z.ltb_ge in H64.
    exists n. repeat split; auto. intros w Hw.
    rewrite <- (name_lower n Hpat). now apply reserved_errors_nil.
  - intros [n [-> [Hpat [H64 Hres]]]]. cbn [falsy from_option id].
    rewrite (name_not_empty n Hpat), Hpat, (name_no_tag n Hpat).
    rewrite reserved_errors_none by (intros w Hw; rewrite (name_lower n Hpat); auto).
    apply Z.ltb_ge in H64. now rewrite H64.
Qed.

Lemma description_checks_nil (md : SkillMetadata) :
  description_checks md = [] <->
  exists d, description md = Some d /\ d <> "" /\ len d <= 1024 /\
            test XML_TAG d = false.
Proof.
  unfold description_checks. split.
  - destruct (description md) as [d|]; cbn [falsy from_option id]; [|discriminate].
    destruct (String.eqb_spec d ""); [discriminate|]. intros H.
    apply app_eq_nil in H. destruct H as [Hl%when_nil Ht%when_nil].
    apply Z.ltb_ge in Hl. exists d. auto.
  - intros [d [-> [Hne [Hl Ht]]]]. cbn [falsy from_option id].
    apply String.eqb_neq in Hne. apply Z.ltb_ge in Hl. now rewrite Hne, Hl, Ht.
Qed.

Lemma compatibility_checks_nil (md : SkillMetadata) :
  compatibility_checks md = [] <->
  forall c, compatibility md = Some c -> len c <= 500.
Proof.
  unfold compatibility_checks. destruct (compatibility md) as [c|]; [|split; [discriminate|auto]].
  rewrite when_nil. split.
  - intros H c' [= <-]. destruct (String.eqb_spec c ""); [subst; unfold len; simpl; lia|].
    simpl in H. now apply Z.ltb_ge in H.
  - intros H. specialize (H c eq_refl). apply Z.ltb_ge in H. rewrite H. apply andb_false_r.
Qed.

End ValidFacts.

(** [validateMetadata] declares a skill valid exactly when the name
    matches the name pattern, is at most 64 characters long and holds no
    reserved word, the description is a non-empty string of at most 1024
    characters without a markup tag, and the compatibility note, if
    any, is at most 500 characters long. *)
Theorem validateMetadata_valid_iff (md : SkillMetadata) :
  valid (validateMetadata md) = true <->
  (exists n, name md = Some n /\ Regex.matches Pat.NAME_PATTERN n = true /\ len n <= 64 /\
             forall w, In w RESERVED_WORDS -> Str.includes w n = false)
  /\ (exists d, description md = Some d /\ d <> "" /\ len d <= 1024 /\
                Regex.test Pat.XML_TAG d = false)
  /\ (forall c, compatibility md = Some c -> len c <= 500).
Proof.
  rewrite ValidFacts.no_errors, ValidFacts.name_checks_nil,
    ValidFacts.description_checks_nil, ValidFacts.compatibility_checks_nil.
  reflexivity.
Qed.

(** The check for markup tags in the name never fires on its own: a
    name that draws the XML-tag error also draws the pattern error. *)
Theorem name_tag_error_never_alone (md : SkillMetadata) (e : ValidationError) :
  In e (errors (validateMetadata md)) ->
  field e = "name" ->
  message e = "Name cannot contain XML tags" ->
  exists e',
    In e' (errors (validateMetadata md)) /\ field e' = "name" /\
    Str.includes "Name must contain only lowercase letters" (message e') = true.
Proof.
  intros Hin Hf Hm.
  assert (Hn : In e (name_checks md)).
  { unfold validateMetadata in Hin. cbn [errors] in Hin.
    apply in_app_or in Hin. destruct Hin as [H|Hin]; [exact H|]. exfalso.
    apply in_app_or in Hin. destruct Hin as [H|H].
    - unfold description_checks in H. destruct (falsy (description md)).
      + destruct H as [<-|[]]. discriminate Hf.
      + apply in_app_or in H. destruct H as [H|H];
          match type of H with In _ (when ?b _) => destruct b end;
          simpl in H; try tauto; destruct H as [<-|[]]; discriminate Hf.
    - unfold compatibility_checks in H. destruct (compatibility md); [|destruct H].
      match type of H with In _ (when ?b _) => destruct b end;
        simpl in H; try tauto; destruct H as [<-|[]]; discriminate Hf. }
  unfold name_checks in Hn. destruct (falsy (name md)) eqn:Hfalsy.
  { destruct Hn as [<-|[]]. discriminate Hm. }
  destruct (Regex.matches Pat.NAME_PATTERN (default "" (name md))) eqn:Hpat.
  - exfalso. rewrite (ValidatorFacts.name_no_tag _ Hpat) in Hn.
    cbn [negb when app] in Hn. rewrite app_nil_r in Hn.
    apply in_app_or in Hn. destruct Hn as [H|H].
    + destruct (64 <? len (default "" (name md))); simpl in H; [|tauto].
      destruct H as [<-|[]]. discriminate Hm.
    + unfold reserved_errors in H. apply in_flat_map in H. destruct H as [w [Hw H]].
      destruct (Str.includes w (Str.toLowerCase (default "" (name md)))); simpl in H; [|tauto].
      destruct H as [<-|[]]. cbn [message err] in Hm.
      simpl in Hw. destruct Hw as [<-|[<-|[<-|[<-|[]]]]]; discriminate Hm.
  - eexists. split; [|split].
    + unfold validateMetadata. cbn [errors]. apply in_or_app. left.
      unfold name_checks. rewrite Hfalsy, Hpat. apply in_or_app. right.
      apply in_or_app. left. left. reflexivity.
    + reflexivity.
    + reflexivity.
Qed.

Lemma name_tag_error_never_alone_witness :
  exists e',
    In e' (errors (validateMetadata (Sample.only_name "<b>"))) /\ field e' = "name" /\
    Str.includes "Name must contain only lowercase letters" (message e') = true.
Proof.
  apply (name_tag_error_never_alone (Sample.only_name "<b>")
           (err "name" "Name cannot contain XML tags" (Some (VStr "<b>")))).
  - vm_compute. right. left. reflexivity.
  - reflexivity.
  - reflexivity.
Defined.

(** [validateBody] never reports an error, and it stays silent exactly
    for a body that holds a character other than white space, fewer than
    500 line feeds and at most 20000 characters. *)
Theorem validateBody_silent_iff (body : string) :
  valid (validateBody body) = true /\
  errors (validateBody body) = [] /\
  (warnings (validateBody body) = [] <->
   Str.has_char (fun c => negb (Js.is_space c)) body = true /\
   (Js.count Js.newline body < 500)%nat /\
   len body <= 20000).
Proof.
  split; [reflexivity|]. split; [reflexivity|].
  unfold validateBody. cbn [warnings].
  rewrite JsFacts.split_length, JsFacts.len_empty.
  split.
  - intros H.
    apply app_eq_nil in H. destruct H as [He%ValidFacts.when_nil H].
    apply app_eq_nil in H. destruct H as [Hl%ValidFacts.when_nil Ht%ValidFacts.when_nil].
    apply orb_false_iff in He. destruct He as [_ He].
    apply Z.ltb_ge in Hl, Ht. repeat split.
    + destruct (Str.has_char (fun c => negb (Js.is_space c)) body) eqn:Hh; [reflexivity|].
      exfalso. assert (Ha : Str.all_chars Js.is_space body = true)
        by (rewrite JsFacts.all_not_has, Hh; reflexivity).
      apply JsFacts.trim_empty in Ha. rewrite Ha in He. discriminate He.
    + lia.
    + unfold len in *. apply Z.nlt_ge. intros Hlt.
      assert (5001 <= (Z.of_nat (String.length body) + 3) / 4); [|lia].
      apply Z.div_le_lower_bound; lia.
  - intros [Hh [Hc Hl]].
    assert (He : (String.eqb body "" || String.eqb (Js.trim body) "") = false).
    { apply orb_false_iff. split.
      - destruct body; [discriminate Hh | reflexivity].
      - destruct (String.eqb_spec (Js.trim body) "") as [Hempty|]; [|reflexivity].
        apply JsFacts.trim_empty in Hempty.
        rewrite JsFacts.all_not_has, Hh in Hempty. discriminate Hempty. }
    rewrite He.
    assert (H1 : (500 <? Z.of_nat (S (Js.count Js.newline body))) = false)
      by (apply Z.ltb_ge; lia).
    assert (H2 : (5000 <? (len body + 3) / 4) = false).
    { apply Z.ltb_ge. apply Z.lt_succ_r. apply Z.div_lt_upper_bound; lia. }
    now rewrite H1, H2.
Qed.
(** ** escapeXML and the prompt *)

Module EscapeFacts.
Import Str Js Injector StrFacts JsFacts.

(** The characters [escapeXML] rewrites, and those of them its output
    never holds. *)
Definition markup (c : ascii) : bool :=
  Ascii.eqb c "&" || Ascii.eqb c "<" || Ascii.eqb c ">" || Ascii.eqb c dquote
  || Ascii.eqb c "'".

Definition raw (c : ascii) : bool :=
  Ascii.eqb c "<" || Ascii.eqb c ">" || Ascii.eqb c dquote || Ascii.eqb c "'".

Lemma replaceAll_app (c : ascii) (r a b : string) :
  replaceAll c r (a ^^ b) = replaceAll c r a ^^ replaceAll c r b.
Proof.
  induction a as [|d a IH]; sapp; [reflexivity|].
  cbn [replaceAll]. now rewrite IH, append_assoc.
Qed.

Lemma escapeXML_app (a b : string) :
  escapeXML (a ^^ b) = escapeXML a ^^ escapeXML b.
Proof. unfold escapeXML. now rewrite !replaceAll_app. Qed.

Lemma escapeXML_cons (c : ascii) (s : string) :
  escapeXML (String c s) = escapeXML (String c "") ^^ escapeXML s.
Proof. now rewrite <- escapeXML_app. Qed.

Lemma single_raw (c : ascii) : has_char raw (escapeXML (String c "")) = false.
Proof. destruct c as [[] [] [] [] [] [] [] []]; vm_compute; reflexivity. Qed.

Lemma escapeXML_raw (s : string) : has_char raw (escapeXML s) = false.
Proof.
  induction s as [|c s IH]; [reflexivity|].
  now rewrite escapeXML_cons, has_char_app, single_raw, IH.
Qed.

(** One character is kept, or is one of the five that become entities. *)
Lemma single_cases (c : ascii) :
  (escapeXML (String c "") = String c "" /\ c <> "&"%char)
  \/ (c = "&"%char) \/ (c = "<"%char) \/ (c = ">"%char) \/ (c = dquote)
  \/ (c = "'"%char).
Proof.
  destruct c as [[] [] [] [] [] [] [] []];
    first [ left; split; [vm_compute; reflexivity | discriminate]
          | right; left; reflexivity
          | right; right; left; reflexivity
          | right; right; right; left; reflexivity
          | right; right; right; right; left; reflexivity
          | right; right; right; right; right; reflexivity ].
Qed.

Lemma single_inj (c d : ascii) (x y : string) :
  escapeXML (String c "") ^^ x = escapeXML (String d "") ^^ y -> c = d /\ x = y.
Proof.
  destruct (single_cases c) as [[Hc Hc']|[->|[->|[->|[->| ->]]]]];
  destruct (single_cases d) as [[Hd Hd']|[->|[->|[->|[->| ->]]]]];
    rewrite ?Hc, ?Hd;
    repeat match goal with
           | |- context [escapeXML (String ?k "")] =>
               lazymatch k with
               | c => fail
               | d => fail
               | _ => let v := eval vm_compute in (escapeXML (String k "")) in
                      change (escapeXML (String k "")) with v
               end
           end;
    sapp; intros H; inversion H; subst; try (now split); congruence.
Qed.

Lemma single_not_empty (c : ascii) (x : string) : escapeXML (String c "") ^^ x <> "".
Proof.
  destruct (single_cases c) as [[Hc _]|[->|[->|[->|[->| ->]]]]];
    [rewrite Hc|..]; sapp; vm_compute; discriminate.
Qed.

Lemma escapeXML_inj (a : string) : forall b, escapeXML a = escapeXML b -> a = b.
Proof.
  induction a as [|c a IH]; intros [|d b] H.
  - reflexivity.
  - rewrite escapeXML_cons in H. symmetry in H. now apply single_not_empty in H.
  - rewrite escapeXML_cons in H. now apply single_not_empty in H.
  - rewrite (escapeXML_cons c), (escapeXML_cons d) in H.
    apply single_inj in H. destruct H as [-> H]. now rewrite (IH b H).
Qed.

Lemma append_empty (a b : string) : a ^^ b = "" -> a = "".
Proof. destruct a; sapp; [reflexivity | discriminate]. Qed.

Lemma count_app (c : ascii) (a b : string) :
  (count c (a ^^ b) = count c a + count c b)%nat.
Proof.
  induction a as [|d a IH]; sapp; [reflexivity|].
  cbn [count]. rewrite IH. lia.
Qed.

Lemma count_none (p : ascii -> bool) (c : ascii) (s : string) :
  p c = true -> has_char p s = false -> count c s = 0%nat.
Proof.
  intros Hp. induction s as [|d s IH]; [reflexivity|]. cbn [has_char count].
  intros H. apply orb_false_iff in H. destruct H as [Hd H].
  rewrite (IH H). destruct (Ascii.eqb_spec d c) as [->|]; [congruence|reflexivity].
Qed.

Lemma count_escaped (c : ascii) (s : string) :
  raw c = true -> count c (escapeXML s) = 0%nat.
Proof. intros H. apply (count_none raw c _ H), escapeXML_raw. Qed.

Lemma count_element (c : ascii) (skill : SkillRef) :
  raw c = true ->
  count c (skill_element skill) = count c (skill_element {| ref_name := ""; ref_description := ""; ref_path := [] |}).
Proof.
  intros H. unfold skill_element. rewrite !count_app, !count_escaped by exact H.
  reflexivity.
Qed.

Lemma count_join (c : ascii) (k : nat) (l : list string) :
  (forall x, In x l -> count c x = k) ->
  (count c (join "" l) = k * length l)%nat.
Proof.
  induction l as [|x l IH]; intros H; [simpl; lia|].
  assert (Hl : (count c (join "" l) = k * length l)%nat)
    by (apply IH; intros y Hy; apply H; now right).
  destruct l as [|y l].
  - cbn [join length]. rewrite (H x) by now left. lia.
  - change (join "" (x :: y :: l)) with (x ^^ "" ^^ join "" (y :: l)).
    rewrite !count_app, Hl, (H x) by now left. cbn [count length]. lia.
Qed.

End EscapeFacts.

(** [escapeXML] works character by character, its output holds no
    angle bracket and no quote, and it loses nothing: two strings with
    the same escaped form are the same string. *)
Theorem escapeXML_faithful :
  (forall a b, Injector.escapeXML (a ^^ b) = Injector.escapeXML a ^^ Injector.escapeXML b) /\
  (forall s, Str.has_char EscapeFacts.raw (Injector.escapeXML s) = false) /\
  (forall a b, Injector.escapeXML a = Injector.escapeXML b -> a = b).
Proof.
  split; [exact EscapeFacts.escapeXML_app|]. split; [exact EscapeFacts.escapeXML_raw|].
  exact EscapeFacts.escapeXML_inj.
Qed.

(** The prompt counts its skills, is empty exactly for no skills (and
    so is the full context), and whatever the names, descriptions and
    paths hold, its angle brackets are those of its own tags: two for
    the list and eight for each skill. *)
Theorem generateSkillsPromptXML_markup (skills : list SkillRef) :
  let p := Injector.generateSkillsPromptXML skills in
  Injector.skillCount p = Z.of_nat (length skills) /\
  (Injector.xml p = "" <-> skills = []) /\
  (Injector.generateFullSkillsContext skills = "" <-> skills = []) /\
  (skills <> [] ->
   Js.count "<" (Injector.xml p) = (2 + 8 * length skills)%nat /\
   Js.count ">" (Injector.xml p) = (2 + 8 * length skills)%nat /\
   4 * (Injector.estimatedTokens p - 1) < len (Injector.xml p) <= 4 * Injector.estimatedTokens p).
Proof.
  destruct skills as [|s l].
  - cbn zeta. split; [reflexivity|]. split; [split; reflexivity|].
    split; [split; reflexivity|]. intros H. now destruct H.
  - set (skills := s :: l). cbn zeta.
    assert (Hx : Injector.xml (Injector.generateSkillsPromptXML skills) =
                 "<available_skills>" ^^ Str.join "" (map Injector.skill_element skills) ^^ "
</available_skills>") by reflexivity.
    split; [reflexivity|]. split.
    { rewrite Hx. StrFacts.sapp. split; discriminate. }
    split.
    { unfold Injector.generateFullSkillsContext. rewrite Hx.
      rewrite StrFacts.append_cons. cbn [String.eqb]. split; [|discriminate].
      intros H. apply EscapeFacts.append_empty in H.
      unfold Injector.generateSkillSystemInstructions in H. discriminate H. }
    intros _. rewrite Hx. rewrite !EscapeFacts.count_app.
    rewrite (EscapeFacts.count_join "<" 8), (EscapeFacts.count_join ">" 8).
    + rewrite length_map.
      assert (Hc : forall n : Z, 4 * ((n + 3) / 4 - 1) < n <= 4 * ((n + 3) / 4)).
      { intros n. pose proof (Z.div_mod (n + 3) 4). pose proof (Z.mod_pos_bound (n + 3) 4). lia. }
      split; [|split].
      * match goal with
        | |- (?a + (_ + ?b))%nat = _ =>
            replace a with 1%nat by reflexivity; replace b with 1%nat by reflexivity
        end. lia.
      * match goal with
        | |- (?a + (_ + ?b))%nat = _ =>
            replace a with 1%nat by reflexivity; replace b with 1%nat by reflexivity
        end. lia.
      * rewrite <- Hx. apply Hc.
    + intros x Hx'. apply in_map_iff in Hx'. destruct Hx' as [k [<- _]].
      now rewrite EscapeFacts.count_element.
    + intros x Hx'. apply in_map_iff in Hx'. destruct Hx' as [k [<- _]].
      now rewrite EscapeFacts.count_element.
Qed.
(** ** isScriptSafe *)

Module ExecutorFacts.
Import Str Regex Executor StrFacts RegexFacts JsFacts.

(** A match somewhere in a text is a match in any text around it. *)
Lemma test_embed (r : regex) (a s b : string) :
  test r s = true -> test r (a ^^ s ^^ b) = true.
Proof.
  rewrite !test_spec. intros [a' [m [b' [-> Hm]]]].
  exists (a ^^ a'), m, (b' ^^ b). split; [|exact Hm].
  now rewrite !append_assoc.
Qed.

(** [c] occurs in every text of the language of [r]. *)
Fixpoint requires (c : ascii) (r : regex) : bool :=
  match r with
  | Void => true
  | Eps => false
  | Cls (Lit d) => Ascii.eqb d c
  | Cls _ => false
  | Cat r1 r2 => requires c r1 || requires c r2
  | Alt r1 r2 => requires c r1 && requires c r2
  | Star _ => false
  end.

Lemma requires_lang (c : ascii) (r : regex) (m : string) :
  lang r m -> requires c r = true -> has_char (Ascii.eqb c) m = true.
Proof.
  induction 1 as [|k d Hk|r1 r2 s1 s2 H1 IH1 H2 IH2|r1 r2 s H IH|r1 r2 s H IH| |r s1 s2 H1 IH1 H2 IH2];
    cbn [requires]; try discriminate.
  - destruct k; try discriminate. simpl in Hk. apply Ascii.eqb_eq in Hk. subst.
    intros Hc. apply Ascii.eqb_eq in Hc. subst. cbn. now rewrite Ascii.eqb_refl.
  - rewrite has_char_app, !orb_true_iff. intros [Hc|Hc]; [left | right]; auto.
  - rewrite andb_true_iff. intros [Hc _]. auto.
  - rewrite andb_true_iff. intros [_ Hc]. auto.
Qed.

Lemma requires_test (c : ascii) (r : regex) (s : string) :
  requires c r = true -> has_char (Ascii.eqb c) s = false -> test r s = false.
Proof.
  intros Hr Hs. destruct (test r s) eqn:Ht; [|reflexivity].
  apply test_spec in Ht. destruct Ht as [a [m [b [-> Hm]]]].
  rewrite !has_char_app, (requires_lang c r m Hm Hr), orb_true_r in Hs. discriminate Hs.
Qed.

End ExecutorFacts.

(** Wrapping a script in more text never removes a warning: every
    warning of [s] is a warning of [a ++ s ++ b], so a script with an
    unsafe part is unsafe. *)
Theorem isScriptSafe_embedding (a s b : string) :
  (forall msg, In msg (Executor.warnings (Executor.isScriptSafe s)) ->
               In msg (Executor.warnings (Executor.isScriptSafe (a ^^ s ^^ b)))) /\
  (Executor.safe (Executor.isScriptSafe (a ^^ s ^^ b)) = true ->
   Executor.safe (Executor.isScriptSafe s) = true).
Proof.
  assert (Hin : forall msg, In msg (Executor.warnings (Executor.isScriptSafe s)) ->
                In msg (Executor.warnings (Executor.isScriptSafe (a ^^ s ^^ b)))).
  { unfold Executor.isScriptSafe. cbn [Executor.warnings]. intros msg Hm.
    apply in_flat_map in Hm. destruct Hm as [[r m] [Hp Hm]].
    apply in_flat_map. exists (r, m). split; [exact Hp|].
    destruct (Regex.test r s) eqn:Ht; [|destruct Hm].
    now rewrite (ExecutorFacts.test_embed r a s b Ht). }
  split; [exact Hin|].
  unfold Executor.isScriptSafe in *. cbn [Executor.safe Executor.warnings] in *.
  destruct (flat_map _ _) as [|m l] eqn:Hs at 2; [reflexivity|].
  rewrite Hs in Hin. specialize (Hin m (or_introl eq_refl)).
  destruct (flat_map _ _) eqn:Hw at 1; [|discriminate]. rewrite Hw in Hin. destruct Hin.
Qed.

(** Every pattern of the screen needs a hyphen, a bar or an opening
    parenthesis: a script without these three characters draws no
    warning, whatever else it holds. *)
Theorem isScriptSafe_needs_punctuation (s : string) :
  Str.has_char (Ascii.eqb "-") s = false ->
  Str.has_char (Ascii.eqb "|") s = false ->
  Str.has_char (Ascii.eqb "(") s = false ->
  Executor.isScriptSafe s = {| Executor.safe := true; Executor.warnings := [] |}.
Proof.
  intros Hh Hb Hp. unfold Executor.isScriptSafe.
  assert (Hw : flat_map (fun '(pattern, message) => when (Regex.test pattern s) message)
                 Executor.dangerousPatterns = []).
  { unfold Executor.dangerousPatterns. cbn [flat_map].
    repeat match goal with
           | |- context [Regex.test ?r s] =>
               first [ rewrite (ExecutorFacts.requires_test "-" r s eq_refl Hh)
                     | rewrite (ExecutorFacts.requires_test "|" r s eq_refl Hb)
                     | rewrite (ExecutorFacts.requires_test "(" r s eq_refl Hp) ]
           end.
    reflexivity. }
  now rewrite Hw.
Qed.

Lemma isScriptSafe_needs_punctuation_witness :
  Executor.isScriptSafe "print 42" = {| Executor.safe := true; Executor.warnings := [] |}.
Proof.
  apply isScriptSafe_needs_punctuation; reflexivity.
Defined.
(** ** More on discovery, and loading a skill by name *)

Module DiscoverFacts.
Import MonadFacts FsFacts LoaderFacts.

Definition roots_of (config : SkillDiscoveryConfig) (w : world) : list path :=
  map normalize (default (DEFAULT_SKILL_PATHS w) (searchPaths config)).

Definition depth_of (config : SkillDiscoveryConfig) : Z :=
  match maxDepth config with
  | Some d => if d =? 0 then 3 else d
  | None => 3
  end.

Lemma discoverSkills_run (config : SkillDiscoveryConfig) (w : world) :
  discoverSkills config w =
  (Ok (flat_map (found_under w (depth_of config)) (roots_of config w)),
   set_console
     (console w ++ flat_map (warned_under w (depth_of config)) (roots_of config w)) w).
Proof.
  unfold discoverSkills, bind. cbn [gets].
  change (map normalize (default (DEFAULT_SKILL_PATHS w) (searchPaths config)))
    with (roots_of config w).
  change (match maxDepth config with
          | Some d => if d =? 0 then 3 else d
          | None => 3
          end) with (depth_of config).
  now rewrite discover_roots_run.
Qed.

Lemma last_snoc {A} (l : list A) (x : A) :
  last l = Some x -> l = removelast l ++ [x].
Proof.
  induction l as [|y l IH]; [discriminate|].
  destruct l as [|z l]; [now intros [= ->]|].
  intros H. change (removelast (y :: z :: l)) with (y :: removelast (z :: l)).
  cbn [app]. f_equal. apply IH. exact H.
Qed.

(** What stands behind a reference found under a root. *)
Record behind (w : world) (depth : Z) (root : path) (r : SkillRef)
    (p : path) (content : text) (md : SkillMetadata) : Prop := {
  b_root : node_at (fs w) root = Some Dir;
  b_shape : exists mids,
      p = root ++ mids ++ ["SKILL.md"] /\ forall seg, In seg mids -> hidden seg = false;
  b_depth : Z.of_nat (length p) <= depth + Z.of_nat (length (cwd w));
  b_file : fs w !! p = Some (File content);
  b_matter : matter content = Some md;
  b_name : name md = Some (ref_name r);
  b_name_ne : ref_name r <> "";
  b_description : description md = Some (ref_description r);
  b_description_ne : ref_description r <> "";
  b_path : ref_path r = removelast p
}.

Lemma truthy_field (s : option string) :
  falsy s = false -> s = Some (default "" s) /\ default "" s <> "".
Proof.
  destruct s as [v|]; [|discriminate]. cbn. intros H. split; [reflexivity|].
  now apply String.eqb_neq.
Qed.

Lemma found_behind (w : world) (depth : Z) (root : path) (r : SkillRef) :
  In r (found_under w depth root) ->
  exists p content md, behind w depth root r p content md.
Proof.
  unfold found_under. intros Hin.
  apply list_elem_of_In, list_elem_of_omap in Hin. destruct Hin as [p [Hp Hr]].
  apply list_elem_of_In, glob_spec in Hp. destruct Hp as [Hroot [_ [Hd Hshape]]].
  assert (Hne : p <> []).
  { destruct Hshape as [mids [-> _]]. rewrite app_assoc. now destruct (root ++ mids). }
  unfold ref_of, load_outcome in Hr. rewrite (node_at_lookup (fs w) p Hne) in Hr.
  destruct (fs w !! p) as [[|content]|] eqn:Hq; try discriminate.
  destruct (matter content) as [md|] eqn:Hm; [|discriminate].
  destruct (falsy (name md) || falsy (description md)) eqn:Hf; [discriminate|].
  inversion Hr; subst r. apply orb_false_iff in Hf. destruct Hf as [Hn Hdesc].
  destruct (truthy_field _ Hn) as [Hn1 Hn2].
  destruct (truthy_field _ Hdesc) as [Hd1 Hd2].
  exists p, content, md. split; auto.
Qed.

Lemma in_found (config : SkillDiscoveryConfig) (w : world) (r : SkillRef) :
  In r (flat_map (found_under w (depth_of config)) (roots_of config w)) ->
  exists root p content md,
    In root (roots_of config w) /\ behind w (depth_of config) root r p content md.
Proof.
  intros Hin. apply in_flat_map in Hin. destruct Hin as [root [Hroot Hr]].
  destruct (found_behind _ _ _ _ Hr) as [p [content [md Hb]]].
  exists root, p, content, md. auto.
Qed.

Ltac fs_console w :=
  repeat match goal with
         | |- context [fs (set_console ?l w)] => change (fs (set_console l w)) with (fs w)
         end.

End DiscoverFacts.



(** Discovery goes root by root and merges nothing: the references
    found for a list of roots followed by another are those of the first
    list followed by those of the second, so a root listed twice yields
    its skills twice. *)
Theorem discoverSkills_roots_append (r1 r2 : list path) (rec : option bool)
    (depth : option Z) (w : world) :
  let config roots :=
    {| searchPaths := Some roots; recursive := rec; maxDepth := depth |} in
  exists a b wa wb w',
    discoverSkills (config r1) w = (Ok a, wa) /\
    discoverSkills (config r2) w = (Ok b, wb) /\
    discoverSkills (config (r1 ++ r2)) w = (Ok (a ++ b), w') /\
    fs w' = fs w.
Proof.
  intros config. rewrite !DiscoverFacts.discoverSkills_run.
  do 5 eexists. split; [reflexivity|]. split; [reflexivity|]. split.
  - apply (f_equal2 pair); [|reflexivity]. f_equal.
    unfold DiscoverFacts.roots_of, config. cbn [searchPaths from_option].
    unfold DiscoverFacts.depth_of. cbn [maxDepth id]. rewrite map_app. apply flat_map_app.
  - reflexivity.
Qed.

(** [getSkillByName] loads the first discovered skill of that name, in
    the order glob walked the tree in, whatever that order is, from the
    document it was discovered in, unless the directory of the
    document has itself a name that ends in SKILL.md: [loadSkill] then
    takes the directory for the document and the call fails on reading
    it. *)
Theorem getSkillByName_reloads (matter_content : text -> string) (n : string)
    (config : SkillDiscoveryConfig) (w w1 : world) (refs : list SkillRef) (r : SkillRef) :
  discoverSkills config w = (Ok refs, w1) ->
  List.find (fun s => String.eqb (ref_name s) n) refs = Some r ->
  (endsWith "SKILL.md" (path_string (ref_path r)) = false ->
   exists content md,
     fs w !! (ref_path r ++ ["SKILL.md"]) = Some (File content) /\
     matter content = Some md /\
     name md = Some n /\
     getSkillByName matter_content n config w =
       (Ok (Some {| Skill.metadata := md;
                    Skill.body := Js.trim (matter_content content);
                    Skill.path := ref_path r;
                    Skill.skillMdPath := ref_path r ++ ["SKILL.md"] |}), w1))
  /\
  (endsWith "SKILL.md" (path_string (ref_path r)) = true ->
   node_at (fs w) (ref_path r) = Some Dir ->
   getSkillByName matter_content n config w = (Throw (SystemError "EISDIR"), w1)).
Proof.
  intros Hrun Hfind. unfold getSkillByName, bind. rewrite Hrun, Hfind.
  rewrite DiscoverFacts.discoverSkills_run in Hrun. inversion Hrun as [[Hrefs Hw1]].
  apply List.find_some in Hfind. destruct Hfind as [Hin Hn]. apply String.eqb_eq in Hn.
  rewrite <- Hrefs in Hin.
  destruct (DiscoverFacts.in_found config w r Hin) as [root [p [content [md [_ Hb]]]]].
  destruct Hb as [_ [mids [Hshape _]] _ Hfile Hm Hname Hname_ne Hdesc Hdesc_ne Hpath].
  assert (Hp : p = removelast p ++ ["SKILL.md"]).
  { rewrite Hshape. now rewrite app_assoc, removelast_last. }
  assert (Hne : p <> []) by (rewrite Hp; now destruct (removelast p)).
  rewrite <- Hpath in Hp.
  split.
  - intros Hends. exists content, md. rewrite <- Hp. rewrite Hn in Hname.
    split; [exact Hfile|]. split; [exact Hm|]. split; [exact Hname|].
    unfold loadSkill. rewrite Hends, <- Hp. unfold bind, existsSync, gets, readFile.
    DiscoverFacts.fs_console w.
    rewrite (FsFacts.node_at_lookup _ p Hne), Hfile. cbn [negb]. DiscoverFacts.fs_console w.
    rewrite (FsFacts.node_at_lookup _ p Hne), Hfile, Hm, Hname, Hdesc.
    cbn [falsy]. apply String.eqb_neq in Hdesc_ne. rewrite Hdesc_ne.
    rewrite Hn in Hname_ne. apply String.eqb_neq in Hname_ne. rewrite Hname_ne. cbn [orb ret]. now rewrite Hpath.
  - intros Hends Hdir. unfold loadSkill. rewrite Hends.
    unfold bind, existsSync, gets, readFile.
    DiscoverFacts.fs_console w. rewrite Hdir. cbn [negb].
    DiscoverFacts.fs_console w. now rewrite Hdir.
Qed.

Lemma getSkillByName_reloads_witness :
  (exists content md,
     fs Sample.disk_world !! (Sample.skills_root ++ ["pdf"; "SKILL.md"]) = Some (File content) /\
     matter content = Some md /\
     name md = Some "pdf" /\
     getSkillByName (fun _ => " Read the file. ") "pdf" Sample.disk_config Sample.disk_world =
       (Ok (Some {| Skill.metadata := md;
                    Skill.body := Js.trim " Read the file. ";
                    Skill.path := Sample.skills_root ++ ["pdf"];
                    Skill.skillMdPath := Sample.skills_root ++ ["pdf"; "SKILL.md"] |}),
        (discoverSkills Sample.disk_config Sample.disk_world).2))
  /\
  getSkillByName (fun _ => "") "notes" Sample.nested_config Sample.nested_world =
    (Throw (SystemError "EISDIR"), (discoverSkills Sample.nested_config Sample.nested_world).2).
Proof.
  split.
  - refine (proj1 (getSkillByName_reloads (fun _ => " Read the file. ") "pdf"
                     Sample.disk_config Sample.disk_world _ [Sample.pdf_ref] Sample.pdf_ref
                     (MonadFacts.run_fst _ _ _ _) _) _).
    + vm_compute. reflexivity.
    + reflexivity.
    + vm_compute. reflexivity.
  - refine (proj2 (getSkillByName_reloads (fun _ => "") "notes"
                     Sample.nested_config Sample.nested_world _ [Sample.notes_ref]
                     Sample.notes_ref (MonadFacts.run_fst _ _ _ _) _) _ _).
    + vm_compute. reflexivity.
    + reflexivity.
    + vm_compute. reflexivity.
    + vm_compute. reflexivity.
Defined.

(** Which document a name resolves to follows the walk of glob: of two
    skills called [pdf], the one the walk comes to first is loaded. *)
Lemma getSkillByName_follows_the_walk :
  let load first :=
    (getSkillByName (fun _ => "") "pdf" Sample.disk_config (Sample.twin_world first)).1 in
  (exists s, load "a" = Ok (Some s) /\ Skill.path s = ["work"; "skills"; "a"]) /\
  (exists s, load "b" = Ok (Some s) /\ Skill.path s = ["work"; "skills"; "b"]).
Proof. split; eexists; split; vm_compute; reflexivity. Qed.

Lemma stale_entry_refetched_witness :
  fetchSkillsFromSource Sample.anthropic Sample.stale_world =
  fetch_fresh Sample.anthropic Sample.stale_world.
Proof.
  apply (proj1 (stale_entry_refetched Sample.anthropic Sample.stale_world [] 0
                  eq_refl ltac:(vm_compute; discriminate))).
Defined.
(** ** More on the resolver: batches, sources, the shared cache key *)

Module BatchFacts.
Import MonadFacts.

Lemma all_of_app {A B} (f : A -> M B) (a b : list A) (w : world) :
  all_of f (a ++ b) w =
  (let! xs := all_of f a in let! ys := all_of f b in ret (xs ++ ys)) w.
Proof.
  revert w. induction a as [|x a IH]; intros w; cbn [all_of app].
  - unfold bind. cbn [ret]. destruct (all_of f b w) as [[ys|e] w']; reflexivity.
  - unfold bind at 1 3 4. destruct (f x w) as [[y|e] w1]; [|reflexivity].
    unfold bind at 1. rewrite IH. unfold bind.
    destruct (all_of f a w1) as [[xs|e] w2]; [|reflexivity]. cbn [ret].
    destruct (all_of f b w2) as [[ys|e] w3]; reflexivity.
Qed.

Lemma bind_all_of_app {A B C} (f : A -> M B) (a b : list A) (k : list B -> M C)
    (w : world) :
  bind (all_of f (a ++ b)) k w =
  bind (all_of f a) (fun xs => bind (all_of f b) (fun ys => k (xs ++ ys))) w.
Proof.
  unfold bind at 1. rewrite all_of_app. unfold bind.
  destruct (all_of f a w) as [[xs|e] w1]; [|reflexivity].
  destruct (all_of f b w1) as [[ys|e] w2]; reflexivity.
Qed.

Lemma bind_ext {A B} (m : M A) (k1 k2 : A -> M B) (w : world) :
  (forall a w', k1 a w' = k2 a w') -> bind m k1 w = bind m k2 w.
Proof. intros H. unfold bind. destruct (m w) as [[a|e] w']; [apply H | reflexivity]. Qed.

(** The batches are one pass over the directories. *)
Lemma fetch_batches_one_pass (fuel : nat) (source : MarketplaceSource) (branch : string) :
  forall (dirs : list DirEntry) (acc : list MarketplaceSkill) (w : world),
    (length dirs <= fuel)%nat ->
    fetch_batches fuel source branch dirs acc w =
    (let! results := all_of (fetch_dir source branch) dirs in
     ret (acc ++ omap id results)) w.
Proof.
  induction fuel as [|fuel IH]; intros dirs acc w Hlen.
  - destruct dirs; [|simpl in Hlen; lia]. cbn. now rewrite app_nil_r.
  - destruct dirs as [|d dirs]; [cbn; now rewrite app_nil_r|].
    change (fetch_batches (S fuel) source branch (d :: dirs) acc w)
      with ((let! results := all_of (fetch_dir source branch) (take BATCH_SIZE (d :: dirs)) in
             fetch_batches fuel source branch (drop BATCH_SIZE (d :: dirs))
               (acc ++ omap id results)) w).
    transitivity
      ((let! results := all_of (fetch_dir source branch)
                          (take BATCH_SIZE (d :: dirs) ++ drop BATCH_SIZE (d :: dirs)) in
        ret (acc ++ omap id results)) w); [|now rewrite take_drop].
    rewrite bind_all_of_app. apply bind_ext. intros xs w1.
    rewrite IH by (rewrite length_drop; unfold BATCH_SIZE; cbn [length] in *; lia).
    apply bind_ext. intros ys w2. now rewrite omap_app, app_assoc.
Qed.

(** One directory: one request, and never a rejection. *)
Lemma fetch_dir_run (source : MarketplaceSource) (branch : string) (dir : DirEntry)
    (w : world) :
  exists r w', fetch_dir source branch dir w = (Ok r, w') /\
               fetches w' = S (fetches w) /\
               forall s, r = Some s -> Remote.source s = source /\ Remote.path s = de_path dir.
Proof.
  unfold fetch_dir, try_catch, bind, fetch.
  destruct (net w _) as [r|].
  - destruct (ok r); [|do 2 eexists; split; [reflexivity|]; split; [reflexivity|discriminate]].
    destruct (frontmatter _) as [fm|]; do 2 eexists;
      (split; [reflexivity|]; split; [reflexivity|]).
    + intros s [= <-]. now split.
    + discriminate.
  - do 2 eexists. split; [reflexivity|]. split; [reflexivity|discriminate].
Qed.

Lemma all_of_fetch_dir (source : MarketplaceSource) (branch : string) (dirs : list DirEntry) :
  forall w, exists rs w',
    all_of (fetch_dir source branch) dirs w = (Ok rs, w') /\
    fetches w' = (fetches w + length dirs)%nat /\
    Forall2 (fun dir r => forall s, r = Some s ->
                            Remote.source s = source /\ Remote.path s = de_path dir) dirs rs.
Proof.
  induction dirs as [|d dirs IH]; intros w; cbn [all_of].
  - exists [], w. split; [reflexivity|]. split; [cbn; lia | constructor].
  - destruct (fetch_dir_run source branch d w) as [r [w1 [Hr [Hc Hs]]]].
    destruct (IH w1) as [rs [w2 [Hrs [Hc2 Hall]]]].
    exists (r :: rs), w2. unfold bind. rewrite Hr, Hrs. split; [reflexivity|].
    split; [cbn [length]; lia | now constructor].
Qed.

Lemma omap_id_sources (source : MarketplaceSource) (dirs : list DirEntry)
    (rs : list (option MarketplaceSkill)) :
  Forall2 (fun dir r => forall s, r = Some s ->
                          Remote.source s = source /\ Remote.path s = de_path dir) dirs rs ->
  Forall (fun s => Remote.source s = source /\ exists dir, In dir dirs /\ Remote.path s = de_path dir)
         (omap id rs).
Proof.
  induction 1 as [|d r dirs rs Hr Hall IH]; [constructor|].
  assert (IH' : Forall (fun s => Remote.source s = source /\
                          exists dir, In dir (d :: dirs) /\ Remote.path s = de_path dir)
                  (omap id rs)).
  { eapply Forall_impl; [exact IH|]. intros s [Hs [dir [Hd Hp]]].
    split; [exact Hs|]. exists dir. split; [now right | exact Hp]. }
  destruct r as [s|]; cbn; [|exact IH'].
  constructor; [|exact IH']. destruct (Hr s eq_refl) as [Hs Hp].
  split; [exact Hs|]. exists d. split; [now left | exact Hp].
Qed.

Lemma length_omap_id {A} (rs : list (option A)) : (length (omap id rs) <= length rs)%nat.
Proof. induction rs as [|[x|] rs IH]; cbn; lia. Qed.

Lemma fetch_index_sources (source : MarketplaceSource) (w w' : world)
    (found : list MarketplaceSkill) :
  fetch_index source w = (Ok (Some found), w') ->
  Forall (fun s => Remote.source s = source) found /\ fetches w' = S (fetches w).
Proof.
  unfold fetch_index, try_catch. unfold bind at 1. unfold fetch.
  destruct (net w _) as [r|]; [|discriminate].
  destruct (ok r); [|discriminate].
  unfold bind, json_index. destruct (payload r); cbn; try discriminate.
  intros [= <- <-]. split; [|reflexivity].
  apply List.Forall_forall. intros s Hs. apply in_map_iff in Hs. now destruct Hs as [x [<- _]].
Qed.

Lemma fetch_index_count (source : MarketplaceSource) (w : world) :
  fetches (fetch_index source w).2 = S (fetches w).
Proof.
  unfold fetch_index, try_catch. unfold bind at 1. unfold fetch.
  destruct (net w _) as [r|]; [|reflexivity].
  destruct (ok r); [|reflexivity].
  unfold bind, json_index. destruct (payload r); reflexivity.
Qed.

(** The address of the fallback listing. *)
Definition listing_url (source : MarketplaceSource) : string :=
  "https://api.github.com/repos/" ^^ Source.owner source ^^ "/" ^^
  Source.repo source ^^ "/contents/" ^^ or_else (Source.skillsPath source) "skills" ^^
  "?ref=" ^^ or_else (Source.branch source) "main".

Definition is_dir (item : DirEntry) : bool := String.eqb (de_type item) "dir".

Lemma fetch_listing_sources (source : MarketplaceSource) (w w' : world)
    (found : list MarketplaceSkill) :
  fetch_listing source w = (Ok found, w') ->
  Forall (fun s => Remote.source s = source) found /\
  exists r items,
    net w (Get (listing_url source)) = Some r /\
    payload r = ListingJson items /\
    (fetches w' = fetches w + 1 + length (List.filter is_dir items))%nat /\
    (length found <= length (List.filter is_dir items))%nat.
Proof.
  unfold fetch_listing, try_catch. unfold bind at 1. unfold fetch.
  fold (listing_url source).
  destruct (net w (Get (listing_url source))) as [r|] eqn:Hnet; [|discriminate].
  destruct (ok r); cbn [negb]; [|discriminate].
  unfold bind at 1. unfold json_listing.
  destruct (payload r) as [| |items| |] eqn:Hpay; cbn [ret throw]; try discriminate.
  unfold bind at 1. rewrite fetch_batches_one_pass by lia.
  fold is_dir. set (dirs := List.filter is_dir items).
  destruct (all_of_fetch_dir source (or_else (Source.branch source) "main") dirs
              (set_fetches (S (fetches w)) w)) as [rs [w1 [Hrs [Hc Hall]]]].
  unfold bind at 1. rewrite Hrs. cbn. intros [= <- <-].
  split.
  - eapply Forall_impl; [apply (omap_id_sources source dirs rs Hall)|]. now intros s [Hs _].
  - exists r, items. split; [reflexivity|]. split; [exact Hpay|].
    cbn [fetches set_skillsCache]. split.
    + fold dirs. rewrite Hc. cbn [fetches set_fetches]. lia.
    + fold dirs. rewrite (Forall2_length _ _ _ Hall). apply length_omap_id.
Qed.

Lemma fetch_index_net (source : MarketplaceSource) (w : world) :
  net (fetch_index source w).2 = net w.
Proof.
  pose proof (FrameFacts.fetch_index_resolver source w) as H.
  apply (f_equal net) in H. exact H.
Qed.

Definition index_url (source : MarketplaceSource) : string :=
  raw_url source (or_else (Source.branch source) "main")
    (or_else (Source.skillsPath source) "skills" ^^ "/skills-index.json").

(** What [fetch_index] makes of the answer to the request for the
    index. *)
Lemma fetch_index_cases (source : MarketplaceSource) (w : world) :
  exists w',
    fetches w' = S (fetches w) /\
    fetch_index source w =
      (Ok (match net w (Get (index_url source)) with
           | Some r =>
               if ok r then
                 match payload r with
                 | IndexJson entries => Some (map (index_skill source) entries)
                 | _ => None
                 end
               else None
           | None => None
           end), w').
Proof.
  unfold fetch_index, try_catch. fold (index_url source). unfold bind at 1. unfold fetch.
  destruct (net w (Get (index_url source))) as [r|]; [|eexists; split; [|reflexivity]; reflexivity].
  destruct (ok r); [|eexists; split; [|reflexivity]; reflexivity].
  unfold bind, json_index.
  destruct (payload r); cbn; eexists; (split; [|reflexivity]); reflexivity.
Qed.

End BatchFacts.

(** The batched loop of the fallback never throws, sends exactly one
    request for each directory and yields what a single pass over all
    directories yields, in the order of the listing: the fuel is enough
    and the batch size does not show. *)
Theorem fetch_batches_is_one_pass (source : MarketplaceSource) (branch : string)
    (dirs : list DirEntry) (w : world) :
  fetch_batches (length dirs) source branch dirs [] w =
    (let! results := all_of (fetch_dir source branch) dirs in ret (omap id results)) w /\
  exists found w',
    fetch_batches (length dirs) source branch dirs [] w = (Ok found, w') /\
    fetches w' = (fetches w + length dirs)%nat /\
    (length found <= length dirs)%nat /\
    Forall (fun s => Remote.source s = source /\
                     exists dir, In dir dirs /\ Remote.path s = de_path dir) found.
Proof.
  rewrite BatchFacts.fetch_batches_one_pass by lia. split; [reflexivity|].
  destruct (BatchFacts.all_of_fetch_dir source branch dirs w) as [rs [w' [Hrs [Hc Hall]]]].
  exists (omap id rs), w'. unfold bind. rewrite Hrs. cbn [ret app].
  split; [reflexivity|]. split; [exact Hc|]. split.
  - rewrite (Forall2_length _ _ _ Hall). apply BatchFacts.length_omap_id.
  - now apply BatchFacts.omap_id_sources.
Qed.

(** A fresh fetch asks for the index first.  When the index answers,
    its entries are the skills returned, each with the source asked of,
    and the fetch costs that one request.  Only when there is no usable
    index does the fetch go on to the directory listing: it then costs
    two requests and one more for each directory listed, returns no
    more skills than there are directories, and they too carry the
    source. *)
Theorem fetch_fresh_carries_source (source : MarketplaceSource) (w : world) :
  let index := net w (Get (BatchFacts.index_url source)) in
  (forall r entries,
     index = Some r -> ok r = true -> payload r = IndexJson entries ->
     exists w',
       fetch_fresh source w = (Ok (map (index_skill source) entries), w') /\
       fetches w' = S (fetches w))
  /\
  (forall found w',
     fetch_fresh source w = (Ok found, w') ->
     Forall (fun s => Remote.source s = source) found /\
     ((forall r entries,
         index = Some r -> ok r = true -> payload r <> IndexJson entries) ->
      exists r items,
        net w (Get (BatchFacts.listing_url source)) = Some r /\
        payload r = ListingJson items /\
        fetches w' = (fetches w + 2 + length (List.filter BatchFacts.is_dir items))%nat /\
        (length found <= length (List.filter BatchFacts.is_dir items))%nat)).
Proof.
  intros index. unfold fetch_fresh, bind.
  destruct (BatchFacts.fetch_index_cases source w) as [w1 [Hc Hi]]. fold index in Hi.
  pose proof (BatchFacts.fetch_index_net source w) as Hnet. rewrite Hi in *. cbn [snd] in Hnet.
  split.
  - intros r entries Hr Hok Hp. rewrite Hr, Hok, Hp. exists w1. split; [reflexivity | exact Hc].
  - intros found w'.
    destruct index as [r|] eqn:Hr.
    + destruct (ok r) eqn:Hok.
      * destruct (payload r) as [?|entries|?|?|] eqn:Hp;
          try (intros Hl;
               destruct (BatchFacts.fetch_listing_sources _ _ _ _ Hl)
                 as [Hs [r' [listed [Hr' [Hp' [Hn Hlen]]]]]];
               split; [exact Hs|]; intros _; exists r', listed; rewrite <- Hnet;
               split; [exact Hr'|]; split; [exact Hp'|]; split; [lia | exact Hlen]).
        intros [= <- <-]. split.
        -- apply Forall_forall. intros s Hs. apply list_elem_of_In, in_map_iff in Hs.
           destruct Hs as [x [<- _]]. reflexivity.
        -- intros Hno. exfalso. now apply (Hno r entries).
      * intros Hl.
        destruct (BatchFacts.fetch_listing_sources _ _ _ _ Hl)
          as [Hs [r' [items [Hr' [Hp' [Hn Hlen]]]]]].
        split; [exact Hs|]. intros _. exists r', items. rewrite <- Hnet.
        split; [exact Hr'|]. split; [exact Hp'|]. split; [lia | exact Hlen].
    + intros Hl.
      destruct (BatchFacts.fetch_listing_sources _ _ _ _ Hl)
        as [Hs [r' [items [Hr' [Hp' [Hn Hlen]]]]]].
      split; [exact Hs|]. intros _. exists r', items. rewrite <- Hnet.
      split; [exact Hr'|]. split; [exact Hp'|]. split; [lia | exact Hlen].
Qed.

Lemma fetch_fresh_carries_source_witness :
  exists w',
    fetch_fresh Sample.anthropic (Sample.update_world (Some "2"))
      = (Ok [index_skill Sample.anthropic (Sample.index_entry "pdf" (Some "2"))], w') /\
    fetches w' = 1%nat.
Proof.
  apply (proj1 (fetch_fresh_carries_source Sample.anthropic (Sample.update_world (Some "2")))
           {| ok := true; status := 200;
              payload := IndexJson [Sample.index_entry "pdf" (Some "2")] |}
           [Sample.index_entry "pdf" (Some "2")]);
    reflexivity.
Defined.

(** The cache key is owner and repository only: within the TTL, the
    skills fetched for one source are served, unchanged and without a
    request, for any other source of the same owner and repository,
    whatever its branch or skills path. *)
Theorem cache_shared_across_branches (s1 s2 : MarketplaceSource) (w w1 : world)
    (found : list MarketplaceSkill) :
  Source.owner s1 = Source.owner s2 ->
  Source.repo s1 = Source.repo s2 ->
  fetchSkillsFromSource s1 w = (Ok found, w1) ->
  exists timestamp,
    skillsCache w1 !! cache_key s1 = Some (found, timestamp) /\
    forall t remote,
      t - timestamp < CACHE_TTL ->
      fetchSkillsFromSource s2 (later t remote w1) = (Ok found, later t remote w1).
Proof.
  intros Ho Hr Hrun.
  destruct (CacheFacts.returned_is_cached s1 w found w1 Hrun) as [ts [Hc _]].
  exists ts. split; [exact Hc|]. intros t remote Ht.
  apply (CacheFacts.cache_hit s2 (later t remote w1) found ts); [|exact Ht].
  cbn [skillsCache later]. unfold cache_key in *. now rewrite <- Ho, <- Hr.
Qed.

Lemma cache_shared_across_branches_witness :
  fetchSkillsFromSource Sample.anthropic_dev
    (later 2000 (fun _ => None)
       (fetchSkillsFromSource Sample.anthropic (Sample.update_world (Some "2"))).2)
  = (Ok [index_skill Sample.anthropic (Sample.index_entry "pdf" (Some "2"))],
     later 2000 (fun _ => None)
       (fetchSkillsFromSource Sample.anthropic (Sample.update_world (Some "2"))).2).
Proof.
  destruct (cache_shared_across_branches Sample.anthropic Sample.anthropic_dev
              (Sample.update_world (Some "2"))
              (fetchSkillsFromSource Sample.anthropic (Sample.update_world (Some "2"))).2
              [index_skill Sample.anthropic (Sample.index_entry "pdf" (Some "2"))]
              eq_refl eq_refl
              (MonadFacts.run_fst _ _ _ ltac:(vm_compute; reflexivity)))
    as [ts [Hc Hserve]].
  apply Hserve.
  assert (Hts : ts = 1000) by (vm_compute in Hc; now inversion Hc).
  subst ts. unfold CACHE_TTL. lia.
Defined.
(** ** listMarketplaceSkills and searchSkills *)

Module ListingFacts.
Import MonadFacts FrameFacts Str StrFacts.

(** The loop over the sources never throws. *)
Lemma list_sources_ok (sources : list MarketplaceSource) :
  forall (acc : list MarketplaceSkill) (w : world),
  exists found w', list_sources sources acc w = (Ok found, w').
Proof.
  induction sources as [|s sources IH]; intros acc w; cbn [list_sources].
  - now exists acc, w.
  - unfold bind at 1, try_catch. unfold bind at 1.
    destruct (fetchSkillsFromSource s w) as [[found|e] w1]; cbn; apply IH.
Qed.

Lemma listMarketplaceSkills_ok (sourceId : option string) (w : world) :
  exists found w', listMarketplaceSkills sourceId w = (Ok found, w').
Proof. unfold listMarketplaceSkills, bind. cbn [loadConfig gets]. apply list_sources_ok. Qed.

Lemma lower_char_fixed (c : ascii) : lower_char (lower_char c) = lower_char c.
Proof. destruct c as [[] [] [] [] [] [] [] []]; reflexivity. Qed.

Lemma toLowerCase_idem (s : string) : toLowerCase (toLowerCase s) = toLowerCase s.
Proof.
  induction s as [|c s IH]; [reflexivity|]. cbn [toLowerCase].
  now rewrite lower_char_fixed, IH.
Qed.

Lemma includes_empty (s : string) : includes "" s = true.
Proof. destruct s; reflexivity. Qed.

Lemma filter_sublist {A} (p : A -> bool) (l : list A) : List.filter p l `sublist_of` l.
Proof.
  induction l as [|x l IH]; cbn; [constructor|].
  destruct (p x); [now apply sublist_skip | now apply sublist_cons].
Qed.

End ListingFacts.

(** [listMarketplaceSkills] never throws, whatever the sources
    answer, and leaves the manifest, the tree and the SkillsMP cache as
    they are.  An id that no registered source bears yields the empty
    list without any request or change, and the empty string as id
    selects every source, as no id does. *)
Theorem listMarketplaceSkills_total (sourceId : option string) (w : world) :
  (exists found w',
     listMarketplaceSkills sourceId w = (Ok found, w') /\
     manifest w' = manifest w /\ fs w' = fs w /\ cache w' = cache w /\ now w' = now w) /\
  (forall i, sourceId = Some i -> i <> "" ->
     (forall s, In s (Config.sources (current_config w)) -> Source.id s <> i) ->
     listMarketplaceSkills sourceId w = (Ok [], w)) /\
  listMarketplaceSkills (Some "") w = listMarketplaceSkills None w.
Proof.
  split; [|split].
  - destruct (ListingFacts.listMarketplaceSkills_ok sourceId w) as [found [w' Hrun]].
    exists found, w'. split; [exact Hrun|].
    pose proof (FrameFacts.leaves_run FrameFacts.but_resolver _ _ _ _
                  (FrameFacts.listMarketplaceSkills_resolver sourceId) Hrun) as H.
    repeat split;
      [ apply (f_equal manifest) in H | apply (f_equal fs) in H
      | apply (f_equal cache) in H | apply (f_equal now) in H ]; exact H.
  - intros i -> Hne Hnone. unfold listMarketplaceSkills, bind. cbn [loadConfig gets].
    unfold truthy. cbn [falsy from_option id]. apply String.eqb_neq in Hne. rewrite Hne.
    cbn [negb].
    rewrite ListFacts.filter_none; [reflexivity|].
    intros s Hs. apply String.eqb_neq. now apply Hnone.
  - reflexivity.
Qed.

(** [searchSkills] never throws and returns, in the order of the
    listing, the listed skills whose name, description or one of whose
    tags contains the query, letter case aside, for the letters with a
    code unit below 256 (A to Z and the accented capitals of Latin-1):
    the empty query returns the whole listing, and a query and its
    lower-case form return the same. *)
Theorem searchSkills_query (query : string) (w : world) :
  searchSkills "" w = listMarketplaceSkills None w /\
  searchSkills query w = searchSkills (Str.toLowerCase query) w /\
  exists listed found w',
    listMarketplaceSkills None w = (Ok listed, w') /\
    searchSkills query w = (Ok found, w') /\
    found `sublist_of` listed /\
    forall s, In s found <->
      In s listed /\
      (Str.includes (Str.toLowerCase query) (Str.toLowerCase (Remote.name s)) = true \/
       Str.includes (Str.toLowerCase query) (Str.toLowerCase (Remote.description s)) = true \/
       exists tags t, Remote.tags s = Some tags /\ In t tags /\
                      Str.includes (Str.toLowerCase query) (Str.toLowerCase t) = true).
Proof.
  destruct (ListingFacts.listMarketplaceSkills_ok None w) as [listed [w' Hrun]].
  unfold searchSkills, bind. rewrite Hrun. unfold ret. cbn [Str.toLowerCase].
  split; [|split].
  - f_equal. f_equal. apply HealFacts.filter_all. intros s _.
    unfold matches_query. now rewrite ListingFacts.includes_empty.
  - now rewrite ListingFacts.toLowerCase_idem.
  - exists listed, (List.filter (matches_query (Str.toLowerCase query)) listed), w'.
    split; [reflexivity|]. split; [reflexivity|]. split; [apply ListingFacts.filter_sublist|].
    intros s. rewrite filter_In. unfold matches_query.
    rewrite !orb_true_iff. split.
    + intros [Hin [[Hn|Hd]|Ht]]; (split; [exact Hin|]); [now left | now right; left|].
      right. right. destruct (Remote.tags s) as [tags|]; [|discriminate].
      apply existsb_exists in Ht. destruct Ht as [t [Ht1 Ht2]]. now exists tags, t.
    + intros [Hin [Hn|[Hd|[tags [t [Htags [Ht1 Ht2]]]]]]]; (split; [exact Hin|]);
        [now left; left | now left; right|].
      right. rewrite Htags. apply existsb_exists. now exists t.
Qed.

(** The query [CAFÉ] finds the skill [café]. *)
Lemma searchSkills_query_witness :
  Str.toLowerCase Sample.CAFE = Sample.cafe /\
  exists found w',
    searchSkills Sample.CAFE Sample.cafe_world = (Ok found, w') /\
    In (index_skill Sample.anthropic (Sample.index_entry Sample.cafe None)) found.
Proof.
  split; [reflexivity|].
  destruct (searchSkills_query Sample.CAFE Sample.cafe_world)
    as [_ [_ [listed [found [w' [Hlist [Hrun [_ Hiff]]]]]]]].
  exists found, w'. split; [exact Hrun|]. apply Hiff. split.
  - assert (Hc : (listMarketplaceSkills None Sample.cafe_world).1
                 = Ok [index_skill Sample.anthropic (Sample.index_entry Sample.cafe None)])
      by (vm_compute; reflexivity).
    rewrite Hlist in Hc. injection Hc as ->. left. reflexivity.
  - left. vm_compute. reflexivity.
Defined.
(** ** More on installSkill and uninstallSkill *)

Module InstallMore.
Import MonadFacts FrameFacts.

Lemma listing_frame (sourceId : option string) (w w1 : world)
    (o : outcome (list MarketplaceSkill)) :
  listMarketplaceSkills sourceId w = (o, w1) ->
  manifest w1 = manifest w /\ fs w1 = fs w /\ cache w1 = cache w.
Proof.
  intros Hrun.
  pose proof (leaves_run but_resolver _ _ _ _ (listMarketplaceSkills_resolver sourceId) Hrun)
    as H.
  repeat split;
    [ apply (f_equal manifest) in H | apply (f_equal fs) in H | apply (f_equal cache) in H ];
    exact H.
Qed.

Lemma tree_frame {A} (m : M A) (w w1 : world) (o : outcome A) :
  leaves but_tree m -> m w = (o, w1) -> manifest w1 = manifest w /\ cache w1 = cache w.
Proof.
  intros Hm Hrun. pose proof (leaves_run but_tree _ _ _ _ Hm Hrun) as H.
  split; [apply (f_equal manifest) in H | apply (f_equal cache) in H]; exact H.
Qed.

End InstallMore.

(** A failing [installSkill] leaves the manifest as it was, whatever
    the step that fails (the lookup, the conflict check, the directory,
    the download, the loader or the validator), provided the install
    directory of that name does not hold the manifest.  (Where it does,
    the rollback of a rejected skill deletes the manifest with the
    copy.) *)
Theorem installSkill_failure_keeps_manifest (skillName : string)
    (sourceId : option string) (w w' : world) (e : error) :
  installSkill skillName sourceId w = (Throw e, w') ->
  ~ join (Config.installDir (current_config w)) skillName `prefix_of` CONFIG_FILE w ->
  manifest w' = manifest w /\ cache w' = cache w.
Proof.
  intros Hrun Hclear.
  destruct (listMarketplaceSkills sourceId w) as [[allSkills|e0] w1] eqn:Hlist;
    destruct (InstallMore.listing_frame _ _ _ _ Hlist) as [Hm1 [_ Hc1]];
    [|unfold installSkill, bind in Hrun; cbn [loadConfig gets] in Hrun;
      rewrite Hlist in Hrun; inversion Hrun; subst; now split].
  destruct (List.find (remote_named skillName) allSkills) as [skill|] eqn:Hfind;
    [|unfold installSkill, bind in Hrun; cbn [loadConfig gets] in Hrun;
      rewrite Hlist, Hfind in Hrun; inversion Hrun; subst; now split].
  destruct (List.find (installed_named skillName) (Config.installed (current_config w)))
    as [existing|] eqn:Hfresh;
    [unfold installSkill, bind in Hrun; cbn [loadConfig gets] in Hrun;
      rewrite Hlist, Hfind, Hfresh in Hrun; inversion Hrun; subst; now split|].
  destruct (mkdir (Config.installDir (current_config w)) w1) as [[[]|e1] w2] eqn:Hmk;
    destruct (InstallMore.tree_frame _ _ _ _ (FrameFacts.mkdir_tree _) Hmk) as [Hm2 Hc2];
    [|unfold installSkill, bind in Hrun; cbn [loadConfig gets] in Hrun;
      rewrite Hlist, Hfind, Hfresh, Hmk in Hrun; inversion Hrun; subst;
      split; congruence].
  destruct (downloadSkill skill (join (Config.installDir (current_config w)) skillName) w2)
    as [[[]|e2] w3] eqn:Hdl;
    destruct (InstallMore.tree_frame _ _ _ _ (FrameFacts.downloadSkill_tree _ _) Hdl)
      as [Hm3 Hc3];
    [|unfold installSkill, bind in Hrun; cbn [loadConfig gets] in Hrun;
      rewrite Hlist, Hfind, Hfresh, Hmk, Hdl in Hrun; inversion Hrun; subst;
      split; congruence].
  assert (Hp : InstallFacts.promoted skillName sourceId w skill w3).
  { constructor; [|exact Hfresh]. exists allSkills, w1, w2. auto. }
  destruct (InstallFacts.promoted_frame _ _ _ _ _ Hp) as [_ Hhome].
  assert (Hfile : CONFIG_FILE w3 = CONFIG_FILE w).
  { unfold CONFIG_FILE, CONFIG_DIR. now rewrite Hhome. }
  rewrite (InstallFacts.installSkill_promoted _ _ _ _ _ Hp) in Hrun. cbv zeta in Hrun.
  destruct (load_outcome _ _) as [[md|]|e3].
  - destruct (valid (validateMetadata md)); [discriminate|].
    rewrite FsFacts.after_rm_clear in Hrun by (now rewrite Hfile).
    inversion Hrun; subst. cbn [manifest cache set_fs]. split; congruence.
  - discriminate.
  - inversion Hrun; subst. split; congruence.
Qed.

Lemma installSkill_failure_keeps_manifest_witness :
  manifest (installSkill "pdf" None (Sample.install_world Sample.no_description)).2 =
  manifest (Sample.install_world Sample.no_description).
Proof.
  refine (proj1 (installSkill_failure_keeps_manifest "pdf" None
                   (Sample.install_world Sample.no_description) _
                   (Error "Invalid skill: missing required fields (name, description)")
                   (MonadFacts.run_fst _ _ _ _) _)).
  - vm_compute. reflexivity.
  - intros [k Hk]. vm_compute in Hk. congruence.
Defined.

(** [installSkill] looks the skill up before it looks at the
    manifest.  A name no listed skill bears fails with 'Skill not
    found', also when a skill of that name is installed; a listed name
    that is already installed fails with the path of the installed copy.
    Either way nothing in the tree or the manifest changes. *)
Theorem installSkill_refusals (skillName : string) (sourceId : option string)
    (w w1 : world) (allSkills : list MarketplaceSkill) :
  listMarketplaceSkills sourceId w = (Ok allSkills, w1) ->
  fs w1 = fs w /\ manifest w1 = manifest w /\
  (List.find (remote_named skillName) allSkills = None ->
   installSkill skillName sourceId w =
     (Throw (Error ("Skill not found: " ^^ skillName)), w1)) /\
  (forall skill existing,
     List.find (remote_named skillName) allSkills = Some skill ->
     List.find (installed_named skillName) (Config.installed (current_config w))
       = Some existing ->
     installSkill skillName sourceId w =
       (Throw (Error ("Skill " ^^ skillName ^^ " is already installed at " ^^
                      path_string (Installed.localPath existing))), w1)).
Proof.
  intros Hlist. destruct (InstallMore.listing_frame _ _ _ _ Hlist) as [Hm [Hf _]].
  split; [exact Hf|]. split; [exact Hm|]. split.
  - intros Hnone. unfold installSkill, bind. cbn [loadConfig gets].
    now rewrite Hlist, Hnone.
  - intros skill existing Hfind Hthere. unfold installSkill, bind. cbn [loadConfig gets].
    now rewrite Hlist, Hfind, Hthere.
Qed.

Lemma installSkill_refusals_witness :
  installSkill "pdf" None (Sample.update_world (Some "2")) =
    (Throw (Error "Skill pdf is already installed at /home/dev/.antigravity/skills/pdf"),
     (listMarketplaceSkills None (Sample.update_world (Some "2"))).2).
Proof.
  refine (proj2 (proj2 (proj2
            (installSkill_refusals "pdf" None (Sample.update_world (Some "2")) _
               [index_skill Sample.anthropic (Sample.index_entry "pdf" (Some "2"))]
               (MonadFacts.run_fst _ _ _ _))))
            (index_skill Sample.anthropic (Sample.index_entry "pdf" (Some "2")))
            (Sample.installed_pdf (Some "1.0")) _ _).
  - vm_compute. reflexivity.
  - reflexivity.
  - reflexivity.
Defined.

(** [uninstallSkill] of a name the manifest does not list fails and
    changes nothing.  Otherwise it removes the first entry of that name
    from the manifest, keeping the other entries in order and the
    sources as they are, and deletes the entry's directory.  Where the
    path of that directory is one of ordinary names and neither holds
    the manifest nor lies below it, nothing is left at or below it, and
    every file that is not at or below it is untouched. *)
Theorem uninstallSkill_outcomes (skillName : string) (w : world) :
  let config := current_config w in
  (List.find (installed_named skillName) (Config.installed config) = None ->
   uninstallSkill skillName w =
     (Throw (Error ("Skill " ^^ skillName ^^ " is not installed via marketplace")), w))
  /\
  (forall i,
     List.find (installed_named skillName) (Config.installed config) = Some i ->
     exists index w',
       findIndex (installed_named skillName) (Config.installed config) = Some index /\
       Config.installed config !! index = Some i /\
       uninstallSkill skillName w = (Ok tt, w') /\
       manifest w' =
         Parsed (with_installed (delete index (Config.installed config)) config) /\
       Config.installed (current_config w') = delete index (Config.installed config) /\
       Config.sources (current_config w') = Config.sources config /\
       (clear_of_manifest w (Installed.localPath i) ->
        canonical (Installed.localPath i) = true ->
        (Installed.localPath i <> [] -> fs w' !! Installed.localPath i = None) /\
        (forall q, is_Some (node_at (fs w) (Installed.localPath i)) ->
                   Installed.localPath i `prefix_of` q -> fs w' !! q = None) /\
        (forall q, ~ Installed.localPath i `prefix_of` q -> fs w' !! q = fs w !! q))).
Proof.
  intros config. split.
  - intros Hnone. apply UrlInstallFacts.uninstallSkill_unlisted.
    intros i Hi. pose proof (proj1 (ListFacts.find_none_iff _ _) Hnone i Hi) as H.
    now apply String.eqb_neq in H.
  - intros i Hfind.
    destruct (ListFacts.findIndex_find _ _ _ Hfind) as [index [Hi Hl]].
    exists index. eexists. split; [exact Hi|]. split; [exact Hl|].
    split; [apply (InstallFacts.uninstallSkill_run skillName w index i Hi Hl)|].
    fold config. split; [reflexivity|]. split; [reflexivity|]. split.
    { cbn [current_config manifest set_manifest with_installed heal Config.sources].
      change (List.filter _ (fold_left ensure_default DEFAULT_MARKETPLACES (Config.sources config)))
        with (Config.sources (heal config)).
      unfold config. now rewrite (HealFacts.heal_settled _ (HealFacts.current_settled w)). }
    intros [Hclear _] _. cbn [fs set_manifest]. split; [|split].
    + intros Hne.
      destruct (node_at (fs w) (Installed.localPath i)) eqn:Hn.
      * rewrite FsFacts.fs_after_rm. now apply FsFacts.rm_rf_below.
      * now rewrite <- (FsFacts.node_at_lookup _ _ Hne).
    + intros q [x Hx] Hq. rewrite Hx.
      rewrite FsFacts.fs_after_rm. now apply FsFacts.rm_rf_below.
    + intros q Hq.
      destruct (node_at (fs w) (Installed.localPath i)); [|reflexivity].
      rewrite FsFacts.fs_after_rm. now apply FsFacts.rm_rf_elsewhere.
Qed.

Lemma uninstallSkill_outcomes_witness :
  exists w',
    uninstallSkill "pdf" Sample.dots_world = (Ok tt, w') /\
    Config.installed (current_config w') = [] /\
    fs w' !! (Sample.pdf_dir ++ ["SKILL.md"]) = None /\
    fs w' !! Sample.skills_dir = Some Dir.
Proof.
  destruct (proj2 (uninstallSkill_outcomes "pdf" Sample.dots_world)
              (Sample.installed_pdf (Some "1.0")) eq_refl)
    as [index [w' [Hi [_ [Hrun [_ [Hinst [_ Htree]]]]]]]].
  destruct Htree as [_ [Hgone Hkept]].
  { split; intros [k Hk]; vm_compute in Hk; congruence. }
  { reflexivity. }
  exists w'. split; [exact Hrun|]. split; [|split].
  - rewrite Hinst. vm_compute in Hi. injection Hi as <-. reflexivity.
  - apply Hgone; [now eexists | now exists ["SKILL.md"]].
  - rewrite Hkept; [reflexivity|].
    intros [k Hk]. vm_compute in Hk. congruence.
Defined.
(** ** More on checkUpdates *)

Module UpdateMore.
Import MonadFacts FrameFacts.

Lemma check_installed_resolver (installed : list InstalledSkill) :
  forall updates, leaves but_resolver (check_installed installed updates).
Proof.
  induction installed as [|i rest IH]; intros updates; cbn [check_installed].
  - apply leaves_ret.
  - destruct (Installed.source i) as [source|]; [|apply IH].
    apply leaves_bind; [|intros a; apply IH].
    leaves_with ltac:(apply fetchSkillsFromSource_resolver).
Qed.

(** The scan appends, in the order of the manifest, at most one entry
    for each installed skill that names a source. *)
Lemma check_installed_order (installed : list InstalledSkill) :
  forall updates w,
  exists out w',
    check_installed installed updates w = (Ok (updates ++ out), w') /\
    map skill out `sublist_of` installed /\
    Forall (fun u => Installed.source (skill u) <> None) out.
Proof.
  induction installed as [|i rest IH]; intros updates w; cbn [check_installed].
  - exists [], w. rewrite app_nil_r. split; [reflexivity|]. split; constructor.
  - destruct (Installed.source i) as [source|] eqn:Hsrc.
    + unfold bind at 1, try_catch. unfold bind at 1.
      destruct (fetchSkillsFromSource source w) as [[found|e] w1].
      * destruct (List.find (remote_named (Installed.name i)) found) as [remote|]; cbn [ret].
        -- destruct (IH (updates ++ [update_info i remote]) w1) as [out [w' [Hrun [Hs Hf]]]].
           exists (update_info i remote :: out), w'.
           rewrite Hrun, <- app_assoc. split; [reflexivity|]. split.
           ++ cbn [map skill update_info]. now apply sublist_skip.
           ++ constructor; [cbn [skill update_info]; congruence | exact Hf].
        -- destruct (IH updates w1) as [out [w' [Hrun [Hs Hf]]]].
           exists out, w'. split; [exact Hrun|]. split; [now apply sublist_cons | exact Hf].
      * cbn [ret]. destruct (IH updates w1) as [out [w' [Hrun [Hs Hf]]]].
        exists out, w'. split; [exact Hrun|]. split; [now apply sublist_cons | exact Hf].
    + destruct (IH updates w) as [out [w' [Hrun [Hs Hf]]]].
      exists out, w'. split; [exact Hrun|]. split; [now apply sublist_cons | exact Hf].
Qed.

End UpdateMore.

(** [checkUpdates] reports on the installed skills in the order of
    the manifest, at most once each, and never on a skill installed
    without a source; it leaves the manifest, the tree and the SkillsMP
    cache as they are. *)
Theorem checkUpdates_in_order (w : world) :
  exists updates w',
    checkUpdates w = (Ok updates, w') /\
    map skill updates `sublist_of` Config.installed (current_config w) /\
    Forall (fun u => Installed.source (skill u) <> None) updates /\
    (length updates <= length (Config.installed (current_config w)))%nat /\
    manifest w' = manifest w /\ fs w' = fs w /\ cache w' = cache w.
Proof.
  destruct (UpdateMore.check_installed_order (Config.installed (current_config w)) [] w)
    as [out [w' [Hrun [Hs Hf]]]].
  exists out, w'. unfold checkUpdates, bind. cbn [loadConfig gets].
  cbn [app] in Hrun. split; [exact Hrun|]. split; [exact Hs|]. split; [exact Hf|]. split.
  - apply sublist_length in Hs. now rewrite length_map in Hs.
  - pose proof (FrameFacts.leaves_run FrameFacts.but_resolver _ _ _ _
                  (UpdateMore.check_installed_resolver _ []) Hrun) as H.
    repeat split;
      [ apply (f_equal manifest) in H | apply (f_equal fs) in H
      | apply (f_equal cache) in H ]; exact H.
Qed.
(** ** More on skillsmp.ts: URLs, refusals, the shorthands *)

Module UrlFacts.
Import Str Url StrFacts.

Lemma strip_prefix_app (p s : string) : strip_prefix p (p ^^ s) = Some s.
Proof.
  induction p as [|c p IH]; sapp; [now destruct s|].
  cbn [strip_prefix]. now rewrite Ascii.eqb_refl.
Qed.

(** A run of kept characters followed by one that is not kept, or by
    nothing. *)
Lemma span_app (keep : ascii -> bool) (a b : string) :
  all_chars keep a = true ->
  (b = "" \/ exists c b', b = String c b' /\ keep c = false) ->
  span keep (a ^^ b) = (a, b).
Proof.
  intros Ha Hb. induction a as [|c a IH]; sapp.
  - destruct Hb as [->|[c [b' [-> Hc]]]]; [reflexivity|]. cbn [span]. now rewrite Hc.
  - cbn [all_chars] in Ha. apply andb_true_iff in Ha. destruct Ha as [Hc Ha].
    cbn [span]. now rewrite Hc, (IH Ha).
Qed.

Lemma segment_slash (a rest : string) :
  a <> "" -> all_chars not_slash a = true ->
  segment (a ^^ "/" ^^ rest) = Some (a, "/" ^^ rest).
Proof.
  intros Hne Ha. unfold segment. rewrite span_app; [|exact Ha|].
  - apply String.eqb_neq in Hne. now rewrite Hne.
  - right. sapp. now exists "/"%char, rest.
Qed.

Lemma segment_end (a : string) :
  a <> "" -> all_chars not_slash a = true -> segment a = Some (a, "").
Proof.
  intros Hne Ha. unfold segment. rewrite <- (append_nil_r a) at 1.
  rewrite span_app; [|exact Ha|now left].
  apply String.eqb_neq in Hne. now rewrite Hne.
Qed.

(** The search skips the scheme: none of its characters starts the
    host name. *)
Lemma search_https {A} (at_head : string -> option A) (s : string) :
  (forall t, at_head (String "h" t) = None) ->
  (forall t, at_head (String "t" t) = None) ->
  (forall t, at_head (String "p" t) = None) ->
  (forall t, at_head (String "s" t) = None) ->
  (forall t, at_head (String ":" t) = None) ->
  (forall t, at_head (String "/" t) = None) ->
  search at_head ("https://" ^^ s) = search at_head s.
Proof.
  intros Hh Ht Hp Hs Hc Hsl. sapp. cbn [search].
  now rewrite !Hh, !Ht, !Hp, !Hs, !Hc, !Hsl.
Qed.

Lemma search_head {A} (at_head : string -> option A) (s : string) (r : A) :
  at_head s = Some r -> search at_head s = Some r.
Proof. intros H. destruct s; cbn [search]; now rewrite H. Qed.

End UrlFacts.

(** The four extractors read a tree URL back: from
    https://github.com/OWNER/REPO/tree/BRANCH/PATH, with non-empty
    owner, repository and branch free of slashes and a non-empty path
    free of line breaks, they return the owner, the repository, the
    branch and the whole path. *)
Theorem github_url_round_trip (o r b p : string) :
  o <> "" -> Str.all_chars Url.not_slash o = true ->
  r <> "" -> Str.all_chars Url.not_slash r = true ->
  b <> "" -> Str.all_chars Url.not_slash b = true ->
  p <> "" -> Str.all_chars Url.not_newline p = true ->
  let url := "https://github.com/" ^^ o ^^ "/" ^^ r ^^ "/tree/" ^^ b ^^ "/" ^^ p in
  Url.extractOwner url = o /\
  Url.extractRepoName url = r /\
  Url.extractBranch url = b /\
  Url.extractGitHubPath url = p.
Proof.
  intros Ho1 Ho2 Hr1 Hr2 Hb1 Hb2 Hp1 Hp2 url.
  assert (Hurl : url = "https://" ^^ "github.com/" ^^ o ^^ "/" ^^ r ^^ "/tree/" ^^ b ^^ "/" ^^ p)
    by (unfold url; now StrFacts.sapp).
  assert (Hbranch : Url.branch_here ("github.com/" ^^ o ^^ "/" ^^ r ^^ "/tree/" ^^ b ^^ "/" ^^ p)
                    = Some (b, "/" ^^ p)).
  { unfold Url.branch_here. rewrite UrlFacts.strip_prefix_app. cbn [mbind option_bind].
    rewrite (UrlFacts.segment_slash o _ Ho1 Ho2). cbn [mbind option_bind].
    rewrite (UrlFacts.strip_prefix_app "/"). cbn [mbind option_bind].
    change ("/tree/" ^^ b ^^ "/" ^^ p) with ("/" ^^ "tree/" ^^ b ^^ "/" ^^ p).
    rewrite (UrlFacts.segment_slash r _ Hr1 Hr2). cbn [mbind option_bind].
    change ("/" ^^ "tree/" ^^ b ^^ "/" ^^ p) with ("/tree/" ^^ b ^^ "/" ^^ p).
    rewrite (UrlFacts.strip_prefix_app "/tree/"). cbn [mbind option_bind].
    apply (UrlFacts.segment_slash b _ Hb1 Hb2). }
  rewrite Hurl. unfold Url.extractOwner, Url.extractRepoName, Url.extractBranch,
    Url.extractGitHubPath.
  rewrite !UrlFacts.search_https by reflexivity.
  repeat split.
  - erewrite UrlFacts.search_head; [reflexivity|].
    unfold Url.owner_here. rewrite UrlFacts.strip_prefix_app. cbn [mbind option_bind].
    now rewrite (UrlFacts.segment_slash o _ Ho1 Ho2).
  - erewrite UrlFacts.search_head; [reflexivity|].
    unfold Url.repo_here. rewrite UrlFacts.strip_prefix_app. cbn [mbind option_bind].
    rewrite (UrlFacts.segment_slash o _ Ho1 Ho2). cbn [mbind option_bind].
    rewrite (UrlFacts.strip_prefix_app "/"). cbn [mbind option_bind].
    change ("/tree/" ^^ b ^^ "/" ^^ p) with ("/" ^^ "tree/" ^^ b ^^ "/" ^^ p).
    now rewrite (UrlFacts.segment_slash r _ Hr1 Hr2).
  - erewrite UrlFacts.search_head; [|exact Hbranch]. reflexivity.
  - erewrite UrlFacts.search_head; [reflexivity|].
    unfold Url.path_here. rewrite Hbranch. cbn [mbind option_bind].
    rewrite (UrlFacts.strip_prefix_app "/"). cbn [mbind option_bind].
    rewrite <- (StrFacts.append_nil_r p) at 1.
    rewrite UrlFacts.span_app; [|exact Hp2|now left].
    apply String.eqb_neq in Hp1. now rewrite Hp1.
Qed.

Lemma github_url_round_trip_witness :
  Url.extractOwner "https://github.com/acme/kit/tree/main/skills/pdf" = "acme" /\
  Url.extractRepoName "https://github.com/acme/kit/tree/main/skills/pdf" = "kit" /\
  Url.extractBranch "https://github.com/acme/kit/tree/main/skills/pdf" = "main" /\
  Url.extractGitHubPath "https://github.com/acme/kit/tree/main/skills/pdf" = "skills/pdf".
Proof.
  apply (github_url_round_trip "acme" "kit" "main" "skills/pdf");
    first [discriminate | reflexivity].
Defined.

(** [installFromGitHubUrl] refuses a URL from which an owner, a
    repository or a path cannot be read before it sends any request:
    the world is unchanged.  Otherwise it sends exactly one request, and
    a rejected request or an answer that is not ok fails with the tree
    untouched. *)
Theorem installFromGitHubUrl_failures (githubUrl : string) (installDir : path) (w : world) :
  ((Url.extractOwner githubUrl = "" \/ Url.extractRepoName githubUrl = "" \/
    Url.extractGitHubPath githubUrl = "") ->
   installFromGitHubUrl githubUrl installDir w =
     (Throw (Error ("Invalid GitHub URL: " ^^ githubUrl)), w))
  /\
  (Url.extractOwner githubUrl <> "" -> Url.extractRepoName githubUrl <> "" ->
   Url.extractGitHubPath githubUrl <> "" ->
   fetches (installFromGitHubUrl githubUrl installDir w).2 = S (fetches w) /\
   (net w (Get (UrlInstallFacts.url_document githubUrl)) = None ->
    installFromGitHubUrl githubUrl installDir w =
      (Throw (SystemError "fetch failed"), set_fetches (S (fetches w)) w)) /\
   (forall r, net w (Get (UrlInstallFacts.url_document githubUrl)) = Some r ->
              ok r = false ->
    installFromGitHubUrl githubUrl installDir w =
      (Throw (Error ("Could not fetch SKILL.md from " ^^
                     UrlInstallFacts.url_document githubUrl)),
       set_fetches (S (fetches w)) w))).
Proof.
  split.
  - intros H. unfold installFromGitHubUrl.
    assert (Hb : String.eqb (Url.extractOwner githubUrl) ""
                 || String.eqb (Url.extractRepoName githubUrl) ""
                 || String.eqb (Url.extractGitHubPath githubUrl) "" = true).
    { rewrite !orb_true_iff. destruct H as [->|[->| ->]]; auto. }
    now rewrite Hb.
  - intros Ho Hr Hp. unfold installFromGitHubUrl.
    fold (UrlInstallFacts.url_name githubUrl). fold (UrlInstallFacts.url_document githubUrl).
    apply String.eqb_neq in Ho, Hr, Hp. rewrite Ho, Hr, Hp. cbn [orb].
    split; [|split].
    + unfold bind at 1. unfold fetch.
      destruct (net w (Get (UrlInstallFacts.url_document githubUrl))) as [r|]; [|reflexivity].
      destruct (ok r); cbn [negb]; [|reflexivity].
      unfold bind at 1.
      pose proof (FrameFacts.mkdir_tree
                    (installDir ++ [UrlInstallFacts.url_name githubUrl])
                    (set_fetches (S (fetches w)) w)) as Hm.
      apply (f_equal fetches) in Hm.
      destruct (mkdir _ _) as [[[]|e] w1]; cbn [snd] in Hm; [|exact Hm].
      unfold bind.
      pose proof (FrameFacts.writeFile_tree
                    (normalize
                       ((installDir ++ [UrlInstallFacts.url_name githubUrl]) ++ ["SKILL.md"]))
                    (body_text (payload r)) w1) as Hw.
      apply (f_equal fetches) in Hw.
      destruct (writeFile _ _ w1) as [[[]|e] w2]; cbn [snd ret] in *;
        cbn [fetches FrameFacts.but_tree set_fs set_fetches] in *; congruence.
    + intros Hnone. unfold bind, fetch. now rewrite Hnone.
    + intros r Hsome Hok. unfold bind, fetch. now rewrite Hsome, Hok.
Qed.

Lemma installFromGitHubUrl_failures_witness :
  installFromGitHubUrl "https://github.com/acme/kit" ["work"; "skills"] Sample.bare_world =
    (Throw (Error "Invalid GitHub URL: https://github.com/acme/kit"), Sample.bare_world).
Proof.
  apply (proj1 (installFromGitHubUrl_failures "https://github.com/acme/kit"
                  ["work"; "skills"] Sample.bare_world)).
  right. right. reflexivity.
Defined.

(** A failing [fetchSkillsMP] sends exactly one request and leaves the
    resolver's cache, the manifest and the tree as they are.  An answer
    that is not ok, or that does not parse to an object with a [skills]
    list, leaves the listing cache as it is too, and an answer that is
    not ok fails with the status in the message.  An answer with a
    [skills] list and no [pagination] fails on reading the total, after
    the list has been cached under the key of the call: the next call
    within the TTL returns that list. *)
Theorem fetchSkillsMP_failure (options : SkillsMPOptions) (w w' : world) (e : error) :
  fetchSkillsMP options w = (Throw e, w') ->
  let rq := GetSkillsMP (default 1 (opt_page options)) (default 50 (opt_limit options))
              (default "stars" (opt_sortBy options))
              (if String.eqb (default "" (opt_search options)) "" then None
               else Some (default "" (opt_search options))) in
  let sent := set_fetches (S (fetches w)) w in
  let listed (r : response) : option (list SkillsMPSkill) :=
    match payload r with
    | SkillsMPJson data =>
        match mp_pagination data with Some _ => None | None => Some (mp_skills data) end
    | IndexJson [] => Some []
    | _ => None
    end in
  (net w rq = None -> e = SystemError "fetch failed" /\ w' = sent) /\
  (forall r, net w rq = Some r -> ok r = false ->
     e = Error ("SkillsMP API error: " ^^ pretty (status r)) /\ w' = sent) /\
  (forall r, net w rq = Some r -> ok r = true -> listed r = None ->
     w' = sent /\ (e = SystemError "SyntaxError" \/ e = SystemError "TypeError")) /\
  (forall r found, net w rq = Some r -> ok r = true -> listed r = Some found ->
     e = SystemError "TypeError" /\
     w' = set_cache (<[MPFacts.mp_key options := (map mp_skill found, now w)]> (cache w)) sent /\
     forall t remote, t - now w < CACHE_TTL ->
       fetchSkillsMP options (later t remote w') =
         (Ok {| skills := map mp_skill found; total := 0; hasNext := false |},
          later t remote w')).
Proof.
  intros H rq sent listed.
  assert (Hre : (let! response := fetch rq in
                 if negb (ok response)
                 then throw (Error ("SkillsMP API error: " ^^ pretty (status response)))
                 else
                   let store (found : list MarketplaceSkill) : M unit :=
                     modify (fun w0 => set_cache (<[MPFacts.mp_key options := (found, now w0)]>
                                                    (cache w0)) w0) in
                   match payload response with
                   | SkillsMPJson data =>
                       store (map mp_skill (mp_skills data)) ;;
                       match mp_pagination data with
                       | Some pagination =>
                           ret {| skills := map mp_skill (mp_skills data);
                                  total := pg_total pagination;
                                  hasNext := pg_hasNext pagination |}
                       | None => throw (SystemError "TypeError")
                       end
                   | IndexJson [] => store [] ;; throw (SystemError "TypeError")
                   | IndexJson (_ :: _) | ListingJson _ => throw (SystemError "TypeError")
                   | Text _ | Junk => throw (SystemError "SyntaxError")
                   end) w = (Throw e, w')).
  { revert H. unfold fetchSkillsMP, bind at 1 2, date_now, gets.
    fold (MPFacts.mp_key options). fold rq.
    destruct (cache w !! MPFacts.mp_key options) as [[data ts]|]; [|exact (fun H => H)].
    destruct (now w - ts <? CACHE_TTL); [discriminate|exact (fun H => H)]. }
  clear H. revert Hre. unfold bind at 1, fetch.
  destruct (net w rq) as [r|] eqn:Hnet.
  2:{ intros [= <- <-]. repeat split; try discriminate. }
  fold sent. destruct (ok r) eqn:Hok; cbn [negb].
  2:{ intros [= <- <-]. split; [discriminate|]. split; [|split].
      - intros r' [= <-] _. now split.
      - intros r' [= <-]. congruence.
      - intros r' found [= <-]. congruence. }
  intros Hrun. split; [discriminate|]. split; [intros r' [= <-]; congruence|].
  assert (Hhit : forall found,
            forall t remote, t - now w < CACHE_TTL ->
              fetchSkillsMP options
                (later t remote
                   (set_cache (<[MPFacts.mp_key options := (map mp_skill found, now w)]>
                                 (cache w)) sent)) =
              (Ok {| skills := map mp_skill found; total := 0; hasNext := false |},
               later t remote
                 (set_cache (<[MPFacts.mp_key options := (map mp_skill found, now w)]>
                               (cache w)) sent))).
  { intros found t remote Ht. apply (MPFacts.mp_hit options _ (map mp_skill found) (now w)).
    - cbn. apply lookup_insert_eq.
    - exact Ht. }
  unfold listed. split.
  - intros r' [= <-] _.
    destruct (payload r) as [?|[|? ?]|?|data|]; try discriminate;
      try (intros _; injection Hrun as <- <-; split; [reflexivity | auto]).
    destruct (mp_pagination data); [|discriminate].
    intros _. revert Hrun. unfold bind, modify. discriminate.
  - intros r' found [= <-] _.
    destruct (payload r) as [?|[|? ?]|?|data|]; try discriminate.
    + intros [= <-]. revert Hrun. unfold bind, modify, throw. intros [= <- <-].
      split; [reflexivity|]. split; [reflexivity|]. apply (Hhit []).
    + destruct (mp_pagination data); [discriminate|]. intros [= <-].
      revert Hrun. unfold bind, modify, throw. intros [= <- <-].
      split; [reflexivity|]. split; [reflexivity|]. apply Hhit.
Qed.

Lemma fetchSkillsMP_failure_witness :
  (fetchSkillsMP Sample.no_options Sample.bare_world).2 =
  set_fetches 1 Sample.bare_world.
Proof.
  refine (proj2 (proj1 (fetchSkillsMP_failure Sample.no_options Sample.bare_world _
                   (SystemError "fetch failed") (MonadFacts.run_fst _ _ _ _)) eq_refl)).
  vm_compute. reflexivity.
Defined.

(** The reply [{ skills: [] }], with no [pagination]: the call fails,
    the empty list is cached all the same, and the next call, one
    second later, returns it with a total of 0. *)
Lemma fetchSkillsMP_caches_before_it_fails :
  let reply := {| ok := true; status := 200;
                  payload := SkillsMPJson {| mp_skills := []; mp_pagination := None |} |} in
  let w := later 1000 (fun _ => Some reply) Sample.bare_world in
  let first := fetchSkillsMP Sample.no_options w in
  let second := fetchSkillsMP Sample.no_options (later 2000 (fun _ => None) first.2) in
  first.1 = Throw (SystemError "TypeError") /\
  cache w = ∅ /\
  cache first.2 !! "skillsmp::1:50:stars" = Some ([], 1000) /\
  second.1 = Ok {| skills := []; total := 0; hasNext := false |}.
Proof. repeat split; vm_compute; reflexivity. Qed.


(** ** parseSkillMdFrontmatter *)

Module ParseFacts.
Import Str Js Parse StrFacts JsFacts UrlFacts.

Lemma strip_prefix_spec (p s r : string) :
  Url.strip_prefix p s = Some r <-> s = p ^^ r.
Proof.
  split; [|intros ->; apply strip_prefix_app].
  revert s. induction p as [|c p IH]; intros s; sapp.
  - cbn. now intros [= ->].
  - destruct s as [|d s]; cbn [Url.strip_prefix]; [discriminate|].
    destruct (Ascii.eqb_spec c d) as [->|]; [|discriminate].
    intros H. now rewrite (IH s H).
Qed.

Lemma cut_sound (w s a b : string) : cut w s = Some (a, b) -> s = a ^^ w ^^ b.
Proof.
  revert a. induction s as [|c s IH]; intros a; cbn [cut].
  - destruct (Url.strip_prefix w "") as [r|] eqn:Hp; [|discriminate].
    intros [= <- <-]. sapp. now apply strip_prefix_spec.
  - destruct (Url.strip_prefix w (String c s)) as [r|] eqn:Hp.
    + intros [= <- <-]. sapp. now apply strip_prefix_spec.
    + destruct (cut w s) as [[a' b']|]; [|discriminate].
      intros [= <- <-]. sapp. now rewrite (IH a' eq_refl).
Qed.

Lemma cut_none (w s : string) : cut w s = None -> forall a b, s <> a ^^ w ^^ b.
Proof.
  induction s as [|c s IH]; cbn [cut].
  - destruct (Url.strip_prefix w "") as [r|] eqn:Hp; [discriminate|].
    intros _ a b H. destruct a; sapp; [|discriminate].
    rewrite H, strip_prefix_app in Hp. discriminate.
  - destruct (Url.strip_prefix w (String c s)) as [r|] eqn:Hp; [discriminate|].
    destruct (cut w s) as [[a' b']|] eqn:Hc; [discriminate|].
    intros _ a b H. destruct a as [|d a]; sapp.
    + rewrite H, strip_prefix_app in Hp. discriminate.
    + inversion H; subst. now apply (IH eq_refl a b).
Qed.

(** *** The closing fence after lines that do not start one *)

Definition no_nl (s : string) : bool :=
  all_chars (fun c => negb (Ascii.eqb c newline)) s.

Definition fence : string := nl ^^ "---".

Lemma cut_char (c : ascii) (s : string) :
  Ascii.eqb c newline = false ->
  cut fence (String c s) =
  match cut fence s with
  | Some (a, b) => Some (String c a, b)
  | None => None
  end.
Proof.
  intros Hc. cbn [cut]. unfold fence at 1, nl. sapp. cbn [Url.strip_prefix].
  rewrite Ascii.eqb_sym, Hc. reflexivity.
Qed.

Lemma cut_run (l s : string) :
  no_nl l = true ->
  cut fence (l ^^ s) =
  match cut fence s with
  | Some (a, b) => Some (l ^^ a, b)
  | None => None
  end.
Proof.
  intros Hl. induction l as [|c l IH]; sapp.
  - destruct (cut fence s) as [[a b]|]; now sapp.
  - unfold no_nl in Hl. cbn [all_chars] in Hl. apply andb_true_iff in Hl.
    destruct Hl as [Hc Hl]. apply negb_true_iff in Hc.
    rewrite (cut_char c _ Hc), (IH Hl).
    destruct (cut fence s) as [[a b]|]; now sapp.
Qed.

(** A line break that is followed by something else than three dashes. *)
Lemma cut_break (s : string) :
  Url.strip_prefix "---" s = None ->
  cut fence (nl ^^ s) =
  match cut fence s with
  | Some (a, b) => Some (nl ^^ a, b)
  | None => None
  end.
Proof.
  intros Hs. unfold nl at 1. sapp. cbn [cut]. unfold fence at 1, nl. sapp.
  cbn [Url.strip_prefix] in Hs |- *. rewrite Ascii.eqb_refl, Hs.
  destruct (cut fence s) as [[a b]|]; unfold nl; now sapp.
Qed.

Lemma cut_fence (rest : string) : cut fence (fence ^^ rest) = Some ("", rest).
Proof.
  destruct (fence ^^ rest) eqn:Hf; cbn [cut]; rewrite <- Hf, strip_prefix_app; reflexivity.
Qed.

(** A line, followed by a line break, does not start with three dashes
    unless the line does. *)
Lemma no_dashes (l t : string) :
  String.prefix "---" l = false -> Url.strip_prefix "---" (l ^^ nl ^^ t) = None.
Proof.
  unfold nl. intros H.
  destruct l as [|a [|b [|c l]]]; sapp; cbn [Url.strip_prefix] in *.
  - reflexivity.
  - destruct (Ascii.eqb "-" a); reflexivity.
  - destruct (Ascii.eqb "-" a); [|reflexivity]. destruct (Ascii.eqb "-" b); reflexivity.
  - cbn [String.prefix] in H.
    destruct (Ascii.eqb_spec "-"%char a) as [<-|]; [|reflexivity].
    destruct (Ascii.eqb_spec "-"%char b) as [<-|]; [|reflexivity].
    destruct (Ascii.eqb_spec "-"%char c) as [<-|]; [|reflexivity].
    cbn in H. destruct l; discriminate H.
Qed.

Definition line_ok (l : string) : bool := no_nl l && negb (String.prefix "---" l).

(** The yaml block of a document made of such lines is all of them. *)
Lemma cut_lines (lines : list string) (rest : string) :
  lines <> [] ->
  forallb line_ok lines = true ->
  cut fence (join nl lines ^^ fence ^^ rest) = Some (join nl lines, rest).
Proof.
  induction lines as [|l lines IH]; [congruence|]. intros _ Hall.
  cbn [forallb] in Hall. apply andb_true_iff in Hall. destruct Hall as [Hl Hall].
  unfold line_ok in Hl. apply andb_true_iff in Hl. destruct Hl as [Hnl Hd].
  destruct lines as [|l2 lines].
  - cbn [join]. rewrite (cut_run l _ Hnl), cut_fence. now rewrite append_nil_r.
  - change (join nl (l :: l2 :: lines)) with (l ^^ nl ^^ join nl (l2 :: lines)).
    rewrite !append_assoc. rewrite (cut_run l _ Hnl).
    rewrite cut_break.
    + rewrite IH by (discriminate || exact Hall). reflexivity.
    + cbn [forallb] in Hall. apply andb_true_iff in Hall. destruct Hall as [Hl2 _].
      unfold line_ok in Hl2. apply andb_true_iff in Hl2. destruct Hl2 as [_ Hd2].
      apply negb_true_iff in Hd2.
      destruct lines as [|l3 lines].
      * cbn [join]. unfold fence. rewrite append_assoc. now apply no_dashes.
      * change (join nl (l2 :: l3 :: lines)) with (l2 ^^ nl ^^ join nl (l3 :: lines)).
        rewrite !append_assoc. now apply no_dashes.
Qed.

(** *** Splitting and joining *)

Lemma split_run (sep : ascii) (l s : string) :
  all_chars (fun c => negb (Ascii.eqb c sep)) l = true ->
  split sep (l ^^ String sep s) = l :: split sep s.
Proof.
  intros Hl. induction l as [|c l IH]; sapp.
  - cbn [split]. now rewrite Ascii.eqb_refl.
  - cbn [all_chars] in Hl. apply andb_true_iff in Hl. destruct Hl as [Hc Hl].
    apply negb_true_iff in Hc. cbn [split]. now rewrite Hc, (IH Hl).
Qed.

Lemma split_last (sep : ascii) (l : string) :
  all_chars (fun c => negb (Ascii.eqb c sep)) l = true -> split sep l = [l].
Proof.
  intros Hl. induction l as [|c l IH]; [reflexivity|].
  cbn [all_chars] in Hl. apply andb_true_iff in Hl. destruct Hl as [Hc Hl].
  apply negb_true_iff in Hc. cbn [split]. now rewrite Hc, (IH Hl).
Qed.

Lemma split_join_lines (lines : list string) :
  lines <> [] -> forallb no_nl lines = true ->
  split newline (join nl lines) = lines.
Proof.
  induction lines as [|l lines IH]; [congruence|]. intros _ Hall.
  cbn [forallb] in Hall. apply andb_true_iff in Hall. destruct Hall as [Hl Hall].
  destruct lines as [|l2 lines].
  - cbn [join]. now apply split_last.
  - change (join nl (l :: l2 :: lines)) with (l ^^ nl ^^ join nl (l2 :: lines)).
    unfold nl at 1. sapp. rewrite (split_run newline l _ Hl).
    now rewrite IH by (discriminate || exact Hall).
Qed.

Lemma join_split (sep : ascii) (s : string) :
  join (String sep "") (split sep s) = s.
Proof.
  induction s as [|c s IH]; [reflexivity|]. cbn [split].
  destruct (Ascii.eqb_spec c sep) as [->|Hne].
  - pose proof (split_not_nil sep s) as Hn.
    destruct (split sep s) as [|h t] eqn:Hs; [congruence|].
    change (join (String sep "") ("" :: h :: t))
      with ("" ^^ String sep "" ^^ join (String sep "") (h :: t)).
    rewrite IH. now sapp.
  - pose proof (split_not_nil sep s) as Hn.
    destruct (split sep s) as [|h t] eqn:Hs; [congruence|].
    destruct t as [|h2 t].
    + cbn [join] in *. now rewrite IH.
    + change (join (String sep "") (String c h :: h2 :: t))
        with (String c h ^^ String sep "" ^^ join (String sep "") (h2 :: t)).
      change (join (String sep "") (h :: h2 :: t))
        with (h ^^ String sep "" ^^ join (String sep "") (h2 :: t)) in IH.
      sapp. now rewrite IH.
Qed.

(** *** Values that trimming and unquoting leave alone *)

Fixpoint last_char (s : string) : option ascii :=
  match s with
  | EmptyString => None
  | String c EmptyString => Some c
  | String _ s' => last_char s'
  end.

Definition first_is (p : ascii -> bool) (s : string) : bool :=
  match s with
  | String c _ => p c
  | EmptyString => false
  end.

Definition last_is (p : ascii -> bool) (s : string) : bool :=
  match last_char s with
  | Some c => p c
  | None => false
  end.

Definition not_space (c : ascii) : bool := negb (is_space c).
Definition not_quote (c : ascii) : bool := negb (is_quote c).

(** A value as it stands in a simple document: not empty, on one
    line, neither white space nor a quote at either end. *)
Definition plain (v : string) : bool :=
  first_is not_space v && first_is not_quote v
  && last_is not_space v && last_is not_quote v
  && no_nl v.

(** A key: not empty, no colon, no white space at either end. *)
Definition key_ok (k : string) : bool :=
  first_is not_space k && last_is not_space k
  && all_chars (fun c => negb (Ascii.eqb c ":")) k.

Lemma last_char_app (a b : string) : b <> "" -> last_char (a ^^ b) = last_char b.
Proof.
  intros Hb. induction a as [|c a IH]; sapp; [reflexivity|].
  cbn [last_char]. destruct (a ^^ b) eqn:Hab; [|exact IH].
  destruct a; sapp; [congruence | discriminate].
Qed.

Lemma trimStart_keep (s : string) : first_is not_space s = true -> trimStart s = s.
Proof.
  destruct s as [|c s]; [discriminate|]. cbn [first_is trimStart]. unfold not_space.
  intros H. apply negb_true_iff in H. now rewrite H.
Qed.

Lemma trimEnd_keep (s : string) : last_is not_space s = true -> trimEnd s = s.
Proof.
  unfold last_is. induction s as [|c s IH]; [discriminate|].
  cbn [last_char trimEnd]. destruct s as [|d s].
  - cbn [trimEnd]. unfold not_space. intros H. apply negb_true_iff in H. now rewrite H.
  - intros H. rewrite (IH H). reflexivity.
Qed.

Lemma trim_keep (s : string) :
  first_is not_space s = true -> last_is not_space s = true -> trim s = s.
Proof. intros H1 H2. unfold trim. now rewrite (trimStart_keep s H1), trimEnd_keep. Qed.

Lemma strip_trailing_keep (s : string) :
  last_is not_quote s = true -> strip_trailing_quote s = s.
Proof.
  unfold last_is. induction s as [|c s IH]; [discriminate|].
  cbn [last_char strip_trailing_quote]. destruct s as [|d s].
  - unfold not_quote. intros H. apply negb_true_iff in H. now rewrite H.
  - intros H. now rewrite (IH H).
Qed.

Lemma unquote_keep (s : string) :
  first_is not_quote s = true -> last_is not_quote s = true -> unquote s = s.
Proof.
  intros H1 H2. unfold unquote.
  destruct s as [|c s]; [discriminate|]. cbn [first_is] in H1. unfold not_quote in H1.
  apply negb_true_iff in H1. cbn [strip_leading_quote]. rewrite H1.
  now apply strip_trailing_keep.
Qed.

Lemma plain_parts (v : string) :
  plain v = true ->
  v <> "" /\ first_is not_space v = true /\ first_is not_quote v = true /\
  last_is not_space v = true /\ last_is not_quote v = true /\ no_nl v = true.
Proof.
  unfold plain. rewrite !andb_true_iff. intros [[[[H1 H2] H3] H4] H5].
  repeat split; auto. intros ->. discriminate H1.
Qed.

Lemma key_parts (k : string) :
  key_ok k = true ->
  k <> "" /\ first_is not_space k = true /\ last_is not_space k = true /\
  all_chars (fun c => negb (Ascii.eqb c ":")) k = true.
Proof.
  unfold key_ok. rewrite !andb_true_iff. intros [[H1 H2] H3].
  repeat split; auto. intros ->. discriminate H1.
Qed.

(** The value of an entry: what follows the colon and one space. *)
Lemma value_keep (v : string) : plain v = true -> unquote (trim (String " " v)) = v.
Proof.
  intros Hv. destruct (plain_parts v Hv) as [_ [H1 [H2 [H3 [H4 _]]]]].
  unfold trim. change (trimStart (String " " v)) with (trimStart v).
  rewrite (trimStart_keep v H1), (trimEnd_keep v H3). now apply unquote_keep.
Qed.

Lemma first_is_app (p : ascii -> bool) (a b : string) :
  first_is p a = true -> first_is p (a ^^ b) = true.
Proof. destruct a; [discriminate|]. now sapp. Qed.

Lemma last_is_app (p : ascii -> bool) (a b : string) :
  last_is p b = true -> last_is p (a ^^ b) = true.
Proof.
  unfold last_is. intros H. rewrite last_char_app; [exact H|].
  intros ->. discriminate H.
Qed.

(** The line of an entry is one line and does not start a fence. *)
Lemma entry_line_ok (k v : string) :
  no_nl k = true -> String.prefix "---" (k ^^ ": ") = false -> plain v = true ->
  line_ok (k ^^ ": " ^^ v) = true.
Proof.
  intros Hk Hd Hv. destruct (plain_parts v Hv) as [_ [_ [_ [_ [_ Hnl]]]]].
  unfold line_ok, no_nl in *. rewrite !all_chars_app, Hk, Hnl.
  cbn [andb]. change (all_chars _ ": ") with true. cbn [andb].
  apply negb_true_iff.
  destruct (String.prefix "---" (k ^^ ": " ^^ v)) eqn:Hp; [|reflexivity].
  apply prefix_spec in Hp. destruct Hp as [t Ht].
  assert (Hp' : String.prefix "---" (k ^^ ": ") = true); [|congruence].
  destruct k as [|a [|b [|c k]]]; sapp; inversion Ht; subst; try reflexivity.
  apply prefix_spec. now exists (k ^^ ": ").
Qed.

(** *** The loop, line by line *)

Lemma indexOf_run (c : ascii) (k t : string) :
  all_chars (fun d => negb (Ascii.eqb d c)) k = true ->
  indexOf c (k ^^ String c t) = Some (String.length k).
Proof.
  intros Hk. induction k as [|d k IH]; sapp.
  - cbn [indexOf]. now rewrite Ascii.eqb_refl.
  - cbn [all_chars] in Hk. apply andb_true_iff in Hk. destruct Hk as [Hd Hk].
    apply negb_true_iff in Hd. cbn [indexOf String.length]. now rewrite Hd, (IH Hk).
Qed.

Lemma slice_to_run (k t : string) : slice_to (String.length k) (k ^^ t) = k.
Proof.
  induction k as [|c k IH]; sapp; [now destruct t|].
  cbn [String.length slice_to]. now rewrite IH.
Qed.

Lemma slice_from_run (k t : string) (c : ascii) :
  slice_from (String.length k + 1) (k ^^ String c t) = t.
Proof.
  induction k as [|d k IH]; sapp; [now destruct t|].
  cbn [String.length Nat.add slice_from]. exact IH.
Qed.

Lemma not_space_blank (s : string) :
  first_is not_space s = true -> String.prefix "  " s = false.
Proof.
  destruct s as [|c s]; [discriminate|]. cbn [first_is String.prefix]. unfold not_space.
  intros H. destruct (ascii_dec " " c) as [<-|]; [discriminate H | reflexivity].
Qed.

(** A top-level entry [key: value]. *)
Lemma step_entry (st : state) (k v : string) :
  key_ok k = true -> plain v = true ->
  startsWith "metadata:" (k ^^ ": " ^^ v) = false ->
  step st (k ^^ ": " ^^ v) =
  {| result := <[k := JStr v]> (result st);
     metadataObj := metadataObj st;
     inMetadata := false |}.
Proof.
  intros Hk Hv Hm. destruct (key_parts k Hk) as [Hne [Hk1 [Hk2 Hk3]]].
  destruct (plain_parts v Hv) as [Hvne [_ [_ [Hv3 _]]]].
  unfold step.
  assert (Ht : trim (k ^^ ": " ^^ v) = k ^^ ": " ^^ v).
  { apply trim_keep; [now apply first_is_app|]. rewrite <- append_assoc.
    now apply last_is_app. }
  rewrite Ht.
  assert (Hnz : String.eqb (k ^^ ": " ^^ v) "" = false).
  { destruct k; [congruence|]. now sapp. }
  rewrite Hnz. unfold startsWith in *.
  rewrite (not_space_blank _ (first_is_app _ k _ Hk1)). cbn [andb]. rewrite Hm.
  change (k ^^ ": " ^^ v) with (k ^^ String ":" (String " " v)).
  rewrite (indexOf_run ":" k _ Hk3).
  destruct (String.length k) as [|i] eqn:Hlen; [destruct k; [congruence|discriminate]|].
  cbv zeta. rewrite <- Hlen.
  rewrite slice_to_run, slice_from_run, (trim_keep k Hk1 Hk2), (value_keep v Hv).
  reflexivity.
Qed.

Lemma step_metadata (st : state) :
  step st "metadata:" =
  {| result := result st; metadataObj := metadataObj st; inMetadata := true |}.
Proof. reflexivity. Qed.

(** A nested entry below [metadata:]. *)
Lemma step_nested (st : state) (k v : string) :
  inMetadata st = true -> key_ok k = true -> plain v = true ->
  step st ("  " ^^ k ^^ ": " ^^ v) =
  {| result := result st;
     metadataObj := <[k := v]> (metadataObj st);
     inMetadata := true |}.
Proof.
  intros Hin Hk Hv. destruct (key_parts k Hk) as [Hne [Hk1 [Hk2 Hk3]]].
  destruct (plain_parts v Hv) as [Hvne [_ [_ [Hv3 _]]]].
  unfold step.
  assert (Ht : trim ("  " ^^ k ^^ ": " ^^ v) = k ^^ ": " ^^ v).
  { unfold trim. change (trimStart ("  " ^^ k ^^ ": " ^^ v)) with (trimStart (k ^^ ": " ^^ v)).
    rewrite trimStart_keep by now apply first_is_app.
    apply trimEnd_keep. rewrite <- append_assoc. now apply last_is_app. }
  rewrite Ht.
  assert (Hnz : String.eqb (k ^^ ": " ^^ v) "" = false).
  { destruct k; [congruence|]. now sapp. }
  rewrite Hnz, Hin. unfold startsWith.
  rewrite (proj2 (prefix_spec "  " ("  " ^^ k ^^ ": " ^^ v))
             (ex_intro _ (k ^^ ": " ^^ v) eq_refl)). cbn [andb].
  change (k ^^ ": " ^^ v) with (k ^^ String ":" (String " " v)).
  rewrite (split_run ":" k _ Hk3).
  apply String.eqb_neq in Hne. rewrite Hne. cbn [negb andb].
  pose proof (split_not_nil ":" (String " " v)) as Hn.
  destruct (split ":" (String " " v)) as [|h t] eqn:Hs; [congruence|].
  cbn [length Nat.eqb negb]. rewrite <- Hs, (join_split ":" (String " " v)).
  now rewrite (trim_keep k Hk1 Hk2), (value_keep v Hv).
Qed.

(** *** The document of the round trip *)

Definition lines_of (n d l a v : string) : list string :=
  [ "name" ^^ ": " ^^ n; "description" ^^ ": " ^^ d; "license" ^^ ": " ^^ l;
    "metadata:"; "  " ^^ "author" ^^ ": " ^^ a; "  " ^^ "version" ^^ ": " ^^ v ].

Definition document (n d l a v body : string) : string :=
  "---" ^^ nl ^^ join nl (lines_of n d l a v) ^^ nl ^^ "---" ^^ nl ^^ body.

Lemma nested_line_ok (k v : string) :
  no_nl k = true -> plain v = true -> line_ok ("  " ^^ k ^^ ": " ^^ v) = true.
Proof.
  intros Hk Hv. destruct (plain_parts v Hv) as [_ [_ [_ [_ [_ Hnl]]]]].
  unfold line_ok, no_nl in *. rewrite !all_chars_app, Hk, Hnl. reflexivity.
Qed.

End ParseFacts.

(** [parseSkillMdFrontmatter] returns null exactly for a text that
    does not open with a line of three dashes followed, somewhere, by a
    line break and three dashes. *)
Theorem parseSkillMdFrontmatter_fence (content : string) :
  Parse.parseSkillMdFrontmatter content = None <->
  forall yaml rest,
    content <> "---" ^^ Parse.nl ^^ yaml ^^ Parse.nl ^^ "---" ^^ rest.
Proof.
  unfold Parse.parseSkillMdFrontmatter, Parse.frontmatterMatch.
  destruct (Url.strip_prefix ("---" ^^ Parse.nl) content) as [rest|] eqn:Hp;
    cbn [mbind option_bind].
  - apply ParseFacts.strip_prefix_spec in Hp.
    destruct (Parse.cut (Parse.nl ^^ "---") rest) as [[yaml r]|] eqn:Hc;
      cbn [fmap option_fmap option_map mbind option_bind].
    + split; [discriminate|]. intros H. exfalso. apply (H yaml r).
      apply ParseFacts.cut_sound in Hc. rewrite Hp, Hc.
      now rewrite !StrFacts.append_assoc.
    + split; [|reflexivity]. intros _ yaml r H.
      apply (ParseFacts.cut_none _ _ Hc yaml r).
      rewrite Hp in H. rewrite !StrFacts.append_assoc in H.
      unfold Parse.nl in H. StrFacts.sapp. inversion H. unfold Parse.nl. now StrFacts.sapp.
  - split; [|reflexivity]. intros _ yaml r H.
    rewrite H, <- !StrFacts.append_assoc in Hp.
    rewrite !StrFacts.append_assoc in Hp.
    rewrite <- (StrFacts.append_assoc "---" Parse.nl) in Hp.
    rewrite UrlFacts.strip_prefix_app in Hp. discriminate.
Qed.

(** A simple document reads back: front matter with a name, a
    description, a license and, below [metadata:], an author and a
    version, each a plain value (one line, neither white space nor a
    quote at either end; colons allowed), yields exactly these five
    fields, whatever follows the closing fence. *)
Theorem parseSkillMdFrontmatter_round_trip (n d l a v body : string) :
  ParseFacts.plain n = true -> ParseFacts.plain d = true -> ParseFacts.plain l = true ->
  ParseFacts.plain a = true -> ParseFacts.plain v = true ->
  Parse.view <$> Parse.parseSkillMdFrontmatter (ParseFacts.document n d l a v body) =
  Some {| fm_name := Some n; fm_description := Some d; fm_license := Some l;
          fm_author := Some a; fm_version := Some v |}.
Proof.
  intros Hn Hd Hl Ha Hv.
  assert (Hlines : forallb ParseFacts.line_ok (ParseFacts.lines_of n d l a v) = true).
  { unfold ParseFacts.lines_of. cbn [forallb].
    rewrite !ParseFacts.entry_line_ok by (reflexivity || assumption).
    rewrite !ParseFacts.nested_line_ok by (reflexivity || assumption).
    reflexivity. }
  assert (Hnl : forallb ParseFacts.no_nl (ParseFacts.lines_of n d l a v) = true).
  { apply forallb_forall. intros x Hx.
    pose proof (proj1 (forallb_forall _ _) Hlines x Hx) as H.
    unfold ParseFacts.line_ok in H. now apply andb_true_iff in H. }
  unfold Parse.parseSkillMdFrontmatter, Parse.frontmatterMatch, ParseFacts.document.
  rewrite <- (StrFacts.append_assoc "---" Parse.nl).
  rewrite UrlFacts.strip_prefix_app. cbn [mbind option_bind].
  change (Parse.nl ^^ "---") with ParseFacts.fence.
  replace (Str.join Parse.nl (ParseFacts.lines_of n d l a v) ^^ Parse.nl ^^ "---" ^^ Parse.nl ^^ body)
    with (Str.join Parse.nl (ParseFacts.lines_of n d l a v) ^^ ParseFacts.fence ^^ Parse.nl ^^ body)
    by (unfold ParseFacts.fence; now rewrite !StrFacts.append_assoc).
  rewrite ParseFacts.cut_lines by (discriminate || exact Hlines).
  cbn [fmap option_fmap option_map mbind option_bind fst].
  rewrite ParseFacts.split_join_lines by (discriminate || exact Hnl).
  unfold ParseFacts.lines_of. cbn [fold_left].
  rewrite (ParseFacts.step_entry _ "name" n eq_refl Hn eq_refl).
  rewrite (ParseFacts.step_entry _ "description" d eq_refl Hd eq_refl).
  rewrite (ParseFacts.step_entry _ "license" l eq_refl Hl eq_refl).
  rewrite ParseFacts.step_metadata.
  rewrite (ParseFacts.step_nested _ "author" a) by (reflexivity || assumption).
  rewrite (ParseFacts.step_nested _ "version" v) by (reflexivity || assumption).
  cbn [Parse.result Parse.metadataObj Parse.inMetadata].
  destruct (decide _) as [He|_].
  { exfalso. now apply insert_non_empty in He. }
  apply f_equal. unfold Parse.view, Parse.str_at, Parse.meta_at.
  repeat first [ rewrite lookup_insert_eq | rewrite lookup_insert_ne by discriminate ].
  reflexivity.
Qed.

Lemma parseSkillMdFrontmatter_round_trip_witness :
  Parse.view <$> Parse.parseSkillMdFrontmatter
    (ParseFacts.document "pdf" "Use when: a PDF must be read" "MIT" "acme" "1.2.0"
       "# PDF") =
  Some {| fm_name := Some "pdf"; fm_description := Some "Use when: a PDF must be read";
          fm_license := Some "MIT"; fm_author := Some "acme"; fm_version := Some "1.2.0" |}.
Proof.
  apply parseSkillMdFrontmatter_round_trip; reflexivity.
Defined.
